(** * SpeakChat.ai: rate limiter, API clients, chat route and hook

    A shallow embedding of the stateful code of the repository:

    - [RateLimiter]  (the class [RateLimiter] of [utils/rateLimiter.ts]):
      a [Map] from keys to window entries, the admission check, the sweep
      and the quota query;
    - [ApiService]   (the class [ApiService] of [services/apiService.ts]):
      error classification, backoff, the circuit breaker, the retrying
      request pipeline, request deduplication, the health check and the
      introspection calls;
    - [ClientAddress]  ([getClientIP] of [utils/rateLimiter.ts]);
    - [UtilsApiService]  (the class [ApiService] of [utils/apiService.ts],
      the client the chat component uses): the retry loop;
    - [ChatRoute]  (the handler [POST] of the chat route): rate limiting,
      validation and the chain of fallbacks;
    - [UseApiCall]  (the hook [useApiCall]): its state, [retry] and the
      messages shown to the user;
    - [ChatInterface]  ([sendMessage] of the chat component).

    JavaScript numbers that hold timestamps, counters and HTTP statuses are
    modelled by [Z]; the places where the source computes with fractions
    ([calculateRetryDelay] and the choice of a canned answer, through
    [Math.random]) are modelled over the rationals [Q].  [Date.now()],
    [Math.random()], the behaviour of [fetch] and the answers of the
    language model are inputs supplied by the environment. *)

From Stdlib Require Import ZArith QArith Qminmax String Ascii List Lia Lra Psatz.
From Stdlib Require Import Qround.
From stdpp Require Import gmap strings pretty.
Import ListNotations.

Local Open Scope string_scope.
Local Open Scope Z_scope.

(* ===================================================================== *)
(** ** The rate limiter *)
(* ===================================================================== *)

Module RateLimiter.

(** [interface RateLimitEntry] *)
Record RateLimitEntry := mkEntry {
  count : Z;
  resetTime : Z;
  burstCount : Z;
  burstResetTime : Z
}.

(** [interface RateLimitConfig] *)
Record RateLimitConfig := mkConfig {
  perMinute : Z;
  perHour : Z;
  burstLimit : Z;
  burstWindow : Z
}.

(** The object returned by [checkRateLimit]; the three optional fields of
    the TypeScript return type are options here. *)
Record CheckResult := mkResult {
  allowed : bool;
  error : option string;
  res_resetTime : option Z;
  remaining : option Z
}.

(** [private store = new Map<string, RateLimitEntry>()] *)
Abbreviation Store := (gmap string RateLimitEntry).

Definition burst_message : string :=
  "Slow down a bit! Please wait a few seconds before your next message.".

Definition sustained_message : string :=
  "You're chatting quite actively! Please wait a moment before sending another message.".

(** [getKey]: the template literal [`${ip}:${endpoint}`]. *)
Definition getKey (ip endpoint : string) : string :=
  ip +:+ ":" +:+ endpoint.

(** The entry created lazily when the key is not in the store. *)
Definition fresh_entry (config : RateLimitConfig) (now : Z) : RateLimitEntry :=
  {| count := 0;
     resetTime := now + 60 * 1000;
     burstCount := 0;
     burstResetTime := now + burstWindow config |}.

(** [if (now >= entry.resetTime) { entry.count = 0; entry.resetTime = now + 60 * 1000; }] *)
Definition reset_window (now : Z) (e : RateLimitEntry) : RateLimitEntry :=
  if now >=? resetTime e
  then {| count := 0; resetTime := now + 60 * 1000;
          burstCount := burstCount e; burstResetTime := burstResetTime e |}
  else e.

(** [if (now >= entry.burstResetTime) { entry.burstCount = 0; entry.burstResetTime = now + config.burstWindow; }] *)
Definition reset_burst (config : RateLimitConfig) (now : Z) (e : RateLimitEntry)
  : RateLimitEntry :=
  if now >=? burstResetTime e
  then {| count := count e; resetTime := resetTime e;
          burstCount := 0; burstResetTime := now + burstWindow config |}
  else e.

(** [entry.count++; entry.burstCount++] *)
Definition increment (e : RateLimitEntry) : RateLimitEntry :=
  {| count := count e + 1; resetTime := resetTime e;
     burstCount := burstCount e + 1; burstResetTime := burstResetTime e |}.

(** The entry the check works on, after the lazy creation and the two
    window resets. *)
Definition current_entry (config : RateLimitConfig) (now : Z)
    (found : option RateLimitEntry) : RateLimitEntry :=
  let entry := match found with
               | Some e => e
               | None => fresh_entry config now
               end in
  reset_burst config now (reset_window now entry).

(** [checkRateLimit(ip, endpoint, config)].  [now] is [Date.now()].  The
    entry is a JavaScript object held by the map and mutated in place, so
    the resets reach the store on the rejecting paths as well: every path
    writes the entry back. *)
Definition checkRateLimit (ip endpoint : string) (config : RateLimitConfig)
    (now : Z) (store : Store) : CheckResult * Store :=
  let key := getKey ip endpoint in
  let entry := current_entry config now (store !! key) in
  if burstCount entry >=? burstLimit config then
    ({| allowed := false;
        error := Some burst_message;
        res_resetTime := Some (burstResetTime entry);
        remaining := Some 0 |},
     <[key := entry]> store)
  else if count entry >=? perMinute config then
    ({| allowed := false;
        error := Some sustained_message;
        res_resetTime := Some (resetTime entry);
        remaining := Some 0 |},
     <[key := entry]> store)
  else
    let entry' := increment entry in
    ({| allowed := true;
        error := None;
        res_resetTime := Some (resetTime entry');
        remaining := Some (perMinute config - count entry') |},
     <[key := entry']> store).

(** The condition under which [cleanup] deletes an entry. *)
Definition expired (now : Z) (e : RateLimitEntry) : bool :=
  (resetTime e <? now) && (burstResetTime e <? now).

(** [cleanup()]: delete every entry whose two windows are in the past. *)
Definition cleanup (now : Z) (store : Store) : Store :=
  filter (fun kv : string * RateLimitEntry => expired now (snd kv) = false) store.

(** [getRemainingRequests(ip, endpoint)] *)
Definition getRemainingRequests (ip endpoint : string) (now : Z) (store : Store) : Z :=
  match store !! getKey ip endpoint with
  | None => 30
  | Some entry =>
      if now >=? resetTime entry then 30
      else Z.max 0 (30 - count entry)
  end.

(** [export const RATE_LIMITS] *)
Definition RATE_LIMITS_chat : RateLimitConfig :=
  {| perMinute := 30; perHour := 100; burstLimit := 5; burstWindow := 10000 |}.

Definition RATE_LIMITS_health : RateLimitConfig :=
  {| perMinute := 60; perHour := 200; burstLimit := 10; burstWindow := 5000 |}.

(** A run of checks by one caller on one route, at the given times; the
    results come back in order. *)
Fixpoint checks (ip endpoint : string) (config : RateLimitConfig)
    (times : list Z) (store : Store) : list CheckResult * Store :=
  match times with
  | [] => ([], store)
  | now :: rest =>
      let '(r, store1) := checkRateLimit ip endpoint config now store in
      let '(rs, store2) := checks ip endpoint config rest store1 in
      (r :: rs, store2)
  end.

(** What happens to a limiter over time: the checks made by the request
    handler and the sweeps made by the timer of the constructor. *)
Inductive Operation :=
| Check (ip endpoint : string) (config : RateLimitConfig) (now : Z)
| Sweep (now : Z).

Definition time_of (op : Operation) : Z :=
  match op with
  | Check _ _ _ now => now
  | Sweep now => now
  end.

Definition is_check (op : Operation) : bool :=
  match op with
  | Check _ _ _ _ => true
  | Sweep _ => false
  end.

(** The operations in order; the results of the checks are what a caller
    can observe. *)
Fixpoint perform (ops : list Operation) (store : Store) : list CheckResult * Store :=
  match ops with
  | [] => ([], store)
  | Check ip endpoint config now :: rest =>
      let '(r, store1) := checkRateLimit ip endpoint config now store in
      let '(rs, store2) := perform rest store1 in
      (r :: rs, store2)
  | Sweep now :: rest => perform rest (cleanup now store)
  end.

(** The clock does not run backwards from [from] on. *)
Fixpoint chronological (from : Z) (ops : list Operation) : Prop :=
  match ops with
  | [] => True
  | op :: rest => from <= time_of op /\ chronological (time_of op) rest
  end.

(** An entry that is absent, or present with both windows in the past. *)
Definition absent_or_expired (now : Z) (found : option RateLimitEntry) : Prop :=
  match found with
  | None => True
  | Some e => expired now e = true
  end.

(** Two stores that differ in expired entries only. *)
Definition similar (now : Z) (store1 store2 : Store) : Prop :=
  forall key,
    store1 !! key = store2 !! key
    \/ (absent_or_expired now (store1 !! key) /\ absent_or_expired now (store2 !! key)).

(** [destroy()]: the timer is cleared and the store emptied. *)
Definition destroy (store : Store) : Store := ∅.

(** The checks that were admitted. *)
Definition admitted (results : list CheckResult) : nat :=
  length (List.filter allowed results).

(** [s.includes(c)] for one character. *)
Fixpoint contains (c : ascii) (s : string) : bool :=
  match s with
  | EmptyString => false
  | String d rest => Ascii.eqb c d || contains c rest
  end.

(** What is left of the two quotas of an entry under a policy. *)
Definition capacity (config : RateLimitConfig) (e : RateLimitEntry) : Z :=
  Z.min (burstLimit config - burstCount e) (perMinute config - count e).

(** An entry that rejects every check before [until]: one of its two
    counters is at its limit and the window of that counter does not end
    before [until]. *)
Definition blocked (config : RateLimitConfig) (until : Z) (e : RateLimitEntry) : Prop :=
  (burstLimit config <= burstCount e /\ until <= burstResetTime e)
  \/ (perMinute config <= count e /\ until <= resetTime e).

End RateLimiter.

(* ===================================================================== *)
(** ** The API service *)
(* ===================================================================== *)

Module ApiService.

(** *** Values *)

(** A JavaScript number that may be [NaN] (the result of [parseInt]). *)
Inductive JsNumber :=
| Num (z : Z)
| NaN.

Definition js_mul (a : JsNumber) (k : Z) : JsNumber :=
  match a with
  | Num z => Num (z * k)
  | NaN => NaN
  end.

(** [ApiError['type']] *)
Inductive ErrorType :=
| network | server | client | timeout | rate_limit | auth | unknown.

(** [interface ApiError] *)
Record ApiError := mkApiError {
  type : ErrorType;
  message : string;
  statusCode : option Z;
  retryable : bool;
  retryAfter : option JsNumber
}.

(** [interface ChatRequest] *)
Record ChatRequest := mkChatRequest {
  req_message : string;
  personality : string;
  gender : string;
  language : string
}.

(** What [response.json()] yields when the body parses: the properties the
    service reads ([error], [message]) and those of a [ChatResponse]
    ([response], [fallback]).  An absent property is [None]. *)
Record Json := mkJson {
  json_error : option string;
  json_message : option string;
  json_response : option string;
  json_fallback : option string
}.

(** A [Response] of [fetch]: status line, the [Retry-After] header as
    [headers.get] returns it, and the parsed body ([None]: [json()]
    rejects). *)
Record Response := mkResponse {
  status : Z;
  statusText : string;
  retry_after_header : option string;
  body : option Json
}.

(** [response.ok]: the status is in the range 200-299. *)
Definition ok (r : Response) : bool :=
  (200 <=? status r) && (status r <=? 299).

(** [interface ConnectionStatus] *)
Record ConnectionStatus := mkConnectionStatus {
  isOnline : bool;
  lastChecked : Z;
  responseTime : option Z
}.

(** The mutable fields of [class ApiService].  A promise held by the
    request queue is named by its number. *)
Record State := mkState {
  connectionStatus : ConnectionStatus;
  requestQueue : gmap string nat;
  circuitBreakerFailures : Z;
  circuitBreakerLastFailure : option Z
}.

(** The fields the constructor sets once. *)
Definition baseUrl : string := "/api".
Definition maxRetries : nat := 3.
Definition retryDelay : Z := 1000.
Definition circuitBreakerThreshold : Z := 5.
Definition circuitBreakerResetTime : Z := 60000.

(** The state the constructor leaves; [online] is [navigator.onLine]. *)
Definition initial (online : bool) (now : Z) : State :=
  {| connectionStatus := {| isOnline := online; lastChecked := now; responseTime := None |};
     requestQueue := ∅;
     circuitBreakerFailures := 0;
     circuitBreakerLastFailure := None |}.

(** *** Strings of the JavaScript runtime *)

Definition dquote : string := String (ascii_of_nat 34) EmptyString.
Definition backslash : string := String (ascii_of_nat 92) EmptyString.

(** [a || b] on strings that may be undefined: the empty string is falsy. *)
Definition or_else (a : option string) (b : string) : string :=
  match a with
  | Some (String c s) => String c s
  | _ => b
  end.

(** [hay.includes(needle)] *)
Fixpoint includes (hay needle : string) : bool :=
  String.prefix needle hay ||
  match hay with
  | EmptyString => false
  | String _ rest => includes rest needle
  end.

Definition hex_digit (n : nat) : ascii :=
  ascii_of_nat (if (n <? 10)%nat then 48 + n else 87 + n).

(** One code unit inside a JSON string (QuoteJSONString). *)
Definition quote_char (c : ascii) : string :=
  let n := nat_of_ascii c in
  if (n =? 34)%nat then backslash +:+ dquote
  else if (n =? 92)%nat then backslash +:+ backslash
  else if (n =? 8)%nat then backslash +:+ "b"
  else if (n =? 9)%nat then backslash +:+ "t"
  else if (n =? 10)%nat then backslash +:+ "n"
  else if (n =? 12)%nat then backslash +:+ "f"
  else if (n =? 13)%nat then backslash +:+ "r"
  else if (n <? 32)%nat then
    backslash +:+ "u00" +:+
      String (hex_digit (n / 16)) (String (hex_digit (n mod 16)) EmptyString)
  else String c EmptyString.

Fixpoint quote_chars (s : string) : string :=
  match s with
  | EmptyString => EmptyString
  | String c rest => quote_char c +:+ quote_chars rest
  end.

(** [JSON.stringify] of a string. *)
Definition JSON_stringify_string (s : string) : string :=
  dquote +:+ quote_chars s +:+ dquote.

Definition json_property (name value : string) : string :=
  dquote +:+ name +:+ dquote +:+ ":" +:+ JSON_stringify_string value.

(** [JSON.stringify(request)] of a [ChatRequest] built as the callers
    build it (properties in the order of the interface). *)
Definition JSON_stringify_request (r : ChatRequest) : string :=
  "{" +:+ json_property "message" (req_message r) +:+ ","
      +:+ json_property "personality" (personality r) +:+ ","
      +:+ json_property "gender" (gender r) +:+ ","
      +:+ json_property "language" (language r) +:+ "}".

(** White space that [parseInt] skips.  The text is the value of a
    header, which [headers.get] returns with one character per byte: the
    white space of JavaScript among these characters is the ASCII white
    space and the no-break space U+00A0. *)
Definition is_space (c : ascii) : bool :=
  let n := nat_of_ascii c in
  (n =? 32)%nat || ((9 <=? n)%nat && (n <=? 13)%nat) || (n =? 160)%nat.

Fixpoint skip_spaces (s : string) : string :=
  match s with
  | String c rest => if is_space c then skip_spaces rest else s
  | EmptyString => s
  end.

Definition digit_value (radix : Z) (c : ascii) : option Z :=
  let n := Z.of_nat (nat_of_ascii c) in
  let v := if (48 <=? n) && (n <=? 57) then n - 48
           else if (97 <=? n) && (n <=? 122) then n - 87
           else if (65 <=? n) && (n <=? 90) then n - 55
           else radix in
  if v <? radix then Some v else None.

(** The longest prefix of digits, read in the radix. *)
Fixpoint parse_digits (radix : Z) (s : string) (acc : option Z) : option Z :=
  match s with
  | EmptyString => acc
  | String c rest =>
      match digit_value radix c with
      | Some d =>
          parse_digits radix rest
            (Some (radix * match acc with Some a => a | None => 0 end + d))
      | None => acc
      end
  end.

(** What [parse_digits] has read so far. *)
Definition acc_value (acc : option Z) : Z :=
  match acc with Some a => a | None => 0 end.

(** [parseInt(s)] with no radix argument: white space, a sign, a [0x]
    prefix, digits; [NaN] when no digit follows.  (Values are exact here;
    the source's are doubles, which are exact up to 2^53 and rounded
    above.) *)
Definition parseInt (s : string) : JsNumber :=
  let s := skip_spaces s in
  let '(sign, s) :=
    match s with
    | String "-" rest => (-1, rest)
    | String "+" rest => (1, rest)
    | _ => (1, s)
    end in
  let '(radix, s) :=
    match s with
    | String "0" (String "x" rest) => (16, rest)
    | String "0" (String "X" rest) => (16, rest)
    | _ => (10, s)
    end in
  match parse_digits radix s None with
  | Some v => Num (sign * v)
  | None => NaN
  end.

(** *** Errors *)

(** [createApiError(type, message, statusCode?, retryable = false, retryAfter?)] *)
Definition createApiError (ty : ErrorType) (msg : string) (code : option Z)
    (retry : bool) (after : option JsNumber) : ApiError :=
  {| type := ty; message := msg; statusCode := code;
     retryable := retry; retryAfter := after |}.

(** The message [handleHttpError] settles on: from the parsed body, or from
    the status text when [json()] rejects. *)
Definition http_message (r : Response) : string :=
  let message := "HTTP " +:+ pretty (status r) in
  match body r with
  | Some errorData =>
      or_else (json_error errorData) (or_else (json_message errorData) message)
  | None => or_else (Some (statusText r)) message
  end.

(** [handleHttpError(response)] *)
Definition handleHttpError (r : Response) : ApiError :=
  let statusCode := status r in
  let message := http_message r in
  if statusCode >=? 500 then
    createApiError server message (Some statusCode) true None
  else if statusCode =? 429 then
    let retryAfter :=
      parseInt (or_else (retry_after_header r) "60") in
    createApiError rate_limit "Too many requests" (Some statusCode) true
      (Some (js_mul retryAfter 1000))
  else if (statusCode =? 401) || (statusCode =? 403) then
    createApiError auth "Authentication failed" (Some statusCode) false None
  else if statusCode >=? 400 then
    createApiError client message (Some statusCode) false None
  else
    createApiError unknown message (Some statusCode) false None.

(** *** Backoff *)

(** [calculateRetryDelay(retryCount)]; [random] is [Math.random()]. *)
Definition calculateRetryDelay (random : Q) (retryCount : nat) : Q :=
  let baseDelay := (inject_Z retryDelay * inject_Z (2 ^ Z.of_nat retryCount))%Q in
  let jitter := (random * (1 # 10) * baseDelay)%Q in
  Qmin (baseDelay + jitter)%Q (inject_Z 30000).

(** *** Circuit breaker *)

(** [recordFailure()]; [now] is [new Date()]. *)
Definition recordFailure (now : Z) (s : State) : State :=
  {| connectionStatus := connectionStatus s;
     requestQueue := requestQueue s;
     circuitBreakerFailures := circuitBreakerFailures s + 1;
     circuitBreakerLastFailure := Some now |}.

(** The two assignments that reset the breaker. *)
Definition resetCircuitBreaker (s : State) : State :=
  {| connectionStatus := connectionStatus s;
     requestQueue := requestQueue s;
     circuitBreakerFailures := 0;
     circuitBreakerLastFailure := None |}.

(** [isCircuitBreakerOpen()]; [now] is [Date.now()].  The call resets the
    breaker when the reset time has passed, so it returns the state too. *)
Definition isCircuitBreakerOpen (now : Z) (s : State) : bool * State :=
  if circuitBreakerFailures s <? circuitBreakerThreshold then (false, s)
  else
    match circuitBreakerLastFailure s with
    | None => (false, s)
    | Some last =>
        let timeSinceLastFailure := now - last in
        if timeSinceLastFailure >? circuitBreakerResetTime
        then (false, resetCircuitBreaker s)
        else (true, s)
    end.

(** *** Connection monitoring and introspection *)

Definition set_connectionStatus (c : ConnectionStatus) (s : State) : State :=
  {| connectionStatus := c;
     requestQueue := requestQueue s;
     circuitBreakerFailures := circuitBreakerFailures s;
     circuitBreakerLastFailure := circuitBreakerLastFailure s |}.

Definition set_requestQueue (q : gmap string nat) (s : State) : State :=
  {| connectionStatus := connectionStatus s;
     requestQueue := q;
     circuitBreakerFailures := circuitBreakerFailures s;
     circuitBreakerLastFailure := circuitBreakerLastFailure s |}.

(** The two listeners of [setupConnectionMonitoring]. *)
Inductive Signal := online | offline.

Definition on_signal (sig : Signal) (now : Z) (s : State) : State :=
  set_connectionStatus
    {| isOnline := match sig with online => true | offline => false end;
       lastChecked := now;
       responseTime := responseTime (connectionStatus s) |} s.

(** [getConnectionStatus()]: a copy of the status. *)
Definition getConnectionStatus (s : State) : ConnectionStatus * State :=
  (connectionStatus s, s).

(** The object [getMetrics()] returns. *)
Record Metrics := mkMetrics {
  m_circuitBreakerFailures : Z;
  m_isCircuitBreakerOpen : bool;
  queueSize : nat;
  m_connectionStatus : ConnectionStatus
}.

(** [getMetrics()]: the properties of the object literal are evaluated in
    order, the failure count before the call of [isCircuitBreakerOpen]. *)
Definition getMetrics (now : Z) (s : State) : Metrics * State :=
  let failures := circuitBreakerFailures s in
  let '(isOpen, s1) := isCircuitBreakerOpen now s in
  let n := size (requestQueue s1) in
  let '(status, s2) := getConnectionStatus s1 in
  ({| m_circuitBreakerFailures := failures;
      m_isCircuitBreakerOpen := isOpen;
      queueSize := n;
      m_connectionStatus := status |}, s2).

(** *** The request pipeline *)

(** How one [fetch] ends. *)
Inductive FetchResult :=
| Responds (r : Response)          (* resolves with a response *)
| Aborts                           (* the timeout aborted it: an Error named AbortError *)
| ThrowsTypeError (msg : string)   (* rejects with a TypeError *)
| Throws.                          (* rejects with anything else *)

(** What the environment supplies to one invocation of [makeRequest]: the
    connection event (if any) the window delivered since the previous
    step, the clock when the invocation runs, when its [fetch] settles
    and when the [catch] block records a failure, the value of
    [Math.random()], and the fate of the [fetch]. *)
Record Attempt := mkAttempt {
  signal : option (Signal * Z);
  started : Z;
  settled : Z;
  caught : Z;
  random : Q;
  result : FetchResult
}.

(** How a promise of [makeRequest] settles. *)
Inductive Outcome :=
| Resolved (data : Json)
| Rejected (e : ApiError).

(** What a request does to the outside: the fetches it issues and the
    backoff sleeps between them. *)
Inductive Effect :=
| Fetch (time : Z)
| Sleep (ms : Q).

Definition deliver (sig : option (Signal * Z)) (s : State) : State :=
  match sig with
  | Some (sg, now) => on_signal sg now s
  | None => s
  end.

(** The assignments after [fetch] resolves: response time, last check,
    and the reset of the circuit breaker. *)
Definition on_response (a : Attempt) (s : State) : State :=
  resetCircuitBreaker
    (set_connectionStatus
       {| isOnline := isOnline (connectionStatus s);
          lastChecked := settled a;
          responseTime := Some (settled a - started a) |} s).

Definition breaker_error : ApiError :=
  createApiError server "Service temporarily unavailable" (Some 503) false None.
Definition offline_error : ApiError :=
  createApiError network "No internet connection" None true None.
Definition timeout_error : ApiError :=
  createApiError timeout "Request timed out" None true None.
Definition network_error : ApiError :=
  createApiError network "Network connection failed" None true None.
Definition unknown_error : ApiError :=
  createApiError unknown "An unexpected error occurred" None false None.

(** [makeRequest(url, options, retryCount)].  The invocation numbered
    [retryCount] meets [env retryCount].  [fuel] bounds the depth of the
    recursion; [makeRequest_total] shows that [S maxRetries] is enough.
    A request runs here from its start to its end as one step: this is
    the source for requests made one after the other.  The source awaits
    the fetch, the body and the backoff sleep, so requests in flight
    together can interleave at these points; the event loop of
    [sendChatMessage] below and [getMetrics_reset_seen_in_flight] treat
    what depends on that. *)
Fixpoint makeRequest (fuel : nat) (env : nat -> Attempt) (retryCount : nat)
    (s : State) : option (Outcome * State * list Effect) :=
  match fuel with
  | O => None
  | S fuel' =>
      let a := env retryCount in
      let s := deliver (signal a) s in
      let '(isOpen, s) := isCircuitBreakerOpen (started a) s in
      if isOpen then Some (Rejected breaker_error, s, [])
      else if negb (isOnline (connectionStatus s)) then
        Some (Rejected offline_error, s, [])
      else
        match result a with
        | Responds r =>
            let s := on_response a s in
            if ok r then
              match body r with
              | Some data => Some (Resolved data, s, [Fetch (started a)])
              | None =>
                  (* [response.json()] rejects: not an ApiError *)
                  Some (Rejected unknown_error, recordFailure (caught a) s,
                        [Fetch (started a)])
              end
            else
              let error := handleHttpError r in
              let s := recordFailure (caught a) s in
              if retryable error && (retryCount <? maxRetries)%nat then
                let delay := calculateRetryDelay (random a) retryCount in
                match makeRequest fuel' env (S retryCount) s with
                | Some (out, s', effects) =>
                    Some (out, s', Fetch (started a) :: Sleep delay :: effects)
                | None => None
                end
              else Some (Rejected error, s, [Fetch (started a)])
        | Aborts => Some (Rejected timeout_error, s, [Fetch (started a)])
        | ThrowsTypeError msg =>
            if includes msg "fetch"
            then Some (Rejected network_error, s, [Fetch (started a)])
            else Some (Rejected unknown_error, recordFailure (caught a) s,
                       [Fetch (started a)])
        | Throws =>
            Some (Rejected unknown_error, recordFailure (caught a) s,
                  [Fetch (started a)])
        end
  end.

(** A request from its first invocation. *)
Definition request (env : nat -> Attempt) (s : State)
  : option (Outcome * State * list Effect) :=
  makeRequest (S maxRetries) env 0%nat s.

(** Requests made one after the other, each awaited before the next. *)
Fixpoint requests (envs : list (nat -> Attempt)) (s : State)
  : option (list (Outcome * list Effect) * State) :=
  match envs with
  | [] => Some ([], s)
  | env :: rest =>
      match request env s with
      | Some (out, s1, effects) =>
          match requests rest s1 with
          | Some (outs, s2) => Some ((out, effects) :: outs, s2)
          | None => None
          end
      | None => None
      end
  end.

(** The fetches and the sleeps among the effects of a request. *)
Definition is_fetch (e : Effect) : bool :=
  match e with Fetch _ => true | Sleep _ => false end.

Definition fetches (effects : list Effect) : nat :=
  length (List.filter is_fetch effects).

Definition sleeps (effects : list Effect) : nat :=
  length (List.filter (fun e => negb (is_fetch e)) effects).

(** *** Scenarios *)

(** An environment in which every fetch of a request ends the same way:
    the request starts at [t0], a fetch takes 50 ms, the retries start
    1100, 3300 and 7700 ms after the first attempt (after the backoff
    sleeps of 1000, 2000 and 4000 ms), and there is no jitter and no
    connection event. *)
Definition steady (t0 : Z) (res : FetchResult) : nat -> Attempt :=
  fun i =>
    {| signal := None;
       started := t0 + 1100 * (2 ^ Z.of_nat i - 1);
       settled := t0 + 1100 * (2 ^ Z.of_nat i - 1) + 50;
       caught := t0 + 1100 * (2 ^ Z.of_nat i - 1) + 50;
       random := 0;
       result := res |}.

Definition http (code : Z) : FetchResult :=
  Responds {| status := code; statusText := ""; retry_after_header := None;
              body := None |}.

(** What a caller sees of a request: the class of the error (if any) and
    the number of fetches made. *)
Definition error_type (o : Outcome) : option ErrorType :=
  match o with
  | Resolved _ => None
  | Rejected e => Some (type e)
  end.

Definition summary (res : Outcome * list Effect) : option ErrorType * nat * nat :=
  (error_type (fst res), fetches (snd res), sleeps (snd res)).

Definition observe (res : option (Outcome * State * list Effect))
  : option (option ErrorType * nat * nat) :=
  match res with
  | Some (out, _, effects) => Some (summary (out, effects))
  | None => None
  end.

(** Five requests in a row that fail the same way, one started every
    10 s from a service constructed online at time 0, and the state they
    leave. *)
Definition five_failures (res : FetchResult)
  : option (list (Outcome * list Effect) * State) :=
  requests (map (fun k => steady (10000 * k) res) [1; 2; 3; 4; 5]) (initial true 0).

Definition state_after (run : option (list (Outcome * list Effect) * State)) : State :=
  match run with
  | Some (_, s) => s
  | None => initial true 0
  end.

(** *** Request deduplication *)

(** [getRequestKey(url, options)]: the template literal
    [`${url}_${JSON.stringify(options.body || {})}`]; an absent or empty
    body gives the text of the empty object. *)
Definition getRequestKey (url : string) (body : option string) : string :=
  url +:+ "_" +:+
  match body with
  | Some (String c b) => JSON_stringify_string (String c b)
  | _ => "{}"
  end.

(** The key [sendChatMessage] computes for a request. *)
Definition requestKey (request : ChatRequest) : string :=
  getRequestKey (baseUrl +:+ "/chat") (Some (JSON_stringify_request request)).

(** [sendChatMessage] is asynchronous: it runs until it awaits, other code
    runs, and it resumes when the awaited promise has settled.  The world
    below holds, beside the state of the service, the promises made by
    [makeRequest] (numbered in order of creation, each with the key it was
    made for and its outcome once settled) and the invocations of
    [sendChatMessage] (numbered by their callers): which promise each one
    awaits, whether it made that promise, and what it returned. *)
Inductive Progress :=
| Waiting
| Returned (o : Outcome).

Record Invocation := mkInvocation {
  awaited : nat;
  owner : bool;
  progress : Progress
}.

Record World := mkWorld {
  service : State;
  promises : list (string * option Outcome);
  invocations : gmap nat Invocation
}.

(** The steps of the event loop that touch the request queue. *)
Inductive Event :=
| Call (caller : nat) (request : ChatRequest)
    (* [sendChatMessage(request)] runs up to its suspension *)
| Settle (promise : nat) (o : Outcome)
    (* the [makeRequest] behind the promise ends *)
| Resume (caller : nat).
    (* the invocation continues after its promise settled *)

(** [sendChatMessage(request)] up to the suspension.  With the key in the
    queue the invocation returns the queued promise; otherwise it calls
    [makeRequest] (a new promise), stores the promise under the key and
    awaits it. *)
Definition call (caller : nat) (request : ChatRequest) (w : World) : option World :=
  match invocations w !! caller with
  | Some _ => None
  | None =>
      let requestKey := requestKey request in
      match requestQueue (service w) !! requestKey with
      | Some p =>
          Some {| service := service w;
                  promises := promises w;
                  invocations :=
                    <[caller := {| awaited := p; owner := false; progress := Waiting |}]>
                      (invocations w) |}
      | None =>
          let requestPromise := length (promises w) in
          Some {| service :=
                    set_requestQueue
                      (<[requestKey := requestPromise]> (requestQueue (service w)))
                      (service w);
                  promises := promises w ++ [(requestKey, None)];
                  invocations :=
                    <[caller := {| awaited := requestPromise; owner := true;
                                   progress := Waiting |}]>
                      (invocations w) |}
      end
  end.

(** A pending promise settles. *)
Definition settle (p : nat) (o : Outcome) (w : World) : option World :=
  match promises w !! p with
  | Some (key, None) =>
      Some {| service := service w;
              promises := <[p := (key, Some o)]> (promises w);
              invocations := invocations w |}
  | _ => None
  end.

(** The continuation of an invocation whose promise has settled.  The one
    that made the promise runs its [finally] block first, which deletes
    the key from the queue; then the outcome goes to the caller. *)
Definition resume (caller : nat) (w : World) : option World :=
  match invocations w !! caller with
  | Some {| awaited := p; owner := own; progress := Waiting |} =>
      match promises w !! p with
      | Some (key, Some o) =>
          Some {| service :=
                    if own
                    then set_requestQueue (delete key (requestQueue (service w)))
                           (service w)
                    else service w;
                  promises := promises w;
                  invocations :=
                    <[caller := {| awaited := p; owner := own; progress := Returned o |}]>
                      (invocations w) |}
      | _ => None
      end
  | _ => None
  end.

Definition step (e : Event) (w : World) : option World :=
  match e with
  | Call caller request => call caller request w
  | Settle p o => settle p o w
  | Resume caller => resume caller w
  end.

Fixpoint run (events : list Event) (w : World) : option World :=
  match events with
  | [] => Some w
  | e :: rest =>
      match step e w with
      | Some w' => run rest w'
      | None => None
      end
  end.

(** The world of a service on which nothing has been called yet. *)
Definition new_world (s : State) : World :=
  {| service := set_requestQueue ∅ s; promises := []; invocations := ∅ |}.

(** The calls of [makeRequest] made for a key so far. *)
Definition requests_for (key : string) (w : World) : nat :=
  length (List.filter (fun p => String.eqb (fst p) key) (promises w)).


(** *** Health check and queue reset *)

(** [clearRequestQueue()] *)
Definition clearRequestQueue (s : State) : State :=
  set_requestQueue ∅ s.



(** [clearRequestQueue()] in the world of the event loop. *)
Definition clear_world (w : World) : World :=
  {| service := clearRequestQueue (service w);
     promises := promises w;
     invocations := invocations w |}.

(** The time a request spends in its backoff sleeps. *)
Fixpoint total_sleep (effects : list Effect) : Q :=
  match effects with
  | [] => 0
  | Fetch _ :: rest => total_sleep rest
  | Sleep ms :: rest => (ms + total_sleep rest)%Q
  end.

(** Reading back one code unit written by [quote_char]: the code unit and
    the rest of the text, or [None] at the closing quote or at the end. *)
Definition hex_value (c : ascii) : nat :=
  let n := nat_of_ascii c in
  if (n <? 58)%nat then (n - 48)%nat else (n - 87)%nat.

Definition unquote_head (s : string) : option (ascii * string) :=
  match s with
  | EmptyString => None
  | String c rest =>
      if (nat_of_ascii c =? 34)%nat then None
      else if (nat_of_ascii c =? 92)%nat then
        match rest with
        | String e rest' =>
            let n := nat_of_ascii e in
            if (n =? 34)%nat then Some (e, rest')
            else if (n =? 92)%nat then Some (e, rest')
            else if (n =? 98)%nat then Some (ascii_of_nat 8, rest')
            else if (n =? 116)%nat then Some (ascii_of_nat 9, rest')
            else if (n =? 110)%nat then Some (ascii_of_nat 10, rest')
            else if (n =? 102)%nat then Some (ascii_of_nat 12, rest')
            else if (n =? 114)%nat then Some (ascii_of_nat 13, rest')
            else
              match rest' with
              | String _ (String _ (String h1 (String h2 rest''))) =>
                  Some (ascii_of_nat (16 * hex_value h1 + hex_value h2), rest'')
              | _ => None
              end
        | EmptyString => None
        end
      else Some (c, rest)
  end.

End ApiService.

(* ===================================================================== *)
(** ** The address of the client *)
(* ===================================================================== *)

Module ClientAddress.

(** A header value is a byte string: [headers.get] returns one character
    per byte.  The white space of JavaScript among these characters is
    the ASCII white space and the no-break space U+00A0. *)
Definition is_white (c : ascii) : bool :=
  ApiService.is_space c || (nat_of_ascii c =? 160)%nat.

(** [s.trim()]: white space is removed at both ends. *)
Fixpoint trimStart (s : string) : string :=
  match s with
  | String c rest => if is_white c then trimStart rest else s
  | EmptyString => s
  end.

Fixpoint trimEnd (s : string) : string :=
  match s with
  | EmptyString => EmptyString
  | String c rest =>
      match trimEnd rest with
      | EmptyString => if is_white c then EmptyString
                       else String c EmptyString
      | kept => String c kept
      end
  end.

Definition trim (s : string) : string := trimEnd (trimStart s).

(** [s.split(',')[0]]: the text before the first comma. *)
Fixpoint first_of_list (s : string) : string :=
  match s with
  | EmptyString => EmptyString
  | String c rest =>
      if (nat_of_ascii c =? 44)%nat then EmptyString
      else String c (first_of_list rest)
  end.

(** [getClientIP(request)]; the arguments are what [headers.get] returns
    for [x-forwarded-for] and [x-real-ip] ([None] for [null]).  An empty
    header is falsy. *)
Definition getClientIP (forwarded realIP : option string) : string :=
  match forwarded with
  | Some (String c f) => trim (first_of_list (String c f))
  | _ =>
      match realIP with
      | Some (String c r) => String c r
      | _ => "127.0.0.1"
      end
  end.

End ClientAddress.

(* ===================================================================== *)
(** ** The API service of [utils/apiService.ts] *)
(* ===================================================================== *)

Module UtilsApiService.

(** A JavaScript number: a finite value (every double is a rational), an
    infinity, or [NaN]. *)
Inductive Number :=
| Finite (q : Q)
| Infinity
| MinusInfinity
| NaN.

(** [interface ApiServiceOptions].  [maxRetries] is any number, since the
    comparisons of the loop depend on it; the two durations are whole
    numbers of milliseconds. *)
Record ApiServiceOptions := mkOptions {
  opt_maxRetries : option Number;
  opt_timeout : option Z;
  opt_retryDelay : option Z
}.

(** The fields of the class. *)
Record ApiService := mkService {
  maxRetries : Number;
  timeout : Z;
  retryDelay : Z
}.

(** [o || d] on a number that may be undefined: 0 and [NaN] are falsy. *)
Definition number_or_default (o : option Number) (d : Number) : Number :=
  match o with
  | Some (Finite q) => if Qeq_bool q 0 then d else Finite q
  | Some NaN => d
  | Some n => n
  | None => d
  end.

Definition or_default (o : option Z) (d : Z) : Z :=
  match o with
  | Some 0 => d
  | Some z => z
  | None => d
  end.

(** [constructor(options = {})] *)
Definition new (options : ApiServiceOptions) : ApiService :=
  {| maxRetries := number_or_default (opt_maxRetries options) (Finite 3);
     timeout := or_default (opt_timeout options) 30000;
     retryDelay := or_default (opt_retryDelay options) 1000 |}.

(** [export const apiService = new ApiService()] *)
Definition apiService : ApiService := new (mkOptions None None None).

(** [attempt <= m], [attempt === m] and [attempt < m] for the counter of
    the loop and a number. *)
Definition attempt_le (attempt : nat) (m : Number) : bool :=
  match m with
  | Finite q => Qle_bool (inject_Z (Z.of_nat attempt)) q
  | Infinity => true
  | MinusInfinity => false
  | NaN => false
  end.

Definition attempt_eq (attempt : nat) (m : Number) : bool :=
  match m with
  | Finite q => Qeq_bool (inject_Z (Z.of_nat attempt)) q
  | _ => false
  end.

Definition attempt_lt (attempt : nat) (m : Number) : bool :=
  match m with
  | Finite q =>
      Qle_bool (inject_Z (Z.of_nat attempt)) q
      && negb (Qeq_bool (inject_Z (Z.of_nat attempt)) q)
  | Infinity => true
  | MinusInfinity => false
  | NaN => false
  end.

(** [interface ChatResponse] *)
Record ChatResponse := mkChatResponse {
  response : string;
  error : option string
}.

(** The body of a response: what [response.json()] yields, or the message
    of the error with which it rejects.  A body that parses is read at
    the type the source gives it ([ChatResponse]; for an error body only
    [error] matters), except the JSON [null], on which reading a property
    throws: [complaint] is the message of that [TypeError]. *)
Inductive Body :=
| Parsed (data : ChatResponse)
| ParsedNull (complaint : string)
| Unparseable (message : string).

Record Response := mkResponse {
  status : Z;
  body : Body
}.

Definition ok (r : Response) : bool :=
  (200 <=? status r) && (status r <=? 299).

(** What [fetchWithTimeout] throws: the abort of the timeout, or another
    error with its message. *)
Inductive Thrown :=
| AbortError
| Failure (message : string).

Inductive FetchOutcome :=
| Responds (r : Response)
| Rejects (e : Thrown).

Inductive Effect :=
| Fetch
| Delay (ms : Z).

(** What the promise of [sendChatMessage] resolves with: an object, or
    [null] when the body of the answer is [null]. *)
Inductive Result :=
| Object (data : ChatResponse)
| Null.

Definition timed_out : ChatResponse :=
  {| response := ""; error := Some "Request timed out. Please try again." |}.

(** The object returned after the loop ("All retries failed"). *)
Definition all_retries_failed (lastError : option string) : ChatResponse :=
  {| response := "";
     error :=
       Some match lastError with
            | Some message =>
                if ApiService.includes message "fetch"
                then "Unable to connect to the server. Please check your internet connection and try again."
                else ApiService.or_else (Some message)
                       "An unexpected error occurred. Please try again."
            | None => "An unexpected error occurred. Please try again."
            end |}.

(** The [for] loop of [sendChatMessage] from [attempt] on; [env attempt]
    is how the fetch of that attempt goes.  [fuel] bounds the number of
    iterations that are followed: with [maxRetries] infinite the loop
    need not end, and [None] says that it has not ended yet.  (The
    delays are exact; the source's are doubles.) *)
Fixpoint attempts (fuel : nat) (svc : ApiService) (env : nat -> FetchOutcome)
    (attempt : nat) (lastError : option string)
  : option (Result * list Effect) :=
  if attempt_le attempt (maxRetries svc) then
    match fuel with
    | O => None
    | S fuel' =>
        let caught (e : Thrown) :=
          match e with
          | AbortError => Some (Object timed_out, [Fetch])
          | Failure message =>
              if attempt_eq attempt (maxRetries svc)
              then Some (Object (all_retries_failed (Some message)), [Fetch])
              else
                let waits :=
                  if attempt_lt attempt (maxRetries svc)
                  then [Delay (retryDelay svc * 2 ^ Z.of_nat attempt)]
                  else [] in
                match attempts fuel' svc env (S attempt) (Some message) with
                | Some (res, effects) =>
                    Some (res, (Fetch :: waits ++ effects)%list)
                | None => None
                end
          end in
        match env attempt with
        | Responds r =>
            if negb (ok r) && (status r >=? 500) then
              caught (Failure ("Server error: " +:+ pretty (status r)))
            else if negb (ok r) && (status r >=? 400) then
              let reported (errorData : option string) :=
                Some (Object
                        {| response := "";
                           error := Some (ApiService.or_else errorData
                                            ("Request failed with status "
                                               +:+ pretty (status r))) |},
                      [Fetch]) in
              match body r with
              | Parsed data => reported (error data)
              | ParsedNull complaint => caught (Failure complaint)
              | Unparseable _ => reported None
              end
            else
              match body r with
              | Parsed data => Some (Object data, [Fetch])
              | ParsedNull _ => Some (Null, [Fetch])
              | Unparseable message => caught (Failure message)
              end
        | Rejects e => caught e
        end
    end
  else Some (Object (all_retries_failed lastError), []).

(** [sendChatMessage(request)] *)
Definition sendChatMessage (fuel : nat) (svc : ApiService)
    (env : nat -> FetchOutcome) : option (Result * list Effect) :=
  attempts fuel svc env 0%nat None.

(** What happened at an attempt: a failure that the loop retries, with
    its message, or something that ends the loop. *)
Definition retried (o : FetchOutcome) : option string :=
  match o with
  | Responds r =>
      if negb (ok r) && (status r >=? 500)
      then Some ("Server error: " +:+ pretty (status r))
      else if negb (ok r) && (status r >=? 400) then
        match body r with
        | ParsedNull complaint => Some complaint
        | _ => None
        end
      else match body r with
           | Parsed _ => None
           | ParsedNull _ => None
           | Unparseable message => Some message
           end
  | Rejects AbortError => None
  | Rejects (Failure message) => Some message
  end.

Definition fetches (effects : list Effect) : nat :=
  length (List.filter (fun e => match e with Fetch => true | Delay _ => false end)
                      effects).

Definition delays (effects : list Effect) : list Z :=
  omap (fun e => match e with Fetch => None | Delay ms => Some ms end) effects.

(** The delays before the attempts [from + 1], ..., [from + n]. *)
Fixpoint backoff (svc : ApiService) (from n : nat) : list Z :=
  match n with
  | O => []
  | S n' => retryDelay svc * 2 ^ Z.of_nat from :: backoff svc (S from) n'
  end.

(** The number of attempts a loop bounded by [m] can make. *)
Definition attempts_allowed (m : Number) : nat :=
  match m with
  | Finite q => Z.to_nat (Qfloor q + 1)
  | _ => 0%nat
  end.

End UtilsApiService.

(* ===================================================================== *)
(** ** The chat route ([POST /api/chat]) *)
(* ===================================================================== *)

Module ChatRoute.

Import RateLimiter.

(** The properties destructured from the body of the request; an absent
    property is [None]. *)
Record ChatBody := mkChatBody {
  message : option string;
  personality : option string;
  gender : option string;
  language : option string;
  history : list string
}.

(** What the handler meets: the two address headers, the parsed body
    ([None]: [request.json()] rejects or the destructuring throws), the
    clock at its four readings (inside [checkRateLimit], for the
    [retryAfter] of the body, for the [Retry-After] header and for the
    default of [X-RateLimit-Reset]), the text of the model for the full
    prompt and for the simplified prompt ([None]: the call throws), and
    the value of [Math.random()]. *)
Record Environment := mkEnvironment {
  forwarded : option string;
  realIP : option string;
  parsed : option ChatBody;
  now_check : Z;
  now_body : Z;
  now_header : Z;
  now_reset : Z;
  primary : option string;
  simplified : option string;
  random : Q
}.

(** A reply: status, the properties of the JSON body and the headers set
    by the handler.  [X-RateLimit-Reset] is kept as the instant in
    milliseconds that [toISOString] prints. *)
Record Reply := mkReply {
  status : Z;
  error : option string;
  retryAfter : option Z;
  response : option string;
  fallback : option string;
  retry_after : option string;
  limit : option string;
  remaining_header : option string;
  reset : option Z
}.

(** [Math.ceil(ms / 1000)] *)
Definition ceil_seconds (ms : Z) : Z := - ((- ms) / 1000).

(** [n || d] on a number that may be undefined: 0 is falsy. *)
Definition number_or (n : option Z) (d : Z) : Z :=
  match n with
  | Some 0 => d
  | Some z => z
  | None => d
  end.

Definition friendly : list string :=
  [ "I'm having some technical difficulties right now, but I'm here to chat! Could you tell me more about what's on your mind?";
    "Sorry for the delay! I'd love to hear more about your day. What's been interesting lately?";
    "I'm experiencing some connection issues, but I'm still here! What would you like to talk about?" ].

(** The table of the second fallback (the texts in UTF-8). *)
Definition genericResponses : list (string * list string) :=
  [ ("friendly", friendly);
    ("professional",
     [ "I apologize for the technical interruption. How may I assist you today?";
       "I'm currently experiencing some system delays. Please let me know how I can help you.";
       "Thank you for your patience. What topic would you like to discuss?" ]);
    ("creative",
     [ "Oops! My creative circuits are having a moment! ✨ But I'm still here - what sparks your imagination today?";
       "My inspiration engine is rebooting! 🎨 While it does, what creative ideas are you exploring?";
       "Technical hiccup in my creative flow! 🌟 But tell me, what's inspiring you lately?" ]);
    ("wise",
     [ "Even in moments of technical difficulty, there are lessons to be learned. What wisdom are you seeking today?";
       "Patience is a virtue, especially with technology. What thoughts would you like to explore together?";
       "Sometimes the best conversations happen when we slow down. What's on your mind?" ]);
    ("humorous",
     [ "Well, this is awkward! 😅 My joke database is having a coffee break. What's making you smile today?";
       "Error 404: Humor not found! 😂 Just kidding - I'm still here! What's been funny in your world?";
       "My comedy circuits are buffering! 🤖 While they load, what's been entertaining you lately?" ]) ].

(** The names every object literal inherits from [Object.prototype]:
    looking one of them up in the table yields a function or an object,
    which is truthy and has no element at any index. *)
Definition inherited : list string :=
  [ "constructor"; "toString"; "toLocaleString"; "valueOf";
    "hasOwnProperty"; "isPrototypeOf"; "propertyIsEnumerable"; "__proto__";
    "__defineGetter__"; "__defineSetter__"; "__lookupGetter__";
    "__lookupSetter__" ].

Fixpoint lookup_own (key : string) (table : list (string * list string))
  : option (list string) :=
  match table with
  | [] => None
  | (k, v) :: rest => if String.eqb key k then Some v else lookup_own key rest
  end.

(** [responses[Math.floor(Math.random() * responses.length)]] *)
Definition pick (random : Q) (responses : list string) : option string :=
  let i := Qfloor (random * inject_Z (Z.of_nat (length responses))) in
  if i <? 0 then None else nth_error responses (Z.to_nat i).

(** The text of the second fallback ([None]: [undefined]).  An undefined
    personality is looked up under the name [undefined]. *)
Definition generic_response (personality : option string) (random : Q)
  : option string :=
  let key := match personality with Some p => p | None => "undefined" end in
  match lookup_own key genericResponses with
  | Some responses => pick random responses
  | None =>
      if existsb (String.eqb key) inherited then None
      else pick random friendly
  end.

Definition answer (text : option string) (fallback : option string)
    (r : CheckResult) (env : Environment) : Reply :=
  {| status := 200;
     error := None;
     retryAfter := None;
     response := text;
     fallback := fallback;
     retry_after := None;
     limit := Some (pretty (perMinute RATE_LIMITS_chat));
     remaining_header := Some (pretty (number_or (remaining r) 0));
     reset := Some (number_or (res_resetTime r) (now_reset env + 60000)) |}.

Definition refusal (code : Z) (text : string) : Reply :=
  {| status := code; error := Some text; retryAfter := None;
     response := None; fallback := None; retry_after := None;
     limit := None; remaining_header := None; reset := None |}.

(** The reply to a request over the limit.  [resetTime!] is always set by
    [checkRateLimit]; were it undefined the two quotients would be [NaN]. *)
Definition too_many (r : CheckResult) (env : Environment) : Reply :=
  {| status := 429;
     error :=
       Some (ApiService.or_else (RateLimiter.error r)
               "Rate limit exceeded. Please wait before sending another message.");
     retryAfter :=
       match res_resetTime r with
       | Some resetTime => Some (ceil_seconds (resetTime - now_body env))
       | None => None
       end;
     response := None;
     fallback := None;
     retry_after :=
       Some match res_resetTime r with
            | Some resetTime => pretty (ceil_seconds (resetTime - now_header env))
            | None => "NaN"
            end;
     limit := Some (pretty (perMinute RATE_LIMITS_chat));
     remaining_header := Some "0";
     reset := Some (number_or (res_resetTime r) (now_reset env + 60000)) |}.

(** [POST(request)], with the store of the global rate limiter.  The
    readings of the clock are times that [Date] can represent, so that
    [toISOString] does not throw; the two model calls are then the only
    steps of the inner blocks that can throw, and the third fallback is
    never reached. *)
Definition POST (env : Environment) (store : Store) : Reply * Store :=
  match parsed env with
  | None => (refusal 400 "Invalid request format", store)
  | Some body =>
      let clientIP := ClientAddress.getClientIP (forwarded env) (realIP env) in
      let '(rateLimitResult, store) :=
        checkRateLimit clientIP "chat" RATE_LIMITS_chat (now_check env) store in
      if negb (allowed rateLimitResult) then
        (too_many rateLimitResult env, store)
      else
        match message body with
        | Some (String c m) =>
            match primary env with
            | Some text => (answer (Some text) None rateLimitResult env, store)
            | None =>
                match simplified env with
                | Some fallbackText =>
                    (answer (Some fallbackText) (Some "simplified_prompt")
                       rateLimitResult env, store)
                | None =>
                    (answer (generic_response (personality body) (random env))
                       (Some "generic_response") rateLimitResult env, store)
                end
            end
        | _ => (refusal 400 "Message is required", store)
        end
  end.

(** What [fetch] hands to the client for a reply: the status, the
    [Retry-After] header and the JSON body. *)
Definition received (statusText : string) (reply : Reply) : ApiService.Response :=
  {| ApiService.status := status reply;
     ApiService.statusText := statusText;
     ApiService.retry_after_header := retry_after reply;
     ApiService.body :=
       Some {| ApiService.json_error := error reply;
               ApiService.json_message := None;
               ApiService.json_response := response reply;
               ApiService.json_fallback := fallback reply |} |}.

(** Requests handled one after the other. *)
Fixpoint serve (envs : list Environment) (store : Store) : list Reply * Store :=
  match envs with
  | [] => ([], store)
  | env :: rest =>
      let '(reply, store) := POST env store in
      let '(replies, store) := serve rest store in
      (reply :: replies, store)
  end.

End ChatRoute.

(* ===================================================================== *)
(** ** The hook [useApiCall] *)
(* ===================================================================== *)

Module UseApiCall.

Import ApiService.

(** [interface ApiCallState] *)
Record ApiCallState := mkApiCallState {
  isLoading : bool;
  error : option ApiError;
  retryCount : Z;
  isRetrying : bool
}.

(** The two pieces of state of the hook. *)
Record Hook := mkHook {
  state : ApiCallState;
  lastRequest : option ChatRequest
}.

Definition initial : Hook :=
  {| state := {| isLoading := false; error := None; retryCount := 0;
                 isRetrying := false |};
     lastRequest := None |}.

(** What a call of the hook does to the outside. *)
Inductive Effect :=
| Wait (ms : Z)
| Send (request : ChatRequest).

(** [clearError()] *)
Definition clearError (h : Hook) : Hook :=
  {| state := {| isLoading := isLoading (state h); error := None;
                 retryCount := retryCount (state h);
                 isRetrying := isRetrying (state h) |};
     lastRequest := lastRequest h |}.

(** [sendMessage(request)]; [outcome] is how the promise of
    [apiService.sendChatMessage] settles. *)
Definition sendMessage (request : ChatRequest) (outcome : Outcome) (h : Hook)
  : option Json * Hook :=
  match outcome with
  | Resolved response =>
      (Some response,
       {| state := {| isLoading := false; error := None; retryCount := 0;
                      isRetrying := false |};
          lastRequest := Some request |})
  | Rejected apiError =>
      (None,
       {| state := {| isLoading := false; error := Some apiError;
                      retryCount := 0 + 1; isRetrying := false |};
          lastRequest := Some request |})
  end.

(** A number that may be undefined or [NaN], as a condition. *)
Definition truthy (n : option JsNumber) : option Z :=
  match n with
  | Some (Num 0) => None
  | Some (Num z) => Some z
  | _ => None
  end.

(** [retry()] *)
Definition retry (outcome : Outcome) (h : Hook)
  : option Json * Hook * list Effect :=
  match lastRequest h, error (state h) with
  | Some request, Some e =>
      if retryable e then
        let waits :=
          match type e, truthy (retryAfter e) with
          | rate_limit, Some ms => [Wait ms]
          | _, _ => []
          end in
        match outcome with
        | Resolved response =>
            (Some response,
             {| state := {| isLoading := isLoading (state h); error := None;
                            retryCount := retryCount (state h);
                            isRetrying := false |};
                lastRequest := lastRequest h |},
             (waits ++ [Send request])%list)
        | Rejected apiError =>
            (None,
             {| state := {| isLoading := isLoading (state h);
                            error := Some apiError;
                            retryCount := retryCount (state h) + 1;
                            isRetrying := false |};
                lastRequest := lastRequest h |},
             (waits ++ [Send request])%list)
        end
      else (None, h, [])
  | _, _ => (None, h, [])
  end.

(** [getErrorMessage()] *)
Definition getErrorMessage (h : Hook) : string :=
  match error (state h) with
  | None => ""
  | Some e =>
      let baseMessage := message e in
      match type e with
      | network => baseMessage +:+ " Please check your internet connection."
      | timeout => baseMessage +:+ " The request is taking longer than expected."
      | rate_limit =>
          let waitTime :=
            match truthy (retryAfter e) with
            | Some ms => ChatRoute.ceil_seconds ms
            | None => 60
            end in
          baseMessage +:+ " Please wait " +:+ pretty waitTime
            +:+ " seconds before trying again."
      | server =>
          baseMessage +:+ " Our servers are experiencing issues. Please try again."
      | auth =>
          baseMessage +:+ " There's an authentication issue. Please refresh the page."
      | client => baseMessage +:+ " Please check your input and try again."
      | unknown => baseMessage
      end
  end.

(** [canRetry()] *)
Definition canRetry (h : Hook) : bool :=
  match error (state h), lastRequest h with
  | Some e, Some _ => retryable e && (retryCount (state h) <? 3)
  | _, _ => false
  end.

(** Failed retries one after the other, each rejected with the next
    error of the list. *)
Fixpoint retries (errors : list ApiError) (h : Hook) : Hook * list Effect :=
  match errors with
  | [] => (h, [])
  | e :: rest =>
      let '(_, h1, effects) := retry (Rejected e) h in
      let '(h2, effects') := retries rest h1 in
      (h2, (effects ++ effects')%list)
  end.

End UseApiCall.

(* ===================================================================== *)
(** ** The chat component *)
(* ===================================================================== *)

Module ChatInterface.

Inductive Sender := user | ai.

(** [interface Message]; an absent [isError] is [false]. *)
Record Message := mkMessage {
  id : string;
  text : string;
  sender : Sender;
  timestamp : Z;
  isError : bool;
  fallbackType : option string
}.

(** The properties of the avatar that [sendMessage] reads. *)
Record Avatar := mkAvatar {
  name : string;
  gender : string;
  personality : string
}.

(** The state [sendMessage] reads and writes.  [isTyping] is left to its
    timer. *)
Record Chat := mkChat {
  messages : list Message;
  inputText : string;
  isLoading : bool;
  conversationHistory : list string
}.

(** The argument of [apiService.sendChatMessage]. *)
Record Sent := mkSent {
  sent_message : string;
  sent_personality : string;
  sent_gender : string;
  sent_language : string;
  sent_history : list string
}.

(** How the awaited call ends.  When it returns [null], reading
    [data.response] throws a [TypeError]: [complaint] is its message. *)
Inductive ServiceResult :=
| Returns (data : UtilsApiService.ChatResponse)
| ReturnsNull (complaint : string)
| ThrowsError (message : string)
| ThrowsOther.

(** The readings of the clock: for the identifier and the time stamp of
    the message of the user, and for those of the answer. *)
Record Clock := mkClock {
  asked_id : Z;
  asked_at : Z;
  answered_id : Z;
  answered_at : Z
}.

(** The text after its leading white space, for a text in UTF-8: the
    ASCII white space, U+00A0, U+1680, U+2000 to U+200A, U+2028, U+2029,
    U+202F, U+205F, U+3000 and U+FEFF. *)
Definition white1 (a : ascii) : bool :=
  let n := nat_of_ascii a in
  (n =? 32)%nat || ((9 <=? n)%nat && (n <=? 13)%nat).

Definition white2 (a b : ascii) : bool :=
  (nat_of_ascii a =? 194)%nat && (nat_of_ascii b =? 160)%nat.

Definition white3 (a b c : ascii) : bool :=
  let '(x, y, z) := (nat_of_ascii a, nat_of_ascii b, nat_of_ascii c) in
  ((x =? 225) && (y =? 154) && (z =? 128))%nat
  || ((x =? 226) && (y =? 128)
      && ((128 <=? z) && (z <=? 138) || (z =? 168) || (z =? 169) || (z =? 175)))%nat
  || ((x =? 226) && (y =? 129) && (z =? 159))%nat
  || ((x =? 227) && (y =? 128) && (z =? 128))%nat
  || ((x =? 239) && (y =? 187) && (z =? 191))%nat.

Fixpoint trimStart (s : string) : string :=
  match s with
  | EmptyString => s
  | String a rest =>
      if white1 a then trimStart rest
      else
        match rest with
        | String b rest' =>
            if white2 a b then trimStart rest'
            else
              match rest' with
              | String c rest'' =>
                  if white3 a b c then trimStart rest'' else s
              | EmptyString => s
              end
        | EmptyString => s
        end
  end.

(** [!text.trim()]: nothing but white space. *)
Definition blank (text : string) : bool :=
  match trimStart text with
  | EmptyString => true
  | String _ _ => false
  end.

(** [history.slice(-6)] *)
Definition last_six (history : list string) : list string :=
  skipn (length history - 6) history.

(** [sendMessage()]: the new state and the request made, if any. *)
Definition sendMessage (avatar : Avatar) (clock : Clock)
    (service : Sent -> ServiceResult) (c : Chat) : Chat * option Sent :=
  if blank (inputText c) then (c, None)
  else
      let userMessage :=
        {| id := pretty (asked_id clock); text := inputText c; sender := user;
           timestamp := asked_at clock; isError := false;
           fallbackType := None |} in
      let history := (conversationHistory c ++ ["User: " +:+ inputText c])%list in
      let request :=
        {| sent_message := inputText c;
           sent_personality := personality avatar;
           sent_gender := gender avatar;
           sent_language := "auto";
           sent_history := last_six history |} in
      match service request with
      | Returns data =>
          let aiMessage :=
            {| id := pretty (answered_id clock + 1);
               text := UtilsApiService.response data; sender := ai;
               timestamp := answered_at clock; isError := false;
               fallbackType := None |} in
          ({| messages := (messages c ++ [userMessage] ++ [aiMessage])%list;
              inputText := "";
              isLoading := false;
              conversationHistory :=
                (history ++ ["AI: " +:+ UtilsApiService.response data])%list |},
           Some request)
      | thrown =>
          let '(errorText, fallbackType) :=
            match thrown with
            | ReturnsNull message | ThrowsError message =>
                if ApiService.includes message "Network" then
                  ("I can't connect to my servers right now. Please check your internet connection and try again.",
                   "network_error")
                else if ApiService.includes message "timeout" then
                  ("The response is taking too long. Please try again with a shorter message.",
                   "timeout_error")
                else if ApiService.includes message "rate limit" then
                  ("I'm receiving too many requests right now. Please wait a moment and try again.",
                   "rate_limit_error")
                else
                  ("I'm sorry, I'm having trouble responding right now. Please try again in a moment.",
                   "connection_error")
            | _ =>
                ("I'm sorry, I'm having trouble responding right now. Please try again in a moment.",
                 "connection_error")
            end in
          let errorMessage :=
            {| id := pretty (answered_id clock + 1); text := errorText;
               sender := ai; timestamp := answered_at clock; isError := true;
               fallbackType := Some fallbackType |} in
          ({| messages := (messages c ++ [userMessage] ++ [errorMessage])%list;
              inputText := "";
              isLoading := false;
              conversationHistory := history |},
           Some request)
      end.


End ChatInterface.

(* ===================================================================== *)
(** ** Properties of the rate limiter *)
(* ===================================================================== *)

Section RateLimiterProperties.
Import RateLimiter.

Implicit Types (ip endpoint key : string) (config : RateLimitConfig).
Implicit Types (now : Z) (store : gmap string RateLimitEntry).
Implicit Types (entry : RateLimitEntry).

Lemma geb_true (a b : Z) : (a >=? b) = true <-> b <= a.
Proof. rewrite Z.geb_leb. apply Z.leb_le. Qed.

Lemma geb_false (a b : Z) : (a >=? b) = false <-> a < b.
Proof. rewrite Z.geb_leb. apply Z.leb_gt. Qed.

(** The fields of the entry after the two window resets. *)
Lemma reset_window_spec now entry :
  (resetTime entry <= now ->
     reset_window now entry =
       mkEntry 0 (now + 60000) (burstCount entry) (burstResetTime entry))
  /\ (now < resetTime entry -> reset_window now entry = entry).
Proof.
  unfold reset_window. split; intros H.
  - apply geb_true in H. now rewrite H.
  - apply geb_false in H. now rewrite H.
Qed.

Lemma reset_burst_spec config now entry :
  (burstResetTime entry <= now ->
     reset_burst config now entry =
       mkEntry (count entry) (resetTime entry) 0 (now + burstWindow config))
  /\ (now < burstResetTime entry -> reset_burst config now entry = entry).
Proof.
  unfold reset_burst. split; intros H.
  - apply geb_true in H. now rewrite H.
  - apply geb_false in H. now rewrite H.
Qed.

(** An entry whose two windows have ended is reset to the fresh entry. *)
Lemma current_entry_lapsed config now entry :
  resetTime entry <= now -> burstResetTime entry <= now ->
  current_entry config now (Some entry) = current_entry config now None.
Proof.
  intros Hw Hb.
  unfold current_entry, fresh_entry, reset_window, reset_burst.
  assert ((now >=? resetTime entry) = true) as -> by (apply geb_true; lia).
  assert ((now >=? now + 60 * 1000) = false) as Hf by (apply geb_false; lia).
  assert ((now >=? burstResetTime entry) = true) as Ht by (apply geb_true; lia).
  cbn [count resetTime burstCount burstResetTime]. rewrite Hf, Ht.
  cbn [count resetTime burstCount burstResetTime].
  destruct (now >=? now + burstWindow config); reflexivity.
Qed.

Lemma current_entry_expired config now entry :
  expired now entry = true ->
  current_entry config now (Some entry) = current_entry config now None.
Proof.
  unfold expired. rewrite andb_true_iff, !Z.ltb_lt. intros [Hw Hb].
  apply current_entry_lapsed; lia.
Qed.

(** The check touches the entry of its own key only. *)
Lemma checkRateLimit_other_keys ip endpoint config now store key :
  key <> getKey ip endpoint ->
  snd (checkRateLimit ip endpoint config now store) !! key = store !! key.
Proof.
  intros Hne. unfold checkRateLimit.
  repeat case_match; simpl; by rewrite lookup_insert_ne.
Qed.

(** The check depends on the store through the entry of its key only. *)
Lemma checkRateLimit_result_local ip endpoint config now store1 store2 :
  current_entry config now (store1 !! getKey ip endpoint)
  = current_entry config now (store2 !! getKey ip endpoint) ->
  fst (checkRateLimit ip endpoint config now store1)
  = fst (checkRateLimit ip endpoint config now store2)
  /\ snd (checkRateLimit ip endpoint config now store1) !! getKey ip endpoint
     = snd (checkRateLimit ip endpoint config now store2) !! getKey ip endpoint.
Proof.
  intros H. unfold checkRateLimit. rewrite H.
  repeat case_match; simpl; by rewrite !lookup_insert_eq.
Qed.

(** C4.  The admission algorithm of [checkRateLimit].  Let [entry] be the
    entry of the key after the lazy creation and the two window resets.
    When [burstCount >= burstLimit] the check rejects with the burst
    message, [resetTime = burstResetTime] and [remaining = 0], whatever
    the per-minute count; otherwise, when [count >= perMinute], it rejects
    with the sustained message and [resetTime] of the window; otherwise it
    admits, stores the entry with both counters incremented and returns
    [remaining = perMinute - count] (the incremented count) and the
    window's [resetTime].  No other key of the store changes. *)
Theorem checkRateLimit_admission ip endpoint config now store :
  let key := getKey ip endpoint in
  let entry :=
    reset_burst config now
      (reset_window now (default (fresh_entry config now) (store !! key))) in
  let r := fst (checkRateLimit ip endpoint config now store) in
  let store' := snd (checkRateLimit ip endpoint config now store) in
  (burstLimit config <= burstCount entry ->
     allowed r = false /\ error r = Some burst_message /\
     res_resetTime r = Some (burstResetTime entry) /\ remaining r = Some 0 /\
     store' !! key = Some entry)
  /\ (burstCount entry < burstLimit config -> perMinute config <= count entry ->
     allowed r = false /\ error r = Some sustained_message /\
     res_resetTime r = Some (resetTime entry) /\ remaining r = Some 0 /\
     store' !! key = Some entry)
  /\ (burstCount entry < burstLimit config -> count entry < perMinute config ->
     allowed r = true /\ error r = None /\
     res_resetTime r = Some (resetTime entry) /\
     remaining r = Some (perMinute config - (count entry + 1)) /\
     store' !! key =
       Some (mkEntry (count entry + 1) (resetTime entry)
                     (burstCount entry + 1) (burstResetTime entry)))
  /\ (forall k, k <> key -> store' !! k = store !! k).
Proof.
  intros key entry r store'.
  assert (Hentry : current_entry config now (store !! key) = entry).
  { unfold current_entry, entry. by destruct (store !! key). }
  subst r store'. unfold checkRateLimit. fold key. rewrite Hentry.
  repeat split.
  all: try (intros k Hk; repeat case_match; simpl; by rewrite lookup_insert_ne).
  all: intros; repeat case_match; simpl;
    repeat match goal with
           | H : (_ >=? _) = true |- _ => apply geb_true in H
           | H : (_ >=? _) = false |- _ => apply geb_false in H
           end;
    try lia; try reflexivity; try by rewrite lookup_insert_eq.
Qed.

(** The example of the specification: five rapid calls under the chat
    policy are admitted and the sixth, in the same ten seconds, is
    rejected for its burst although only 5 of the 30 per-minute requests
    are used. *)
Lemma checkRateLimit_admission_witness :
  let store5 := snd (checks "203.0.113.7" "chat" RATE_LIMITS_chat [0; 1; 2; 3; 4] ∅) in
  let r := fst (checkRateLimit "203.0.113.7" "chat" RATE_LIMITS_chat 5 store5) in
  (option_map count (store5 !! getKey "203.0.113.7" "chat") = Some 5
   /\ 5 < perMinute RATE_LIMITS_chat)
  /\ allowed r = false /\ error r = Some burst_message
  /\ res_resetTime r = Some 10000 /\ remaining r = Some 0.
Proof.
  split; [by vm_compute|].
  pose proof (checkRateLimit_admission "203.0.113.7" "chat" RATE_LIMITS_chat 5
    (snd (checks "203.0.113.7" "chat" RATE_LIMITS_chat [0; 1; 2; 3; 4] ∅)))
    as [Hburst _].
  assert (Hfull : burstLimit RATE_LIMITS_chat <= 5) by (by vm_compute).
  apply Hburst in Hfull as (Ha & He & Ht & Hr & _).
  split; [exact Ha|]. split; [exact He|]. split; [|exact Hr].
  rewrite Ht. by vm_compute.
Defined.

(** *** Expired entries and the sweep *)

Lemma expired_mono now now' entry :
  now <= now' -> expired now entry = true -> expired now' entry = true.
Proof.
  unfold expired. rewrite !andb_true_iff, !Z.ltb_lt. lia.
Qed.

Lemma absent_or_expired_mono now now' (found : option RateLimitEntry) :
  now <= now' -> absent_or_expired now found -> absent_or_expired now' found.
Proof.
  destruct found; simpl; [apply expired_mono | trivial].
Qed.

Lemma current_entry_absent_or_expired config now (found : option RateLimitEntry) :
  absent_or_expired now found ->
  current_entry config now found = current_entry config now None.
Proof.
  destruct found; simpl; [apply current_entry_expired | reflexivity].
Qed.

Lemma similar_refl now store : similar now store store.
Proof. intros key. by left. Qed.

Lemma similar_mono now now' store1 store2 :
  now <= now' -> similar now store1 store2 -> similar now' store1 store2.
Proof.
  intros Hle H key. destruct (H key) as [Heq | [H1 H2]]; [by left|].
  right. split; eapply absent_or_expired_mono; eauto.
Qed.

Lemma similar_trans now store1 store2 store3 :
  similar now store1 store2 -> similar now store2 store3 -> similar now store1 store3.
Proof.
  intros H12 H23 key.
  destruct (H12 key) as [E12 | [A1 A2]], (H23 key) as [E23 | [B2 B3]].
  - left. congruence.
  - right. rewrite E12. by split.
  - right. rewrite <- E23. by split.
  - right. by split.
Qed.

(** The sweep removes expired entries only. *)
Lemma cleanup_lookup now store key :
  (cleanup now store !! key = store !! key)
  \/ (cleanup now store !! key = None /\ absent_or_expired now (store !! key)).
Proof.
  unfold cleanup.
  destruct (store !! key) as [e|] eqn:He.
  - destruct (expired now e) eqn:Hx.
    + right. split; [|exact Hx].
      apply map_lookup_filter_None. right. intros e' He' Hn. simpl in Hn.
      rewrite He in He'. inversion He'; subst. congruence.
    + left. apply map_lookup_filter_Some. by split.
  - left. apply map_lookup_filter_None. by left.
Qed.

Lemma similar_cleanup now store : similar now (cleanup now store) store.
Proof.
  intros key. destruct (cleanup_lookup now store key) as [H | [H1 H2]].
  - by left.
  - right. rewrite H1. by split.
Qed.

(** A check cannot tell similar stores apart, and leaves them similar. *)
Lemma checkRateLimit_similar ip endpoint config now store1 store2 :
  similar now store1 store2 ->
  fst (checkRateLimit ip endpoint config now store1)
  = fst (checkRateLimit ip endpoint config now store2)
  /\ similar now (snd (checkRateLimit ip endpoint config now store1))
                 (snd (checkRateLimit ip endpoint config now store2)).
Proof.
  intros Hsim.
  assert (Hcur : current_entry config now (store1 !! getKey ip endpoint)
                 = current_entry config now (store2 !! getKey ip endpoint)).
  { destruct (Hsim (getKey ip endpoint)) as [-> | [H1 H2]]; [reflexivity|].
    rewrite (current_entry_absent_or_expired _ _ _ H1).
    by rewrite (current_entry_absent_or_expired _ _ _ H2). }
  destruct (checkRateLimit_result_local _ _ _ _ _ _ Hcur) as [Hr Hk].
  split; [exact Hr|].
  intros key. destruct (decide (key = getKey ip endpoint)) as [-> | Hne].
  - by left.
  - rewrite !checkRateLimit_other_keys by done. apply Hsim.
Qed.

Lemma perform_similar ops : forall from store1 store2,
  chronological from ops ->
  similar from store1 store2 ->
  fst (perform ops store1) = fst (perform (List.filter is_check ops) store2).
Proof.
  induction ops as [|op rest IH]; intros from store1 store2 Hchron Hsim;
    [reflexivity|].
  destruct Hchron as [Hle Hrest].
  destruct op as [ip endpoint config now | now]; simpl in *.
  - pose proof (checkRateLimit_similar ip endpoint config now store1 store2
                  (similar_mono _ _ _ _ Hle Hsim)) as [Hr Hs].
    destruct (checkRateLimit ip endpoint config now store1) as [r1 s1].
    destruct (checkRateLimit ip endpoint config now store2) as [r2 s2].
    simpl in Hr, Hs. subst r2.
    specialize (IH now s1 s2 Hrest Hs).
    destruct (perform rest s1), (perform (List.filter is_check rest) s2).
    simpl in *. by rewrite IH.
  - apply (IH now); [exact Hrest|].
    eapply similar_trans; [apply similar_cleanup|].
    by apply (similar_mono from).
Qed.

(** C8.  An entry whose two windows have expired behaves like no entry:
    when [resetTime] and [burstResetTime] are not after the time of the
    check (in particular when both are before it, the condition of the
    sweep), the check returns the same result and leaves the same store
    whether the entry of its key is present or has been deleted, and
    [getRemainingRequests] returns the same number.  So the sweep is not
    observable: as long as the clock does not run backwards, a sequence
    of checks and sweeps returns the results of the same sequence without
    the sweeps. *)
Theorem expired_entry_equivalence ip endpoint config now store :
  (forall entry,
     store !! getKey ip endpoint = Some entry ->
     resetTime entry <= now -> burstResetTime entry <= now ->
     checkRateLimit ip endpoint config now store
     = checkRateLimit ip endpoint config now (delete (getKey ip endpoint) store)
     /\ getRemainingRequests ip endpoint now store
        = getRemainingRequests ip endpoint now (delete (getKey ip endpoint) store))
  /\ (forall entry, expired now entry = true ->
        resetTime entry <= now /\ burstResetTime entry <= now)
  /\ (forall ops,
        chronological now ops ->
        fst (perform ops store) = fst (perform (List.filter is_check ops) store)).
Proof.
  split; [|split].
  - intros entry Hfound Hw Hb. split.
    + unfold checkRateLimit. rewrite Hfound, lookup_delete_eq.
      rewrite (current_entry_lapsed _ _ _ Hw Hb).
      repeat case_match; by rewrite insert_delete_eq.
    + unfold getRemainingRequests. rewrite Hfound, lookup_delete_eq.
      assert ((now >=? resetTime entry) = true) as -> by (apply geb_true; lia).
      reflexivity.
  - intros entry. unfold expired. rewrite andb_true_iff, !Z.ltb_lt. lia.
  - intros ops Hchron. eapply perform_similar; [exact Hchron | apply similar_refl].
Qed.

(** An entry made at time 0 under the chat policy has expired at 70000;
    with it or without it the check at 70000 does the same, and a sweep
    between two checks changes no result. *)
Lemma expired_entry_equivalence_witness :
  let store1 := snd (checkRateLimit "203.0.113.7" "chat" RATE_LIMITS_chat 0 ∅) in
  (checkRateLimit "203.0.113.7" "chat" RATE_LIMITS_chat 70000 store1
   = checkRateLimit "203.0.113.7" "chat" RATE_LIMITS_chat 70000
       (delete (getKey "203.0.113.7" "chat") store1))
  /\ fst (perform [Sweep 70000; Check "203.0.113.7" "chat" RATE_LIMITS_chat 70001] store1)
     = fst (perform [Check "203.0.113.7" "chat" RATE_LIMITS_chat 70001] store1).
Proof.
  intros store1.
  destruct (expired_entry_equivalence "203.0.113.7" "chat" RATE_LIMITS_chat 70000 store1)
    as (Hentry & _ & Hsweep).
  split.
  - refine (proj1 (Hentry (mkEntry 1 60000 1 10000) _ _ _)); by vm_compute.
  - apply (Hsweep [Sweep 70000; Check "203.0.113.7" "chat" RATE_LIMITS_chat 70001]).
    simpl. lia.
Defined.

(** C10.  [perHour] is never read: two policies that agree on
    [perMinute], [burstLimit] and [burstWindow] give the same result and
    the same store, whatever their [perHour]. *)
Theorem perHour_not_enforced ip endpoint (config1 config2 : RateLimitConfig) now store :
  perMinute config1 = perMinute config2 ->
  burstLimit config1 = burstLimit config2 ->
  burstWindow config1 = burstWindow config2 ->
  checkRateLimit ip endpoint config1 now store
  = checkRateLimit ip endpoint config2 now store.
Proof.
  intros Hm Hl Hw.
  unfold checkRateLimit, current_entry, fresh_entry, reset_burst.
  by rewrite Hm, Hl, Hw.
Qed.

(** The chat policy with one request per hour admits the 101st request of
    an hour like the chat policy itself. *)
Lemma perHour_not_enforced_witness :
  checkRateLimit "203.0.113.7" "chat" RATE_LIMITS_chat 5
    {[ getKey "203.0.113.7" "chat" := mkEntry 2 60000 2 10000 ]}
  = checkRateLimit "203.0.113.7" "chat" (mkConfig 30 1 5 10000) 5
    {[ getKey "203.0.113.7" "chat" := mkEntry 2 60000 2 10000 ]}.
Proof.
  apply (perHour_not_enforced "203.0.113.7" "chat" RATE_LIMITS_chat
           (mkConfig 30 1 5 10000)); reflexivity.
Defined.

(** C9 (the code departs from the claim).  [getRemainingRequests] takes no
    policy and computes with the constant 30.  On the health route, whose
    policy allows 60 requests per minute, the check that admits the first
    request reports 59 remaining while [getRemainingRequests] reports 29
    for the same key at the same time; the two agree on the chat route,
    whose [perMinute] is 30. *)
Theorem getRemainingRequests_hard_coded :
  let r := fst (checkRateLimit "203.0.113.7" "health" RATE_LIMITS_health 0 ∅) in
  let store := snd (checkRateLimit "203.0.113.7" "health" RATE_LIMITS_health 0 ∅) in
  remaining r = Some (perMinute RATE_LIMITS_health - 1)
  /\ remaining r = Some 59
  /\ getRemainingRequests "203.0.113.7" "health" 0 store = 29
  /\ getRemainingRequests "203.0.113.7" "health" 0 ∅ = 30
  /\ getRemainingRequests "203.0.113.7" "chat" 0
       (snd (checkRateLimit "203.0.113.7" "chat" RATE_LIMITS_chat 0 ∅)) = 29.
Proof.
  repeat split; by vm_compute.
Qed.

End RateLimiterProperties.

(* ===================================================================== *)
(** ** Properties of the API service: classification and backoff *)
(* ===================================================================== *)

Section ErrorClassification.
Import ApiService.

(** *** [parseInt] reads back a decimal number *)

Lemma digit_value_pretty (d : N) :
  (d < 10)%N -> digit_value 10 (pretty_N_char d) = Some (Z.of_N d).
Proof.
  intros H.
  assert (d = 0 \/ d = 1 \/ d = 2 \/ d = 3 \/ d = 4 \/ d = 5 \/ d = 6
          \/ d = 7 \/ d = 8 \/ d = 9)%N as Hd by lia.
  repeat (destruct Hd as [-> | Hd]; [reflexivity|]). by subst.
Qed.

(** Reading the digits of [x] multiplies what was read before by a power
    of ten and adds [x]. *)
Lemma parse_digits_pretty (x : N) : forall (s : string) (acc : option Z),
  (0 < x)%N ->
  exists k, parse_digits 10 (pretty_N_go x s) acc
            = parse_digits 10 s (Some (k * acc_value acc + Z.of_N x)).
Proof.
  induction (N.lt_wf_0 x) as [x _ IH]. intros s acc Hx.
  rewrite pretty_N_go_step by done.
  assert (Hmod : (x `mod` 10 < 10)%N) by (apply N.mod_lt; lia).
  assert (Hdiv : Z.of_N x = 10 * Z.of_N (x `div` 10) + Z.of_N (x `mod` 10)).
  { rewrite (N.div_mod x 10) at 1 by lia. lia. }
  destruct (decide (x `div` 10 = 0)%N) as [Hz | Hnz].
  - rewrite Hz, pretty_N_go_0. simpl. rewrite digit_value_pretty by done.
    fold (acc_value acc). exists 10. f_equal. f_equal. rewrite Hz in Hdiv. lia.
  - destruct (IH (x `div` 10)%N) with
      (s := String (pretty_N_char (x `mod` 10)) s) (acc := acc) as [k Hk].
    + apply N.div_lt; lia.
    + lia.
    + rewrite Hk. simpl. rewrite digit_value_pretty by done.
      exists (10 * k). f_equal. f_equal. lia.
Qed.

(** The first digit of a positive number is not zero. *)
Lemma pretty_N_go_head (x : N) : forall (s : string),
  (0 < x)%N ->
  exists d rest, (0 < d < 10)%N /\ pretty_N_go x s = String (pretty_N_char d) rest.
Proof.
  induction (N.lt_wf_0 x) as [x _ IH]. intros s Hx.
  rewrite pretty_N_go_step by done.
  destruct (decide (x `div` 10 = 0)%N) as [Hz | Hnz].
  - rewrite Hz, pretty_N_go_0. exists (x `mod` 10)%N, s. split; [|done].
    assert (x `mod` 10 < 10)%N by (apply N.mod_lt; lia).
    pose proof (N.div_mod x 10). lia.
  - apply IH.
    + apply N.div_lt; lia.
    + destruct (x `div` 10)%N; [done | lia].
Qed.

Lemma parseInt_digits (x : N) :
  (0 < x)%N ->
  parseInt (pretty_N_go x "") = Num (Z.of_N x)
  /\ parseInt ("-" +:+ pretty_N_go x "") = Num (- Z.of_N x)
  /\ exists c rest, pretty_N_go x "" = String c rest.
Proof.
  intros Hx.
  destruct (parse_digits_pretty x "" None Hx) as [k Hk]. simpl in Hk.
  replace (k * 0 + Z.of_N x) with (Z.of_N x) in Hk by lia.
  destruct (pretty_N_go_head x "" Hx) as (d & rest & Hd & Hs).
  rewrite Hs in *. set (v := Z.of_N x) in *. clearbody v.
  assert (d = 1 \/ d = 2 \/ d = 3 \/ d = 4 \/ d = 5 \/ d = 6
          \/ d = 7 \/ d = 8 \/ d = 9)%N as Hcases by lia.
  split; [|split; [|eauto]].
  - repeat (destruct Hcases as [-> | Hcases];
      [lazy -[parse_digits Z.mul Z.opp] in Hk |- *; rewrite Hk; f_equal; lia|]).
    subst. lazy -[parse_digits Z.mul Z.opp] in Hk |- *. rewrite Hk; f_equal; lia.
  - repeat (destruct Hcases as [-> | Hcases];
      [lazy -[parse_digits Z.mul Z.opp] in Hk |- *; rewrite Hk; f_equal; lia|]).
    subst. lazy -[parse_digits Z.mul Z.opp] in Hk |- *. rewrite Hk; f_equal; lia.
Qed.

(** [parseInt] of the decimal text of an integer is that integer. *)
Lemma parseInt_pretty (n : Z) : parseInt (pretty n) = Num n.
Proof.
  destruct n as [|p|p]; [reflexivity | |].
  - unfold pretty, pretty_Z, pretty, pretty_positive, pretty, pretty_N.
    destruct (decide (N.pos p = 0%N)); [done|].
    destruct (parseInt_digits (N.pos p)) as [H _]; [lia|]. exact H.
  - unfold pretty, pretty_Z, pretty, pretty_positive, pretty, pretty_N.
    destruct (decide (N.pos p = 0%N)); [done|].
    destruct (parseInt_digits (N.pos p)) as (_ & H & _); [lia|]. exact H.
Qed.

Lemma pretty_nonempty (n : Z) : exists c rest, pretty n = String c rest.
Proof.
  destruct n as [|p|p]; [by eexists _, _ | |].
  - unfold pretty, pretty_Z, pretty, pretty_positive, pretty, pretty_N.
    destruct (decide (N.pos p = 0%N)); [done|].
    destruct (parseInt_digits (N.pos p)) as (_ & _ & H); [lia|]. exact H.
  - by eexists _, _.
Qed.

(** Classification of HTTP responses by [handleHttpError], as far as it
    holds for every response: a status of 500 or more is a retryable
    [server] error; 429 is a retryable [rate_limit] error whose
    [retryAfter] is the number of seconds of the [Retry-After] header
    times 1000 when the header is the decimal text of a number of seconds
    (within the range in which the source's doubles are exact), and 60000
    when the header is absent; 401 and 403 are [auth] errors that are not
    retryable; every other status from 400 to 499 is a [client] error that
    is not retryable.  The error carries the status in each case. *)
Theorem handleHttpError_classification (r : Response) :
  let e := handleHttpError r in
  statusCode e = Some (status r)
  /\ (500 <= status r -> type e = server /\ retryable e = true)
  /\ (status r = 429 ->
        type e = rate_limit /\ retryable e = true
        /\ (retry_after_header r = None -> retryAfter e = Some (Num 60000))
        /\ (forall seconds : Z,
              Z.abs seconds * 1000 <= 2 ^ 53 ->
              retry_after_header r = Some (pretty seconds) ->
              retryAfter e = Some (Num (seconds * 1000))))
  /\ (status r = 401 \/ status r = 403 -> type e = auth /\ retryable e = false)
  /\ (400 <= status r < 500 -> status r <> 429 -> status r <> 401 ->
      status r <> 403 -> type e = client /\ retryable e = false).
Proof.
  intros e. subst e. unfold handleHttpError.
  split; [by repeat case_match|].
  split; [|split; [|split]].
  - intros H. assert ((status r >=? 500) = true) as -> by (rewrite Z.geb_leb; lia).
    by split.
  - intros H. rewrite H. simpl. split; [done|]. split; [done|]. split.
    + by intros ->.
    + intros seconds _ ->. destruct (pretty_nonempty seconds) as (c & rest & Hp).
      unfold or_else. rewrite Hp, <- Hp, parseInt_pretty. reflexivity.
  - intros [H | H]; rewrite H; by split.
  - intros [Hlo Hhi] H429 H401 H403.
    assert ((status r >=? 500) = false) as -> by (rewrite Z.geb_leb; lia).
    assert ((status r =? 429) = false) as -> by lia.
    assert ((status r =? 401) = false) as -> by lia.
    assert ((status r =? 403) = false) as -> by lia.
    assert ((status r >=? 400) = true) as -> by (rewrite Z.geb_leb; lia).
    by split.
Qed.

(** A 429 that asks for 120 seconds, a 429 with no header, a 503, a 403
    and a 404. *)
Lemma handleHttpError_classification_witness :
  retryAfter (handleHttpError (mkResponse 429 "" (Some (pretty 120)) None))
    = Some (Num (120 * 1000))
  /\ retryAfter (handleHttpError (mkResponse 429 "" None None)) = Some (Num 60000)
  /\ type (handleHttpError (mkResponse 503 "" None None)) = server
  /\ type (handleHttpError (mkResponse 403 "" None None)) = auth
  /\ type (handleHttpError (mkResponse 404 "" None None)) = client.
Proof.
  split.
  { destruct (handleHttpError_classification
                (mkResponse 429 "" (Some (pretty 120)) None))
      as (_ & _ & H & _).
    destruct (H eq_refl) as (_ & _ & _ & Hheader).
    refine (Hheader 120 _ eq_refl). by vm_compute. }
  split.
  { destruct (handleHttpError_classification (mkResponse 429 "" None None))
      as (_ & _ & H & _).
    destruct (H eq_refl) as (_ & _ & Habsent & _). exact (Habsent eq_refl). }
  split.
  { destruct (handleHttpError_classification (mkResponse 503 "" None None))
      as (_ & H & _).
    refine (proj1 (H _)). simpl. lia. }
  split.
  { destruct (handleHttpError_classification (mkResponse 403 "" None None))
      as (_ & _ & _ & H & _).
    exact (proj1 (H (or_intror eq_refl))). }
  destruct (handleHttpError_classification (mkResponse 404 "" None None))
    as (_ & _ & _ & _ & H).
  refine (proj1 (H _ _ _ _)); simpl; lia.
Defined.

(** C5 fails on the code for a 429 whose [Retry-After] header holds an
    HTTP date, as the header may: [parseInt] reads no number from it and
    [retryAfter] is [NaN], neither the time the server named nor the
    default of 60 seconds.  The answer is still classified as a retryable
    [rate_limit] error, and a header of seconds and an absent header are
    read as the claim says. *)
Theorem retry_after_date_is_lost :
  let dated :=
    mkResponse 429 "Too Many Requests" (Some "Wed, 21 Oct 2026 07:28:00 GMT") None in
  type (handleHttpError dated) = rate_limit
  /\ retryable (handleHttpError dated) = true
  /\ retryAfter (handleHttpError dated) = Some NaN
  /\ retryAfter (handleHttpError
                   (mkResponse 429 "Too Many Requests" (Some "120") None))
     = Some (Num 120000)
  /\ retryAfter (handleHttpError (mkResponse 429 "Too Many Requests" None None))
     = Some (Num 60000).
Proof.
  repeat split; by vm_compute.
Qed.

End ErrorClassification.

Section Backoff.
Import ApiService.
Local Open Scope Q_scope.

Lemma pow2_pos (n : nat) : 0 < inject_Z (2 ^ Z.of_nat n).
Proof.
  change 0 with (inject_Z 0). rewrite <- Zlt_Qlt. apply Z.pow_pos_nonneg; lia.
Qed.

Lemma pow2_lt (n m : nat) :
  (n < m)%nat -> inject_Z (2 ^ Z.of_nat n) < inject_Z (2 ^ Z.of_nat m).
Proof.
  intros H. rewrite <- Zlt_Qlt. apply Z.pow_lt_mono_r; lia.
Qed.

(** Without jitter the delay is the doubled base delay under the cap. *)
Lemma calculateRetryDelay_no_jitter (n : nat) :
  calculateRetryDelay 0 n
  == Qmin (inject_Z retryDelay * inject_Z (2 ^ Z.of_nat n)) (inject_Z 30000).
Proof.
  unfold calculateRetryDelay.
  set (base := inject_Z retryDelay * inject_Z (2 ^ Z.of_nat n)).
  destruct (Q.min_spec (base + 0 * (1 # 10) * base) (inject_Z 30000))
    as [[? ->] | [? ->]];
  destruct (Q.min_spec base (inject_Z 30000)) as [[? ->] | [? ->]]; lra.
Qed.

(** C7.  The backoff of [calculateRetryDelay], with [Math.random()] in
    the interval from 0 (included) to 1 (excluded): the delay for attempt
    [n] is [retryDelay * 2^n] plus a jitter of at least 0% and less than
    10% of that value, capped at 30000 ms.  Without jitter the delay never
    decreases with the attempt number, and it increases strictly as long
    as it is under the cap. *)
Theorem calculateRetryDelay_backoff (random : Q) (n : nat) :
  0 <= random -> random < 1 ->
  let base := inject_Z retryDelay * inject_Z (2 ^ Z.of_nat n) in
  (exists jitter,
      0 <= jitter /\ jitter < (1 # 10) * base
      /\ calculateRetryDelay random n == Qmin (base + jitter) (inject_Z 30000))
  /\ calculateRetryDelay random n <= inject_Z 30000
  /\ calculateRetryDelay 0 n == Qmin base (inject_Z 30000)
  /\ (forall m, (n < m)%nat ->
        calculateRetryDelay 0 n < inject_Z 30000 ->
        calculateRetryDelay 0 n < calculateRetryDelay 0 m)
  /\ (forall m, (n <= m)%nat ->
        calculateRetryDelay 0 n <= calculateRetryDelay 0 m).
Proof.
  intros H0 H1 base.
  pose proof (pow2_pos n) as Hp.
  assert (Hb : 0 < base).
  { unfold base, retryDelay. change (inject_Z 1000) with (1000 # 1). nra. }
  split; [|split; [|split; [|split]]].
  - exists (random * (1 # 10) * base). split; [nra|]. split; [nra|reflexivity].
  - unfold calculateRetryDelay. apply Q.le_min_r.
  - apply calculateRetryDelay_no_jitter.
  - intros m Hnm. rewrite !calculateRetryDelay_no_jitter. fold base.
    pose proof (pow2_lt n m Hnm) as Hlt. unfold base, retryDelay in *.
    change (inject_Z 1000) with (1000 # 1) in *.
    set (pn := inject_Z (2 ^ Z.of_nat n)) in *.
    set (pm := inject_Z (2 ^ Z.of_nat m)) in *.
    destruct (Q.min_spec ((1000 # 1) * pn) (inject_Z 30000)) as [[? ->] | [? ->]];
    destruct (Q.min_spec ((1000 # 1) * pm) (inject_Z 30000)) as [[? ->] | [? ->]];
      lra.
  - intros m Hnm. rewrite !calculateRetryDelay_no_jitter. fold base.
    assert (Hle : inject_Z (2 ^ Z.of_nat n) <= inject_Z (2 ^ Z.of_nat m)).
    { rewrite <- Zle_Qle. apply Z.pow_le_mono_r; lia. }
    unfold base, retryDelay in *.
    change (inject_Z 1000) with (1000 # 1) in *.
    set (pn := inject_Z (2 ^ Z.of_nat n)) in *.
    set (pm := inject_Z (2 ^ Z.of_nat m)) in *.
    destruct (Q.min_spec ((1000 # 1) * pn) (inject_Z 30000)) as [[? ->] | [? ->]];
    destruct (Q.min_spec ((1000 # 1) * pm) (inject_Z 30000)) as [[? ->] | [? ->]];
      lra.
Qed.

(** The three delays a request can wait, with half of the largest jitter:
    1050, 2100 and 4200 ms; without jitter 1000 < 2000 < 4000. *)
Lemma calculateRetryDelay_backoff_witness :
  (calculateRetryDelay (1 # 2) 0 == 1050 /\ calculateRetryDelay (1 # 2) 1 == 2100
   /\ calculateRetryDelay (1 # 2) 2 == 4200)
  /\ calculateRetryDelay (1 # 2) 2 <= inject_Z 30000
  /\ calculateRetryDelay 0 1 < calculateRetryDelay 0 2.
Proof.
  split; [by vm_compute|].
  assert (Hlo : 0 <= 1 # 2) by (by vm_compute).
  assert (Hhi : 1 # 2 < 1) by (by vm_compute).
  split.
  - exact (proj1 (proj2 (calculateRetryDelay_backoff (1 # 2) 2 Hlo Hhi))).
  - destruct (calculateRetryDelay_backoff (1 # 2) 1 Hlo Hhi) as (_ & _ & _ & Hup & _).
    apply (Hup 2%nat); [lia | by vm_compute].
Defined.

End Backoff.

(* ===================================================================== *)
(** ** Properties of the request pipeline and the circuit breaker *)
(* ===================================================================== *)

Section Pipeline.
Import ApiService.

Implicit Types (s : State) (env : nat -> Attempt) (a : Attempt).

(** Enough fuel: [makeRequest] returns from any retry count with more
    than [maxRetries - retryCount] units. *)
Lemma makeRequest_total env : forall fuel retryCount s,
  (maxRetries - retryCount < fuel)%nat ->
  exists res, makeRequest fuel env retryCount s = Some res.
Proof.
  induction fuel as [|fuel IH]; intros retryCount s Hfuel; [lia|].
  simpl.
  destruct (isCircuitBreakerOpen _ _) as [isOpen s1].
  destruct isOpen; [eauto|].
  destruct (negb _); [eauto|].
  destruct (result (env retryCount)) as [r | | msg |]; eauto.
  - destruct (ok r); [destruct (body r); eauto|].
    destruct (retryable (handleHttpError r) && (retryCount <? maxRetries)%nat)
      eqn:Hretry; [|eauto].
    apply andb_true_iff in Hretry as [_ Hlt]. apply Nat.ltb_lt in Hlt.
    destruct (IH (S retryCount)
                (recordFailure (caught (env retryCount))
                   (on_response (env retryCount) s1))) as [[[out s'] eff] ->];
      [lia | eauto].
  - destruct (includes msg "fetch"); eauto.
Qed.

Lemma request_total env s : exists res, request env s = Some res.
Proof. apply makeRequest_total. unfold maxRetries. lia. Qed.

(** The signal handlers and the response bookkeeping leave the breaker
    alone, and the breaker check leaves the connection status alone. *)
Lemma deliver_breaker sig s :
  circuitBreakerFailures (deliver sig s) = circuitBreakerFailures s
  /\ circuitBreakerLastFailure (deliver sig s) = circuitBreakerLastFailure s
  /\ requestQueue (deliver sig s) = requestQueue s.
Proof. destruct sig as [[sg now]|]; by simpl. Qed.

Lemma isCircuitBreakerOpen_closed now s :
  circuitBreakerFailures s < circuitBreakerThreshold ->
  isCircuitBreakerOpen now s = (false, s).
Proof.
  intros H. unfold isCircuitBreakerOpen.
  apply Z.ltb_lt in H. by rewrite H.
Qed.


(** The breaker is open exactly when the threshold is reached and the
    last failure is at most [circuitBreakerResetTime] old. *)
Lemma isCircuitBreakerOpen_spec now s :
  fst (isCircuitBreakerOpen now s) = true <->
  circuitBreakerThreshold <= circuitBreakerFailures s
  /\ exists last, circuitBreakerLastFailure s = Some last
                  /\ now - last <= circuitBreakerResetTime.
Proof.
  unfold isCircuitBreakerOpen.
  destruct (Z.ltb_spec (circuitBreakerFailures s) circuitBreakerThreshold).
  { simpl. split; [done | lia]. }
  destruct (circuitBreakerLastFailure s) as [last|].
  - destruct (Z.gtb_spec (now - last) circuitBreakerResetTime); simpl.
    + split; [done|]. intros (_ & l & [= <-] & ?). lia.
    + split; [|done]. intros _. split; [lia|]. exists last. split; [done | lia].
  - simpl. split; [done|]. by intros (_ & l & ? & _).
Qed.

(** An open breaker rejects without a fetch and without touching the
    state beyond the signal. *)
Lemma makeRequest_breaker_open fuel env retryCount s :
  fst (isCircuitBreakerOpen (started (env retryCount))
         (deliver (signal (env retryCount)) s)) = true ->
  makeRequest (S fuel) env retryCount s
  = Some (Rejected breaker_error, deliver (signal (env retryCount)) s, []).
Proof.
  intros H. simpl.
  destruct (isCircuitBreakerOpen _ _) as [isOpen s1] eqn:Hopen.
  simpl in H. subst isOpen.
  unfold isCircuitBreakerOpen in Hopen. repeat case_match; by simplify_eq.
Qed.

(** A resolved request leaves the breaker reset. *)
Lemma makeRequest_success_resets env : forall fuel retryCount s data s' effects,
  makeRequest fuel env retryCount s = Some (Resolved data, s', effects) ->
  circuitBreakerFailures s' = 0 /\ circuitBreakerLastFailure s' = None.
Proof.
  induction fuel as [|fuel IH]; intros retryCount s data s' effects H; [done|].
  simpl in H.
  destruct (isCircuitBreakerOpen _ _) as [isOpen s1].
  destruct isOpen; [done|].
  destruct (negb _); [done|].
  destruct (result (env retryCount)) as [r | | msg |]; try done.
  - destruct (ok r).
    + destruct (body r); by simplify_eq.
    + destruct (_ && _); [|done].
      destruct (makeRequest fuel env (S retryCount) _) as [[[out s2] eff]|] eqn:Hrec;
        [|done].
      simplify_eq. eapply IH; eauto.
  - by destruct (includes msg "fetch").
Qed.

(** When every fetch gets a response, a request cannot leave more than
    one failure on the breaker: the count is reset on each response,
    before the status is looked at. *)
Lemma makeRequest_responses_count env : forall fuel retryCount s out s' effects,
  (forall i, exists r, result (env i) = Responds r) ->
  circuitBreakerFailures s <= 1 ->
  makeRequest fuel env retryCount s = Some (out, s', effects) ->
  circuitBreakerFailures s' <= 1.
Proof.
  induction fuel as [|fuel IH]; intros retryCount s out s' effects Hresp Hs H;
    [done|].
  simpl in H.
  destruct (deliver_breaker (signal (env retryCount)) s) as (Hf & _ & _).
  rewrite isCircuitBreakerOpen_closed in H
    by (rewrite Hf; unfold circuitBreakerThreshold; lia).
  destruct (negb _); [simplify_eq; lia|].
  destruct (Hresp retryCount) as [r Hr]. rewrite Hr in H.
  destruct (ok r).
  - destruct (body r); simplify_eq; simpl; lia.
  - destruct (_ && _).
    + destruct (makeRequest fuel env (S retryCount) _) as [[[out2 s2] eff]|] eqn:Hrec;
        [|done].
      simplify_eq. eapply IH; [exact Hresp | | exact Hrec]. simpl. lia.
    + simplify_eq. simpl. lia.
Qed.

(** So no sequence of requests that all get HTTP responses, failing or
    not, ever opens the breaker. *)
Lemma requests_responses_count : forall envs s outs s',
  (forall env, In env envs -> forall i, exists r, result (env i) = Responds r) ->
  circuitBreakerFailures s <= 1 ->
  requests envs s = Some (outs, s') ->
  circuitBreakerFailures s' <= 1
  /\ forall now, fst (isCircuitBreakerOpen now s') = false.
Proof.
  assert (Hclosed : forall s now, circuitBreakerFailures s <= 1 ->
                                  fst (isCircuitBreakerOpen now s) = false).
  { intros s now H. rewrite isCircuitBreakerOpen_closed; [done|].
    unfold circuitBreakerThreshold. lia. }
  induction envs as [|env rest IH]; intros s outs s' Hresp Hs H; simpl in H.
  - simplify_eq. auto.
  - destruct (request env s) as [[[out s1] eff]|] eqn:Hreq; [|done].
    destruct (requests rest s1) as [[outs2 s2]|] eqn:Hrest; [|done].
    simplify_eq. eapply IH; [| |exact Hrest].
    + intros env' Hin. apply Hresp. by right.
    + eapply makeRequest_responses_count; [|exact Hs|exact Hreq].
      apply Hresp. by left.
Qed.

(** A timeout or a network failure of the fetch is thrown at once: the
    error carries [retryable = true], yet there is no retry and the
    failure is not recorded. *)
Lemma makeRequest_transport_failure fuel env retryCount s s1 :
  isCircuitBreakerOpen (started (env retryCount))
    (deliver (signal (env retryCount)) s) = (false, s1) ->
  isOnline (connectionStatus s1) = true ->
  (result (env retryCount) = Aborts ->
     makeRequest (S fuel) env retryCount s
     = Some (Rejected timeout_error, s1, [Fetch (started (env retryCount))]))
  /\ (forall msg,
        result (env retryCount) = ThrowsTypeError msg ->
        includes msg "fetch" = true ->
        makeRequest (S fuel) env retryCount s
        = Some (Rejected network_error, s1, [Fetch (started (env retryCount))])).
Proof.
  intros Hopen Honline. split.
  - intros Hr. simpl. by rewrite Hopen, Honline, Hr.
  - intros msg Hr Hinc. simpl. by rewrite Hopen, Honline, Hr, Hinc.
Qed.

(** An HTTP error that is not retryable is thrown on its first
    occurrence, after the failure is recorded. *)
Lemma makeRequest_not_retryable fuel env retryCount s s1 r :
  isCircuitBreakerOpen (started (env retryCount))
    (deliver (signal (env retryCount)) s) = (false, s1) ->
  isOnline (connectionStatus s1) = true ->
  result (env retryCount) = Responds r ->
  ok r = false ->
  retryable (handleHttpError r) = false ->
  makeRequest (S fuel) env retryCount s
  = Some (Rejected (handleHttpError r),
          recordFailure (caught (env retryCount)) (on_response (env retryCount) s1),
          [Fetch (started (env retryCount))]).
Proof.
  intros Hopen Honline Hr Hok Hretry. simpl.
  by rewrite Hopen, Honline, Hr, Hok, Hretry.
Qed.

(** A retryable HTTP error is retried while [retryCount < maxRetries]:
    when every fetch gets such an error and no offline event arrives, the
    request that starts at [retryCount] makes [S (maxRetries - retryCount)]
    fetches with a sleep between them and ends in the last error. *)
Lemma makeRequest_retries env :
  (forall i, signal (env i) = None
             /\ exists r, result (env i) = Responds r /\ ok r = false
                          /\ retryable (handleHttpError r) = true) ->
  forall fuel retryCount s,
    (retryCount <= maxRetries)%nat ->
    (S maxRetries - retryCount <= fuel)%nat ->
    circuitBreakerFailures s < circuitBreakerThreshold ->
    isOnline (connectionStatus s) = true ->
    exists r s' effects,
      makeRequest fuel env retryCount s = Some (Rejected (handleHttpError r), s', effects)
      /\ result (env maxRetries) = Responds r
      /\ fetches effects = S (maxRetries - retryCount)
      /\ sleeps effects = (maxRetries - retryCount)%nat
      /\ circuitBreakerFailures s' = 1.
Proof.
  intros Henv.
  induction fuel as [|fuel IH]; intros retryCount s Hrc Hfuel Hclosed Honline;
    [lia|].
  simpl. destruct (Henv retryCount) as (Hsig & r & Hr & Hok & Hretry).
  rewrite Hsig. simpl. rewrite isCircuitBreakerOpen_closed by done.
  rewrite Honline, Hr, Hok, Hretry. simpl.
  destruct (Nat.ltb_spec retryCount maxRetries) as [Hlt | Hge].
  - destruct (IH (S retryCount)
                (recordFailure (caught (env retryCount))
                   (on_response (env retryCount) s)))
      as (r' & s' & eff & Hrec & Hlast & Hf & Hsl & Hcount);
      [lia | lia | by simpl | by simpl |].
    rewrite Hrec. exists r', s', (Fetch (started (env retryCount))
      :: Sleep (calculateRetryDelay (random (env retryCount)) retryCount) :: eff).
    repeat split; [done | | | done].
    + unfold fetches in *. simpl. rewrite Hf. unfold maxRetries in *. lia.
    + unfold sleeps in *. simpl. rewrite Hsl. unfold maxRetries in *. lia.
  - assert (retryCount = maxRetries) as -> by lia.
    exists r. eexists _, _. split; [reflexivity|]. split; [done|].
    split; [|split]; [| |done].
    + unfold fetches. simpl. lia.
    + unfold sleeps. simpl. lia.
Qed.

(** C3 (the code departs from the claim).  A fetch that times out, or
    that fails with a network error, ends the request at once: one fetch,
    no sleep, although the error thrown carries [retryable = true]; the
    [throw] in the [catch] block comes before the retry logic.  A 503 and
    a 429 are retried until the budget of 3 is used (four fetches, three
    sleeps), and a 404, a 403 and an unrecognized failure are thrown on
    their first occurrence, all as the claim says. *)
Theorem transport_failures_not_retried :
  request (steady 0 Aborts) (initial true 0)
    = Some (Rejected timeout_error, initial true 0, [Fetch 0])
  /\ type timeout_error = timeout /\ retryable timeout_error = true
  /\ request (steady 0 (ThrowsTypeError "Failed to fetch")) (initial true 0)
    = Some (Rejected network_error, initial true 0, [Fetch 0])
  /\ type network_error = network /\ retryable network_error = true
  /\ observe (request (steady 0 (http 503)) (initial true 0))
     = Some (Some server, 4%nat, 3%nat)
  /\ observe (request (steady 0 (http 429)) (initial true 0))
     = Some (Some rate_limit, 4%nat, 3%nat)
  /\ observe (request (steady 0 (http 404)) (initial true 0))
     = Some (Some client, 1%nat, 0%nat)
  /\ observe (request (steady 0 (http 403)) (initial true 0))
     = Some (Some auth, 1%nat, 0%nat)
  /\ observe (request (steady 0 Throws) (initial true 0))
     = Some (Some unknown, 1%nat, 0%nat).
Proof.
  repeat split; by vm_compute.
Qed.

(** C1 (the code departs from the claim).  Five requests in a row are
    answered 400, each a terminal failure after one fetch; the failure
    count they leave is 1, not 5, because every response, failing or not,
    resets the count before the status is looked at; the breaker is
    closed and a sixth request one millisecond later is attempted.  The
    same holds when the five requests are answered 503 on every attempt.
    Five requests that time out leave the count at 0: a timeout is not
    recorded at all.  Only failures the service cannot classify are
    counted: after five of them the breaker is open, a sixth request one
    millisecond later is rejected as a [server] error that is not
    retryable, without a fetch, a request 60 s after the last failure is
    still rejected, and one a millisecond later is attempted. *)
Theorem breaker_misses_terminal_failures :
  (option_map (fun run => map summary (fst run)) (five_failures (http 400))
     = Some (repeat (Some client, 1%nat, 0%nat) 5)
   /\ circuitBreakerFailures (state_after (five_failures (http 400))) = 1
   /\ fst (isCircuitBreakerOpen 50051 (state_after (five_failures (http 400)))) = false
   /\ observe (request (steady 50051 (http 400)) (state_after (five_failures (http 400))))
      = Some (Some client, 1%nat, 0%nat))
  /\ (option_map (fun run => map summary (fst run)) (five_failures (http 503))
        = Some (repeat (Some server, 4%nat, 3%nat) 5)
      /\ circuitBreakerFailures (state_after (five_failures (http 503))) = 1
      /\ observe (request (steady 57751 (http 503)) (state_after (five_failures (http 503))))
         = Some (Some server, 4%nat, 3%nat))
  /\ (option_map (fun run => map summary (fst run)) (five_failures Aborts)
        = Some (repeat (Some timeout, 1%nat, 0%nat) 5)
      /\ circuitBreakerFailures (state_after (five_failures Aborts)) = 0
      /\ circuitBreakerLastFailure (state_after (five_failures Aborts)) = None)
  /\ (circuitBreakerFailures (state_after (five_failures Throws)) = 5
      /\ circuitBreakerLastFailure (state_after (five_failures Throws)) = Some 50050
      /\ request (steady 50051 (http 200)) (state_after (five_failures Throws))
         = Some (Rejected breaker_error, state_after (five_failures Throws), [])
      /\ type breaker_error = server /\ retryable breaker_error = false
      /\ observe (request (steady 110050 (http 503)) (state_after (five_failures Throws)))
         = Some (Some server, 0%nat, 0%nat)
      /\ observe (request (steady 110051 (http 503)) (state_after (five_failures Throws)))
         = Some (Some server, 4%nat, 3%nat)).
Proof.
  repeat split; by vm_compute.
Qed.

(** *** Introspection *)

(** Resetting a breaker whose reset time has passed changes nothing for
    the requests that follow: they would reset it themselves. *)
Lemma makeRequest_after_reset fuel env retryCount s last :
  circuitBreakerThreshold <= circuitBreakerFailures s ->
  circuitBreakerLastFailure s = Some last ->
  circuitBreakerResetTime < started (env retryCount) - last ->
  makeRequest fuel env retryCount (resetCircuitBreaker s)
  = makeRequest fuel env retryCount s.
Proof.
  intros Hcount Hlast Hlate. destruct fuel as [|fuel]; [reflexivity|].
  simpl.
  assert (Hcomm : deliver (signal (env retryCount)) (resetCircuitBreaker s)
                  = resetCircuitBreaker (deliver (signal (env retryCount)) s)).
  { by destruct (signal (env retryCount)) as [[sg now]|]. }
  destruct (deliver_breaker (signal (env retryCount)) s) as (Hf & Hl & _).
  rewrite Hcomm.
  assert (Hreset : isCircuitBreakerOpen (started (env retryCount))
                     (resetCircuitBreaker (deliver (signal (env retryCount)) s))
                   = (false, resetCircuitBreaker (deliver (signal (env retryCount)) s))).
  { apply isCircuitBreakerOpen_closed. simpl. unfold circuitBreakerThreshold. lia. }
  assert (Hlazy : isCircuitBreakerOpen (started (env retryCount))
                    (deliver (signal (env retryCount)) s)
                  = (false, resetCircuitBreaker (deliver (signal (env retryCount)) s))).
  { unfold isCircuitBreakerOpen. rewrite Hf, Hl, Hlast.
    assert ((circuitBreakerFailures s <? circuitBreakerThreshold) = false) as ->
      by (apply Z.ltb_ge; lia).
    assert ((started (env retryCount) - last >? circuitBreakerResetTime) = true) as ->
      by (rewrite Z.gtb_ltb; apply Z.ltb_lt; lia).
    reflexivity. }
  by rewrite Hreset, Hlazy.
Qed.

(** Once the reset time has passed, the check of the breaker gives the
    same answer and leaves the same state whether the breaker has been
    reset already or not. *)
Lemma isCircuitBreakerOpen_after_reset now s last :
  circuitBreakerThreshold <= circuitBreakerFailures s ->
  circuitBreakerLastFailure s = Some last ->
  circuitBreakerResetTime < now - last ->
  isCircuitBreakerOpen now s = (false, resetCircuitBreaker s)
  /\ isCircuitBreakerOpen now (resetCircuitBreaker s) = (false, resetCircuitBreaker s).
Proof.
  intros Hcount Hlast Hlate. split.
  - unfold isCircuitBreakerOpen. rewrite Hlast.
    assert ((circuitBreakerFailures s <? circuitBreakerThreshold) = false) as ->
      by (apply Z.ltb_ge; lia).
    assert ((now - last >? circuitBreakerResetTime) = true) as ->
      by (rewrite Z.gtb_ltb; apply Z.ltb_lt; lia).
    reflexivity.
  - apply isCircuitBreakerOpen_closed. simpl. unfold circuitBreakerThreshold. lia.
Qed.

(** What [getMetrics] does to the state. *)
Lemma getMetrics_state now s :
  snd (getMetrics now s) = s
  \/ (circuitBreakerThreshold <= circuitBreakerFailures s
      /\ (exists last, circuitBreakerLastFailure s = Some last
                       /\ circuitBreakerResetTime < now - last)
      /\ snd (getMetrics now s) = resetCircuitBreaker s).
Proof.
  unfold getMetrics, getConnectionStatus, isCircuitBreakerOpen.
  destruct (Z.ltb_spec (circuitBreakerFailures s) circuitBreakerThreshold);
    [by left|].
  destruct (circuitBreakerLastFailure s) as [last|] eqn:Hlast; [|by left].
  destruct (Z.gtb_spec (now - last) circuitBreakerResetTime); [|by left].
  right. split; [lia|]. split; [|done]. exists last. split; [done | lia].
Qed.

(** C6, as the code has it.  [getConnectionStatus] changes nothing.
    [getMetrics] changes neither the request queue nor the connection
    status; it leaves the breaker as it is, except that it resets the
    failure count and the time of the last failure when the threshold is
    reached and the last failure is more than [circuitBreakerResetTime]
    old.  When requests are made one after the other, so that none is in
    flight while [getMetrics] is called, every request started
    afterwards, with a clock that has not run backwards, has the outcome,
    the final state and the effects it would have had without the call
    of [getMetrics]; a later call of [getMetrics] leaves the same state
    and reports the same breaker status, queue size and connection
    status (its failure count alone can differ). *)
Theorem introspection_frame (now : Z) s :
  snd (getConnectionStatus s) = s
  /\ fst (getConnectionStatus s) = connectionStatus s
  /\ requestQueue (snd (getMetrics now s)) = requestQueue s
  /\ connectionStatus (snd (getMetrics now s)) = connectionStatus s
  /\ (snd (getMetrics now s) = s
      \/ (circuitBreakerThreshold <= circuitBreakerFailures s
          /\ (exists last, circuitBreakerLastFailure s = Some last
                           /\ circuitBreakerResetTime < now - last)
          /\ snd (getMetrics now s) = resetCircuitBreaker s))
  /\ (forall fuel env retryCount,
        now <= started (env retryCount) ->
        makeRequest fuel env retryCount (snd (getMetrics now s))
        = makeRequest fuel env retryCount s)
  /\ (forall later,
        now <= later ->
        let m' := fst (getMetrics later (snd (getMetrics now s))) in
        let m := fst (getMetrics later s) in
        snd (getMetrics later (snd (getMetrics now s))) = snd (getMetrics later s)
        /\ m_isCircuitBreakerOpen m' = m_isCircuitBreakerOpen m
        /\ queueSize m' = queueSize m
        /\ m_connectionStatus m' = m_connectionStatus m).
Proof.
  split; [reflexivity|]. split; [reflexivity|].
  pose proof (getMetrics_state now s) as Hstate.
  split; [|split; [|split; [|split]]].
  - destruct Hstate as [-> | (_ & _ & ->)]; reflexivity.
  - destruct Hstate as [-> | (_ & _ & ->)]; reflexivity.
  - exact Hstate.
  - intros fuel env retryCount Hlater.
    destruct Hstate as [-> | (Hcount & (last & Hlast & Hlate) & ->)]; [reflexivity|].
    apply (makeRequest_after_reset fuel env retryCount s last); [done | done | lia].
  - intros later Hlater.
    destruct Hstate as [-> | (Hcount & (last & Hlast & Hlate) & ->)]; [done|].
    destruct (isCircuitBreakerOpen_after_reset later s last) as [Hlazy Hreset];
      [done | done | lia |].
    unfold getMetrics, getConnectionStatus. rewrite Hlazy, Hreset. by simpl.
Qed.

(** The state after five failures the service cannot classify, with the
    last failure at 50050: [getMetrics] at 110051 resets the breaker, and
    a request at 110052 does what it would have done without it. *)
Lemma introspection_frame_witness :
  let s := state_after (five_failures Throws) in
  snd (getMetrics 110051 s) = resetCircuitBreaker s
  /\ request (steady 110052 (http 200)) (snd (getMetrics 110051 s))
     = request (steady 110052 (http 200)) s.
Proof.
  intros s.
  destruct (introspection_frame 110051 s) as (_ & _ & _ & _ & Hstate & Hlater & _).
  split.
  - destruct Hstate as [Hsame | (_ & _ & Hreset)]; [|exact Hreset].
    exfalso. revert Hsame. by vm_compute.
  - apply Hlater. by vm_compute.
Defined.

(** C6, as the claim has it, fails: in the state after five failures the
    service cannot classify, [getMetrics] called more than 60 s after the
    last failure resets the breaker counters, and a second call of
    [getMetrics] reports 0 failures where the first reported 5. *)
Lemma getMetrics_resets_breaker :
  let s := state_after (five_failures Throws) in
  circuitBreakerFailures s = 5
  /\ circuitBreakerFailures (snd (getMetrics 110051 s)) = 0
  /\ circuitBreakerLastFailure (snd (getMetrics 110051 s)) = None
  /\ snd (getMetrics 110051 s) <> s
  /\ m_circuitBreakerFailures (fst (getMetrics 110051 s)) = 5
  /\ m_circuitBreakerFailures (fst (getMetrics 110051 (snd (getMetrics 110051 s)))) = 0.
Proof.
  repeat split; by vm_compute.
Qed.

(** The condition on requests in flight is needed.  A request whose
    answer arrived before the five failures and whose body is read only
    after the call of [getMetrics] records its failure without asking
    the breaker: on the counters that [getMetrics] has reset it leaves 1
    failure, on the stale counters 6, and the request after it is
    fetched in the one case and refused by the breaker in the other. *)
Lemma getMetrics_reset_seen_in_flight :
  let s := state_after (five_failures Throws) in
  circuitBreakerFailures (recordFailure 110100 (snd (getMetrics 110051 s))) = 1
  /\ circuitBreakerFailures (recordFailure 110100 s) = 6
  /\ observe (request (steady 110200 (http 200))
                (recordFailure 110100 (snd (getMetrics 110051 s))))
     = Some (Some unknown, 1%nat, 0%nat)
  /\ observe (request (steady 110200 (http 200)) (recordFailure 110100 s))
     = Some (Some server, 0%nat, 0%nat).
Proof.
  repeat split; by vm_compute.
Qed.

End Pipeline.

(* ===================================================================== *)
(** ** Properties of the request deduplication *)
(* ===================================================================== *)

Section Deduplication.
Import ApiService.

Implicit Types (w : World) (e : Event) (c p : nat) (key : string).
Implicit Types (i : Invocation) (o : Outcome).









(** *** The invariant *)







(** *** A request in flight *)








End Deduplication.

(* ===================================================================== *)
(** ** More on the rate limiter: keys, windows, sweeps *)
(* ===================================================================== *)

Section RateLimiterCoverage.
Import RateLimiter.

Implicit Types (ip endpoint key : string) (config : RateLimitConfig).
Implicit Types (now : Z) (store : gmap string RateLimitEntry).
Implicit Types (entry : RateLimitEntry).

(** *** Keys *)

Lemma contains_append (c : ascii) (a b : string) :
  contains c (a +:+ b) = contains c a || contains c b.
Proof.
  induction a as [|d a IH]; simpl; [done|]. rewrite IH. by rewrite orb_assoc.
Qed.

(** The key is split at its last colon. *)
Lemma getKey_inj ip1 endpoint1 ip2 endpoint2 :
  contains ":" endpoint1 = false -> contains ":" endpoint2 = false ->
  getKey ip1 endpoint1 = getKey ip2 endpoint2 ->
  ip1 = ip2 /\ endpoint1 = endpoint2.
Proof.
  unfold getKey. intros H1 H2. revert ip2.
  induction ip1 as [|c ip1 IH]; intros [|d ip2] Heq;
    cbv [String.append] in Heq; fold String.append in Heq.
  - by simplify_eq.
  - injection Heq as _ Heq. rewrite Heq, contains_append in H1.
    simpl in H1. by rewrite orb_true_r in H1.
  - injection Heq as _ Heq. rewrite <- Heq, contains_append in H2.
    simpl in H2. by rewrite orb_true_r in H2.
  - injection Heq as -> Heq. destruct (IH ip2 Heq) as [-> ->]. done.
Qed.

(** Counters of different (address, route) pairs are independent as long
    as the route names hold no colon: the keys differ, a check for one
    pair leaves the entry of the other as it was, and the other pair gets
    the result it would have got without that check.  The condition is
    needed: with a colon in a route name two different pairs can share one
    key. *)
Theorem route_counters_independent ip1 endpoint1 ip2 endpoint2
    config config' now now' store :
  contains ":" endpoint1 = false -> contains ":" endpoint2 = false ->
  (ip1, endpoint1) <> (ip2, endpoint2) ->
  getKey ip1 endpoint1 <> getKey ip2 endpoint2
  /\ snd (checkRateLimit ip1 endpoint1 config now store) !! getKey ip2 endpoint2
     = store !! getKey ip2 endpoint2
  /\ fst (checkRateLimit ip2 endpoint2 config' now'
            (snd (checkRateLimit ip1 endpoint1 config now store)))
     = fst (checkRateLimit ip2 endpoint2 config' now' store)
  /\ getKey "10.0.0.1" "chat:x" = getKey "10.0.0.1:chat" "x".
Proof.
  intros H1 H2 Hne.
  assert (Hkey : getKey ip2 endpoint2 <> getKey ip1 endpoint1).
  { intros Heq. destruct (getKey_inj _ _ _ _ H2 H1 Heq) as [-> ->]. done. }
  split; [congruence|].
  assert (Hother : snd (checkRateLimit ip1 endpoint1 config now store)
                     !! getKey ip2 endpoint2 = store !! getKey ip2 endpoint2)
    by (by apply checkRateLimit_other_keys).
  split; [exact Hother|]. split; [|reflexivity].
  apply checkRateLimit_result_local. by rewrite Hother.
Qed.

Lemma route_counters_independent_witness :
  getKey "203.0.113.7" "chat" <> getKey "203.0.113.7" "health"
  /\ fst (checkRateLimit "203.0.113.7" "health" RATE_LIMITS_health 1
            (snd (checkRateLimit "203.0.113.7" "chat" RATE_LIMITS_chat 0 ∅)))
     = fst (checkRateLimit "203.0.113.7" "health" RATE_LIMITS_health 1 ∅).
Proof.
  destruct (route_counters_independent "203.0.113.7" "chat" "203.0.113.7" "health"
              RATE_LIMITS_chat RATE_LIMITS_health 0 1 ∅)
    as (Hkeys & _ & Hresult & _); [reflexivity | reflexivity | discriminate |].
  split; [exact Hkeys | exact Hresult].
Defined.

(** *** Admissions inside one window *)

Lemma current_entry_live config now entry :
  now < resetTime entry -> now < burstResetTime entry ->
  current_entry config now (Some entry) = entry.
Proof.
  intros Hw Hb. unfold current_entry, reset_window, reset_burst.
  assert ((now >=? resetTime entry) = false) as -> by (apply geb_false; lia).
  assert ((now >=? burstResetTime entry) = false) as -> by (apply geb_false; lia).
  reflexivity.
Qed.

Lemma current_entry_fresh config now :
  0 < burstWindow config ->
  current_entry config now None = fresh_entry config now.
Proof.
  intros Hw. unfold current_entry, reset_window, reset_burst, fresh_entry.
  cbn [count resetTime burstCount burstResetTime].
  assert ((now >=? now + 60 * 1000) = false) as -> by (apply geb_false; lia).
  cbn [count resetTime burstCount burstResetTime].
  assert ((now >=? now + burstWindow config) = false) as ->
    by (apply geb_false; lia).
  reflexivity.
Qed.

(** With an entry whose windows outlast all the checks, the number of
    admissions is the number of checks or what is left of the quotas,
    whichever is smaller. *)
Lemma checks_admitted_live ip endpoint config : forall times entry store,
  store !! getKey ip endpoint = Some entry ->
  Forall (fun t => t < resetTime entry /\ t < burstResetTime entry) times ->
  admitted (fst (checks ip endpoint config times store))
  = Z.to_nat (Z.min (Z.of_nat (length times)) (capacity config entry)).
Proof.
  induction times as [|t times IH]; intros entry store Hfound Hlive.
  - simpl. unfold admitted. simpl. lia.
  - apply Forall_cons in Hlive as [[Hw Hb] Hrest].
    cbn [checks]. unfold checkRateLimit. rewrite Hfound.
    rewrite (current_entry_live _ _ _ Hw Hb).
    destruct (burstCount entry >=? burstLimit config) eqn:Hburst;
      [|destruct (count entry >=? perMinute config) eqn:Hcount].
    + apply geb_true in Hburst.
      specialize (IH entry (<[getKey ip endpoint := entry]> store)
                    (lookup_insert_eq _ _ _) Hrest).
      destruct (checks ip endpoint config times _) as [rs store2].
      unfold admitted in *. simpl in *. rewrite IH. unfold capacity. lia.
    + apply geb_true in Hcount.
      specialize (IH entry (<[getKey ip endpoint := entry]> store)
                    (lookup_insert_eq _ _ _) Hrest).
      destruct (checks ip endpoint config times _) as [rs store2].
      unfold admitted in *. simpl in *. rewrite IH. unfold capacity. lia.
    + apply geb_false in Hburst. apply geb_false in Hcount.
      specialize (IH (increment entry)
                    (<[getKey ip endpoint := increment entry]> store)
                    (lookup_insert_eq _ _ _) Hrest).
      destruct (checks ip endpoint config times _) as [rs store2].
      unfold admitted in *. simpl in *. rewrite IH. unfold capacity. simpl. lia.
Qed.

(** Quotas of one window.  A caller with no entry makes a first check at
    [t0] and more checks, in any order, before [t0 + burstWindow] and
    before [t0 + 60000].  The number of checks admitted is exactly the
    smallest of the number of checks, [burstLimit] and [perMinute]: never
    more than either quota, and none is refused while both quotas last. *)
Theorem window_admissions ip endpoint config t0 (times : list Z) store :
  store !! getKey ip endpoint = None ->
  0 < burstWindow config ->
  Forall (fun t => t < t0 + burstWindow config /\ t < t0 + 60000) times ->
  admitted (fst (checks ip endpoint config (t0 :: times) store))
  = Z.to_nat (Z.min (Z.of_nat (S (length times)))
                    (Z.min (burstLimit config) (perMinute config))).
Proof.
  intros Hnone Hwindow Hlive.
  pose proof (checks_admitted_live ip endpoint config (t0 :: times)
                (fresh_entry config t0)
                (<[getKey ip endpoint := fresh_entry config t0]> store)
                (lookup_insert_eq _ _ _)) as Hlemma.
  assert (Hsame : fst (checks ip endpoint config (t0 :: times)
                         (<[getKey ip endpoint := fresh_entry config t0]> store))
                  = fst (checks ip endpoint config (t0 :: times) store)).
  { cbn [checks].
    assert (Hcur : current_entry config t0
                     (<[getKey ip endpoint := fresh_entry config t0]> store
                        !! getKey ip endpoint)
                   = current_entry config t0 (store !! getKey ip endpoint)).
    { rewrite lookup_insert_eq, Hnone, current_entry_fresh by done.
      apply current_entry_live; simpl; lia. }
    unfold checkRateLimit. rewrite Hcur.
    repeat case_match; simplify_eq; simpl in *;
      rewrite insert_insert_eq in *; congruence. }
  rewrite <- Hsame, Hlemma.
  - unfold capacity. simpl. f_equal. lia.
  - constructor; [simpl; lia|].
    eapply Forall_impl; [exact Hlive|]. simpl. lia.
Qed.

(** The chat policy: of seven checks within ten seconds five are
    admitted. *)
Lemma window_admissions_witness :
  admitted (fst (checks "203.0.113.7" "chat" RATE_LIMITS_chat
                   [0; 1; 2; 3; 4; 5; 6] ∅)) = 5%nat.
Proof.
  refine (eq_trans
            (window_admissions "203.0.113.7" "chat" RATE_LIMITS_chat 0
               [1; 2; 3; 4; 5; 6] ∅ _ _ _) _).
  - by vm_compute.
  - by vm_compute.
  - vm_compute. repeat constructor.
  - by vm_compute.
Defined.

(** *** Rejections and the reset time they name *)

Lemma blocked_rejects ip endpoint config now until store entry :
  store !! getKey ip endpoint = Some entry ->
  blocked config until entry ->
  now < until ->
  allowed (fst (checkRateLimit ip endpoint config now store)) = false
  /\ exists entry',
       snd (checkRateLimit ip endpoint config now store) !! getKey ip endpoint
       = Some entry'
       /\ blocked config until entry'.
Proof.
  intros Hfound Hblocked Hnow. unfold checkRateLimit. rewrite Hfound.
  unfold current_entry.
  destruct Hblocked as [[Hcount Huntil] | [Hcount Huntil]].
  - (* the burst window is still running: the burst count is kept *)
    assert (Hb : forall e, burstCount e = burstCount entry ->
                           burstResetTime e = burstResetTime entry ->
                           reset_burst config now e = e).
    { intros e _ Ht. unfold reset_burst.
      assert ((now >=? burstResetTime e) = false) as ->
        by (apply geb_false; lia). reflexivity. }
    assert (Hw : burstCount (reset_window now entry) = burstCount entry
                 /\ burstResetTime (reset_window now entry) = burstResetTime entry).
    { unfold reset_window. by destruct (now >=? resetTime entry). }
    destruct Hw as [Hw1 Hw2]. rewrite (Hb _ Hw1 Hw2).
    assert ((burstCount (reset_window now entry) >=? burstLimit config) = true)
      as -> by (apply geb_true; lia).
    simpl. split; [done|]. rewrite lookup_insert_eq. eexists. split; [done|].
    left. lia.
  - (* the minute window is still running: the count is kept *)
    assert (Hw : reset_window now entry = entry).
    { unfold reset_window.
      assert ((now >=? resetTime entry) = false) as ->
        by (apply geb_false; lia). reflexivity. }
    rewrite Hw.
    assert (Hb : count (reset_burst config now entry) = count entry
                 /\ resetTime (reset_burst config now entry) = resetTime entry).
    { unfold reset_burst. by destruct (now >=? burstResetTime entry). }
    destruct Hb as [Hb1 Hb2].
    destruct (burstCount (reset_burst config now entry) >=? burstLimit config).
    + simpl. split; [done|]. rewrite lookup_insert_eq. eexists. split; [done|].
      right. lia.
    + assert ((count (reset_burst config now entry) >=? perMinute config) = true)
        as -> by (apply geb_true; lia).
      simpl. split; [done|]. rewrite lookup_insert_eq. eexists. split; [done|].
      right. lia.
Qed.

Lemma blocked_checks ip endpoint config until : forall times store entry,
  store !! getKey ip endpoint = Some entry ->
  blocked config until entry ->
  Forall (fun t => t < until) times ->
  Forall (fun r => allowed r = false)
         (fst (checks ip endpoint config times store)).
Proof.
  induction times as [|t times IH]; intros store entry Hfound Hblocked Htimes;
    [constructor|].
  apply Forall_cons in Htimes as [Ht Hrest]. cbn [checks].
  destruct (blocked_rejects ip endpoint config t until store entry Hfound Hblocked Ht)
    as (Hrej & entry' & Hfound' & Hblocked').
  destruct (checkRateLimit ip endpoint config t store) as [r store1].
  specialize (IH store1 entry' Hfound' Hblocked' Hrest).
  destruct (checks ip endpoint config times store1) as [rs store2].
  simpl in *. by constructor.
Qed.

(** The reset time of a rejection is exact for the limit it names.  When
    a check is rejected and names the reset time [R], every further check
    of that caller under the same policy before [R] is rejected as well,
    however many there are: retrying early never helps.  From [R] on the
    limit that caused the rejection is lifted (as long as the policy's
    limits are positive): after a burst rejection the next check at or
    after [R] is not a burst rejection, and after a per-minute rejection
    it is not a per-minute rejection. *)
Theorem rejection_until_reset ip endpoint config now store (R : Z) :
  let r := fst (checkRateLimit ip endpoint config now store) in
  let store1 := snd (checkRateLimit ip endpoint config now store) in
  allowed r = false ->
  res_resetTime r = Some R ->
  (forall times,
      Forall (fun t => t < R) times ->
      Forall (fun r' => allowed r' = false)
             (fst (checks ip endpoint config times store1)))
  /\ (forall later,
        R <= later ->
        let r' := fst (checkRateLimit ip endpoint config later store1) in
        (error r = Some burst_message -> 0 < burstLimit config ->
         error r' <> Some burst_message)
        /\ (error r = Some sustained_message -> 0 < perMinute config ->
            error r' <> Some sustained_message)).
Proof.
  intros r store1 Hrej HR. subst r store1.
  set (entry := current_entry config now (store !! getKey ip endpoint)).
  assert (Hcases :
    (burstLimit config <= burstCount entry /\ R = burstResetTime entry
     /\ error (fst (checkRateLimit ip endpoint config now store)) = Some burst_message)
    \/ (burstCount entry < burstLimit config /\ perMinute config <= count entry
        /\ R = resetTime entry
        /\ error (fst (checkRateLimit ip endpoint config now store))
           = Some sustained_message)).
  { revert Hrej HR. unfold checkRateLimit. fold entry.
    destruct (burstCount entry >=? burstLimit config) eqn:Hb;
      [|destruct (count entry >=? perMinute config) eqn:Hc]; simpl; intros Hrej HR.
    - apply geb_true in Hb. left. simplify_eq. done.
    - apply geb_true in Hc. apply geb_false in Hb. right. simplify_eq. done.
    - done. }
  assert (Hstore : snd (checkRateLimit ip endpoint config now store)
                     !! getKey ip endpoint = Some entry).
  { revert Hrej. unfold checkRateLimit. fold entry.
    repeat case_match; simpl; try done; intros _; apply lookup_insert_eq. }
  split.
  - intros times Htimes. eapply blocked_checks; [exact Hstore| |exact Htimes].
    destruct Hcases as [(Hb & -> & _) | (_ & Hc & -> & _)];
      [left | right]; lia.
  - intros later Hlater r'. subst r'.
    set (r0 := fst (checkRateLimit ip endpoint config now store)) in *.
    set (s1 := snd (checkRateLimit ip endpoint config now store)) in *.
    unfold checkRateLimit. rewrite Hstore.
    set (e' := current_entry config later (Some entry)).
    assert (burst_message <> sustained_message) as Hdiff by discriminate.
    split; intros Herr Hpos.
    + destruct Hcases as [(Hb & -> & _) | (_ & _ & _ & Herr')];
        [|rewrite Herr in Herr'; congruence].
      assert (Hzero : burstCount e' = 0).
      { unfold e', current_entry, reset_burst.
        assert (Hkeep : burstResetTime (reset_window later entry)
                        = burstResetTime entry)
          by (unfold reset_window; by destruct (later >=? resetTime entry)).
        rewrite Hkeep.
        assert ((later >=? burstResetTime entry) = true) as ->
          by (apply geb_true; lia). reflexivity. }
      assert ((burstCount e' >=? burstLimit config) = false) as ->
        by (apply geb_false; lia).
      destruct (count e' >=? perMinute config); simpl; congruence.
    + destruct Hcases as [(_ & _ & Herr') | (_ & Hc & -> & _)];
        [rewrite Herr in Herr'; congruence|].
      assert (Hzero : count e' = 0).
      { unfold e', current_entry.
        assert (Hw : reset_window later entry
                     = mkEntry 0 (later + 60000) (burstCount entry)
                               (burstResetTime entry)).
        { unfold reset_window.
          assert ((later >=? resetTime entry) = true) as ->
            by (apply geb_true; lia). reflexivity. }
        rewrite Hw. unfold reset_burst. by case_match. }
      destruct (burstCount e' >=? burstLimit config); simpl; [congruence|].
      assert ((count e' >=? perMinute config) = false) as ->
        by (apply geb_false; lia).
      simpl. congruence.
Qed.

(** After five admissions under the chat policy the sixth check, at 5 ms,
    is rejected until 10000: three more checks before that time are
    rejected, and the check at 10000 is admitted. *)
Lemma rejection_until_reset_witness :
  let store5 := snd (checks "203.0.113.7" "chat" RATE_LIMITS_chat [0; 1; 2; 3; 4] ∅) in
  let store6 := snd (checkRateLimit "203.0.113.7" "chat" RATE_LIMITS_chat 5 store5) in
  Forall (fun r => allowed r = false)
    (fst (checks "203.0.113.7" "chat" RATE_LIMITS_chat [6; 5000; 9999] store6))
  /\ error (fst (checkRateLimit "203.0.113.7" "chat" RATE_LIMITS_chat 10000 store6))
     <> Some burst_message.
Proof.
  intros store5 store6.
  destruct (rejection_until_reset "203.0.113.7" "chat" RATE_LIMITS_chat 5 store5 10000)
    as [Hearly Hlate]; [by vm_compute | by vm_compute |].
  split.
  - apply Hearly. repeat constructor.
  - destruct (Hlate 10000) as [Hburst _]; [lia|].
    apply Hburst; by vm_compute.
Defined.

(** *** The sweep *)

Lemma cleanup_lookup_exact now store key :
  cleanup now store !! key
  = match store !! key with
    | Some e => if expired now e then None else Some e
    | None => None
    end.
Proof.
  unfold cleanup. destruct (store !! key) as [e|] eqn:He.
  - destruct (expired now e) eqn:Hx.
    + apply map_lookup_filter_None. right. intros e' He' Hn. simpl in Hn.
      rewrite He in He'. congruence.
    + apply map_lookup_filter_Some. by split.
  - apply map_lookup_filter_None. by left.
Qed.

(** The sweep deletes exactly the entries whose two windows are in the
    past and keeps every other entry as it is.  Sweeps compose: a sweep
    followed by a later sweep leaves what the later sweep alone leaves,
    so sweeping twice at the same time is sweeping once; and a sweep
    never adds an entry. *)
Theorem cleanup_laws now later store :
  now <= later ->
  cleanup later (cleanup now store) = cleanup later store
  /\ cleanup now (cleanup now store) = cleanup now store
  /\ (forall key entry,
        cleanup now store !! key = Some entry <->
        store !! key = Some entry
        /\ (now <= resetTime entry \/ now <= burstResetTime entry))
  /\ (size (cleanup now store) <= size store)%nat.
Proof.
  intros Hle.
  assert (Hcompose : forall t1 t2, t1 <= t2 ->
            cleanup t2 (cleanup t1 store) = cleanup t2 store).
  { intros t1 t2 H12. apply map_eq. intros key.
    rewrite !cleanup_lookup_exact.
    destruct (store !! key) as [e|]; [|done].
    destruct (expired t1 e) eqn:H1; [|done].
    by rewrite (expired_mono t1 t2 e H12 H1). }
  split; [by apply Hcompose|]. split; [apply Hcompose; lia|]. split.
  - intros key entry. rewrite cleanup_lookup_exact.
    destruct (store !! key) as [e|]; [|by split; [|intros [? _]]].
    unfold expired.
    destruct (Z.ltb_spec (resetTime e) now), (Z.ltb_spec (burstResetTime e) now);
      simpl; split; try (intros [= <-]; split; [done | lia]);
      try (intros [[= <-] ?]; done); try done.
    intros [[= <-] [? | ?]]; lia.
  - unfold cleanup. apply map_subseteq_size, map_filter_subseteq.
Qed.

Lemma cleanup_laws_witness :
  let store :=
    <[ "a:chat" := mkEntry 3 60000 3 10000 ]>
      (<[ "b:chat" := mkEntry 1 100000 1 50000 ]> (∅ : gmap string RateLimitEntry)) in
  cleanup 90000 (cleanup 70000 store) = cleanup 90000 store
  /\ cleanup 70000 store !! "a:chat" = None
  /\ cleanup 70000 store !! "b:chat" = Some (mkEntry 1 100000 1 50000).
Proof.
  intros store.
  destruct (cleanup_laws 70000 90000 store) as (Hcompose & _ & Hkeep & _); [lia|].
  split; [exact Hcompose|]. split; [by vm_compute|].
  apply Hkeep. split; [by vm_compute | left; simpl; lia].
Defined.

(** *** The quota query *)

(** For a policy of 30 requests per minute, such as the chat policy,
    [getRemainingRequests] agrees with the check: after an admission it
    returns, at any time before the reset time the check reported, the
    [remaining] the check reported. *)
Theorem getRemainingRequests_agrees ip endpoint config now later store (R : Z) :
  let r := fst (checkRateLimit ip endpoint config now store) in
  let store1 := snd (checkRateLimit ip endpoint config now store) in
  perMinute config = 30 ->
  allowed r = true ->
  res_resetTime r = Some R ->
  later < R ->
  remaining r = Some (getRemainingRequests ip endpoint later store1).
Proof.
  intros r store1 Hlimit Hallowed HR Hlater. subst r store1.
  revert Hallowed HR. unfold checkRateLimit, getRemainingRequests.
  set (entry := current_entry config now (store !! getKey ip endpoint)).
  destruct (burstCount entry >=? burstLimit config); [done|].
  destruct (count entry >=? perMinute config) eqn:Hcount; [done|].
  apply geb_false in Hcount. simpl. intros _ [= <-].
  rewrite lookup_insert_eq. simpl.
  assert ((later >=? resetTime entry) = false) as -> by (apply geb_false; lia).
  f_equal. lia.
Qed.

Lemma getRemainingRequests_agrees_witness :
  remaining (fst (checkRateLimit "203.0.113.7" "chat" RATE_LIMITS_chat 0 ∅))
  = Some (getRemainingRequests "203.0.113.7" "chat" 59999
            (snd (checkRateLimit "203.0.113.7" "chat" RATE_LIMITS_chat 0 ∅))).
Proof.
  apply (getRemainingRequests_agrees "203.0.113.7" "chat" RATE_LIMITS_chat 0 59999 ∅ 60000);
    by vm_compute.
Defined.

End RateLimiterCoverage.

(* ===================================================================== *)
(** ** Lemmas on strings *)
(* ===================================================================== *)

Section StringLemmas.

Lemma append_cons (x : ascii) (a b : string) :
  String x a +:+ b = String x (a +:+ b).
Proof. reflexivity. Qed.

Lemma append_assoc (a b c : string) : (a +:+ b) +:+ c = a +:+ (b +:+ c).
Proof.
  induction a as [|x a IH]; [reflexivity|].
  rewrite !append_cons. f_equal. exact IH.
Qed.

Lemma append_empty_r (a : string) : a +:+ "" = a.
Proof.
  induction a as [|x a IH]; [reflexivity|].
  rewrite append_cons. f_equal. exact IH.
Qed.

Lemma length_append (a b : string) :
  String.length (a +:+ b) = (String.length a + String.length b)%nat.
Proof.
  induction a as [|x a IH]; [reflexivity|].
  rewrite append_cons. cbn [String.length]. rewrite IH. reflexivity.
Qed.

Lemma append_inj_l (a x y : string) : a +:+ x = a +:+ y -> x = y.
Proof.
  induction a as [|c a IH]; [intros H; exact H|].
  rewrite !append_cons. intros H. injection H as H. exact (IH H).
Qed.

Lemma append_inj_r (a b c : string) : a +:+ c = b +:+ c -> a = b.
Proof.
  intros H.
  assert (Hl : String.length a = String.length b).
  { apply (f_equal String.length) in H. rewrite !length_append in H. lia. }
  revert b H Hl. induction a as [|x a IH]; intros [|y b] H Hl; try discriminate.
  - reflexivity.
  - rewrite !append_cons in H.
    injection H as -> H. f_equal. apply IH; [exact H|]. cbn in Hl. lia.
Qed.

Lemma append_nonempty_l (a b : string) : a <> "" -> a +:+ b <> "".
Proof. destruct a; [congruence|]. intros _. discriminate. Qed.

Lemma append_nonempty_r (a b : string) : b <> "" -> a +:+ b <> "".
Proof. destruct a; [intros H; exact H|]. intros _. discriminate. Qed.

End StringLemmas.

(* ===================================================================== *)
(** ** The address of the client: properties *)
(* ===================================================================== *)

Section ClientAddressProperties.

Import ClientAddress.

Lemma trimEnd_blank_white c rest :
  trimEnd (String c rest) = "" -> is_white c = true /\ trimEnd rest = "".
Proof.
  cbn [trimEnd]. destruct (trimEnd rest); [|discriminate].
  destruct (is_white c); [auto|discriminate].
Qed.

Lemma trim_blank_trimStart s : trim s = "" -> trimStart s = "".
Proof.
  unfold trim. induction s as [|c s IH]; [reflexivity|].
  cbn [trimStart]. destruct (is_white c) eqn:Hc; [exact IH|].
  intros H. apply trimEnd_blank_white in H. destruct H as [H _]. congruence.
Qed.

Lemma trimStart_blank_trimEnd s : trimStart s = "" -> trimEnd s = "".
Proof.
  induction s as [|c s IH]; [reflexivity|].
  cbn [trimStart trimEnd]. destruct (is_white c) eqn:Hc; [|discriminate].
  intros H. rewrite (IH H). reflexivity.
Qed.

Lemma trimStart_blank_app pad s : trimStart pad = "" -> trimStart (pad +:+ s) = trimStart s.
Proof.
  induction pad as [|c pad IH]; [reflexivity|].
  rewrite append_cons. cbn [trimStart].
  destruct (is_white c); [exact IH|discriminate].
Qed.

Lemma trimEnd_app_blank s pad : trimEnd pad = "" -> trimEnd (s +:+ pad) = trimEnd s.
Proof.
  intros Hpad. induction s as [|c s IH]; [exact Hpad|].
  rewrite append_cons. cbn [trimEnd]. rewrite IH. reflexivity.
Qed.

Lemma is_white_not_comma c : is_white c = true -> Ascii.eqb "," c = false.
Proof.
  intros H. destruct (Ascii.eqb_spec "," c) as [<-|]; [|reflexivity].
  vm_compute in H. discriminate.
Qed.

Lemma blank_no_comma pad : trimStart pad = "" -> RateLimiter.contains "," pad = false.
Proof.
  induction pad as [|c pad IH]; [reflexivity|].
  cbn [trimStart RateLimiter.contains].
  destruct (is_white c) eqn:Hc; [|discriminate].
  intros H. rewrite (is_white_not_comma c Hc), (IH H). reflexivity.
Qed.

Lemma eqb_comma c : (nat_of_ascii c =? 44)%nat = Ascii.eqb "," c.
Proof.
  destruct (Ascii.eqb_spec "," c) as [<-|Hne]; [reflexivity|].
  apply Nat.eqb_neq. intros H. apply Hne.
  rewrite <- (ascii_nat_embedding c), H. reflexivity.
Qed.

Lemma first_of_list_all s : RateLimiter.contains "," s = false -> first_of_list s = s.
Proof.
  induction s as [|c s IH]; [reflexivity|].
  cbn [first_of_list RateLimiter.contains]. rewrite eqb_comma.
  destruct (Ascii.eqb "," c); [discriminate|].
  cbn [orb]. intros H. rewrite (IH H). reflexivity.
Qed.

Lemma first_of_list_app s tail :
  RateLimiter.contains "," s = false -> first_of_list (s +:+ "," +:+ tail) = s.
Proof.
  induction s as [|c s IH]; [reflexivity|].
  rewrite append_cons. cbn [first_of_list RateLimiter.contains]. rewrite eqb_comma.
  destruct (Ascii.eqb "," c); [discriminate|].
  cbn [orb]. intros H. rewrite (IH H). reflexivity.
Qed.

Lemma first_of_list_no_comma s : RateLimiter.contains "," (first_of_list s) = false.
Proof.
  induction s as [|c s IH]; [reflexivity|].
  cbn [first_of_list]. rewrite eqb_comma.
  destruct (Ascii.eqb "," c) eqn:Hc; [reflexivity|].
  cbn [RateLimiter.contains]. rewrite Hc, IH. reflexivity.
Qed.

Lemma trimStart_length s : (String.length (trimStart s) <= String.length s)%nat.
Proof.
  induction s as [|c s IH]; [reflexivity|].
  cbn [trimStart]. destruct (is_white c); cbn [String.length]; lia.
Qed.

Lemma trimEnd_length s : (String.length (trimEnd s) <= String.length s)%nat.
Proof.
  induction s as [|c s IH]; [reflexivity|].
  cbn [trimEnd]. destruct (trimEnd s); [destruct (is_white c)|]; cbn [String.length] in *; lia.
Qed.

Lemma trim_fixed s : trim s = s -> trimStart s = s /\ trimEnd s = s.
Proof.
  intros H. assert (Hs : trimStart s = s).
  { destruct s as [|c s]; [reflexivity|].
    cbn [trimStart]. destruct (is_white c) eqn:Hc; [|reflexivity].
    exfalso. unfold trim in H. cbn [trimStart] in H. rewrite Hc in H.
    pose proof (trimEnd_length (trimStart s)) as H1.
    pose proof (trimStart_length s) as H2.
    rewrite H in H1. cbn [String.length] in H1. lia. }
  split; [exact Hs|]. unfold trim in H. rewrite Hs in H. exact H.
Qed.

Lemma trimStart_idem s : trimStart (trimStart s) = trimStart s.
Proof.
  induction s as [|c s IH]; [reflexivity|].
  cbn [trimStart]. destruct (is_white c) eqn:Hc; [exact IH|].
  cbn [trimStart]. rewrite Hc. reflexivity.
Qed.

Lemma trimEnd_idem s : trimEnd (trimEnd s) = trimEnd s.
Proof.
  induction s as [|c s IH]; [reflexivity|].
  cbn [trimEnd]. destruct (trimEnd s) as [|d k] eqn:Hk.
  - destruct (is_white c) eqn:Hc; [reflexivity|]. cbn [trimEnd]. rewrite Hc. reflexivity.
  - cbn [trimEnd]. cbn [trimEnd] in IH. 
    destruct (trimEnd k) as [|d' k'] eqn:Hk'.
    + destruct (is_white d); [discriminate|]. rewrite IH. reflexivity.
    + rewrite IH. reflexivity.
Qed.

Lemma trimStart_trimEnd s : trimStart (trimEnd s) = trimEnd (trimStart s).
Proof.
  induction s as [|c s IH]; [reflexivity|].
  cbn [trimStart]. destruct (is_white c) eqn:Hc.
  - rewrite <- IH. cbn [trimEnd]. destruct (trimEnd s) as [|d k] eqn:Hk.
    + rewrite Hc. reflexivity.
    + cbn [trimStart]. rewrite Hc. reflexivity.
  - cbn [trimEnd]. destruct (trimEnd s) as [|d k] eqn:Hk.
    + rewrite Hc. cbn [trimStart]. rewrite Hc. reflexivity.
    + cbn [trimStart]. rewrite Hc. reflexivity.
Qed.

Lemma trim_idem s : trim (trim s) = trim s.
Proof.
  unfold trim. rewrite trimStart_trimEnd, trimStart_idem, trimEnd_idem. reflexivity.
Qed.

Lemma trimStart_no_comma s :
  RateLimiter.contains "," s = false -> RateLimiter.contains "," (trimStart s) = false.
Proof.
  induction s as [|c s IH]; [reflexivity|].
  cbn [trimStart]. destruct (is_white c); [|auto].
  cbn [RateLimiter.contains]. intros H. apply orb_false_elim in H. apply IH, H.
Qed.

Lemma trimEnd_no_comma s :
  RateLimiter.contains "," s = false -> RateLimiter.contains "," (trimEnd s) = false.
Proof.
  induction s as [|c s IH]; [reflexivity|].
  cbn [trimEnd RateLimiter.contains]. intros H. apply orb_false_elim in H.
  destruct H as [Hc Hs]. specialize (IH Hs).
  destruct (trimEnd s) as [|d k].
  - destruct (is_white c); [reflexivity|]. cbn [RateLimiter.contains]. rewrite Hc. reflexivity.
  - cbn [RateLimiter.contains] in *. rewrite Hc, IH. reflexivity.
Qed.

End ClientAddressProperties.

Section ClientAddressCoverage.

Import ClientAddress.

Lemma getClientIP_forwarded f realIP :
  f <> "" -> getClientIP (Some f) realIP = trim (first_of_list f).
Proof. destruct f; [congruence|reflexivity]. Qed.

Lemma trimStart_fixed_app a b :
  a <> "" -> trimStart a = a -> trimStart (a +:+ b) = a +:+ b.
Proof.
  destruct a as [|c a]; [congruence|]. intros _.
  rewrite append_cons. cbn [trimStart].
  destruct (is_white c) eqn:Hc; [|reflexivity].
  intros H. exfalso. pose proof (trimStart_length a) as Hl.
  rewrite H in Hl. cbn [String.length] in Hl. lia.
Qed.

(** The address of a client is the first entry of [x-forwarded-for],
    without the white space around it and whatever [x-real-ip] says: an
    address [a] padded with blanks is read back as [a], alone or followed
    by further entries.  A blank first entry gives the empty address. *)
Theorem getClientIP_first_forwarded pad1 a pad2 tail realIP :
  trim pad1 = "" -> trim pad2 = "" ->
  a <> "" -> trim a = a -> RateLimiter.contains "," a = false ->
  getClientIP (Some (pad1 +:+ a +:+ pad2 +:+ "," +:+ tail)) realIP = a /\
  getClientIP (Some (pad1 +:+ a +:+ pad2)) realIP = a /\
  getClientIP (Some (pad1 +:+ "," +:+ tail)) realIP = "".
Proof.
  intros Hp1 Hp2 Ha Hfix Hcomma.
  apply trim_blank_trimStart in Hp1, Hp2.
  destruct (trim_fixed a Hfix) as [Hstart Hend].
  assert (Hnc : RateLimiter.contains "," (pad1 +:+ a +:+ pad2) = false).
  { rewrite !contains_append, Hcomma, !blank_no_comma by assumption. reflexivity. }
  assert (Htrim : trim (pad1 +:+ a +:+ pad2) = a).
  { unfold trim. rewrite trimStart_blank_app by exact Hp1.
    rewrite trimStart_fixed_app by assumption.
    rewrite trimEnd_app_blank by (apply trimStart_blank_trimEnd, Hp2).
    exact Hend. }
  split; [|split].
  - rewrite getClientIP_forwarded
      by (apply append_nonempty_r, append_nonempty_l, Ha).
    replace (pad1 +:+ a +:+ pad2 +:+ "," +:+ tail)
      with ((pad1 +:+ a +:+ pad2) +:+ "," +:+ tail)
      by (rewrite !append_assoc; reflexivity).
    rewrite first_of_list_app by exact Hnc. exact Htrim.
  - rewrite getClientIP_forwarded
      by (apply append_nonempty_r, append_nonempty_l, Ha).
    rewrite first_of_list_all by exact Hnc. exact Htrim.
  - rewrite getClientIP_forwarded
      by (apply append_nonempty_r, append_nonempty_l; discriminate).
    rewrite first_of_list_app by (apply blank_no_comma, Hp1).
    unfold trim. rewrite Hp1. reflexivity.
Qed.

Lemma getClientIP_first_forwarded_witness :
  getClientIP (Some (" " +:+ "203.0.113.7" +:+ " " +:+ "," +:+ " 10.0.0.1"))
    (Some "198.51.100.2") = "203.0.113.7" /\
  getClientIP (Some (" " +:+ "203.0.113.7" +:+ " ")) (Some "198.51.100.2")
    = "203.0.113.7" /\
  getClientIP (Some (" " +:+ "," +:+ " 10.0.0.1")) (Some "198.51.100.2") = "".
Proof.
  apply (getClientIP_first_forwarded " " "203.0.113.7" " " " 10.0.0.1"
           (Some "198.51.100.2"));
    solve [reflexivity | discriminate].
Defined.

End ClientAddressCoverage.

(* ===================================================================== *)
(** ** The API service of the chat component: properties *)
(* ===================================================================== *)

Section UtilsApiServiceProperties.

Import UtilsApiService.

Lemma attempt_le_finite attempt q :
  attempt_le attempt (Finite q) = true <-> Z.of_nat attempt <= Qfloor q.
Proof.
  cbn [attempt_le]. rewrite Qle_bool_iff. split.
  - intros H. apply Z.lt_succ_r. rewrite Zlt_Qlt.
    eapply Qle_lt_trans; [exact H|].
    replace (Z.succ (Qfloor q)) with (Qfloor q + 1) by lia. apply Qlt_floor.
  - intros H. eapply Qle_trans; [|apply Qfloor_le]. rewrite <- Zle_Qle. exact H.
Qed.

Lemma attempt_eq_integer attempt q n :
  (q == inject_Z n)%Q ->
  attempt_eq attempt (Finite q) = (Z.of_nat attempt =? n).
Proof.
  intros Hq. cbn [attempt_eq].
  destruct (Z.eqb_spec (Z.of_nat attempt) n) as [->|Hne].
  - apply Qeq_bool_iff. symmetry. exact Hq.
  - apply not_true_is_false. intros H. apply Qeq_bool_iff in H.
    rewrite Hq in H. apply Hne. apply inject_Z_injective. exact H.
Qed.

Lemma attempt_le_integer attempt q n :
  (q == inject_Z n)%Q ->
  attempt_le attempt (Finite q) = (Z.of_nat attempt <=? n).
Proof.
  intros Hq. cbn [attempt_le].
  destruct (Z.leb_spec (Z.of_nat attempt) n) as [Hle|Hgt].
  - apply Qle_bool_iff. rewrite Hq, <- Zle_Qle. exact Hle.
  - apply not_true_is_false. intros H. apply Qle_bool_iff in H.
    rewrite Hq, <- Zle_Qle in H. lia.
Qed.

Lemma attempt_lt_spec attempt m :
  attempt_lt attempt m = attempt_le attempt m && negb (attempt_eq attempt m).
Proof. destruct m; reflexivity. Qed.

Lemma attempt_eq_le attempt m :
  attempt_eq attempt m = true -> attempt_le attempt m = true.
Proof.
  destruct m as [q| | |]; try discriminate. cbn.
  intros H. apply Qeq_bool_iff in H. apply Qle_bool_iff. rewrite H. apply Qle_refl.
Qed.

Lemma attempt_eq_floor attempt q :
  attempt_eq attempt (Finite q) = true -> Qfloor q = Z.of_nat attempt.
Proof.
  cbn. intros H. apply Qeq_bool_iff in H. rewrite <- H. apply Qfloor_Z.
Qed.

Variable svc : ApiService.
Variable env : nat -> FetchOutcome.

Lemma attempts_over fuel attempt last :
  attempt_le attempt (maxRetries svc) = false ->
  attempts fuel svc env attempt last = Some (Object (all_retries_failed last), []).
Proof. intros H. destruct fuel; cbn [attempts]; rewrite H; reflexivity. Qed.

Lemma attempts_retry fuel attempt last m :
  attempt_le attempt (maxRetries svc) = true ->
  attempt_eq attempt (maxRetries svc) = false ->
  retried (env attempt) = Some m ->
  attempts (S fuel) svc env attempt last =
  match attempts fuel svc env (S attempt) (Some m) with
  | Some (res, effects) =>
      Some (res, Fetch :: Delay (retryDelay svc * 2 ^ Z.of_nat attempt) :: effects)
  | None => None
  end.
Proof.
  intros Hle Heq Hm.
  cbn [attempts]. rewrite Hle, Heq, attempt_lt_spec, Hle, Heq. cbn [andb negb].
  unfold retried in Hm.
  destruct (env attempt) as [r|[|message]].
  - destruct (negb (ok r) && (status r >=? 500)).
    + injection Hm as <-. reflexivity.
    + destruct (negb (ok r) && (status r >=? 400)).
      * destruct (body r); try discriminate. injection Hm as <-. reflexivity.
      * destruct (body r); try discriminate. injection Hm as <-. reflexivity.
  - discriminate.
  - injection Hm as <-. reflexivity.
Qed.

Lemma attempts_last fuel attempt last m :
  attempt_eq attempt (maxRetries svc) = true ->
  retried (env attempt) = Some m ->
  attempts (S fuel) svc env attempt last =
  Some (Object (all_retries_failed (Some m)), [Fetch]).
Proof.
  intros Heq Hm.
  cbn [attempts]. rewrite (attempt_eq_le _ _ Heq), Heq.
  unfold retried in Hm.
  destruct (env attempt) as [r|[|message]].
  - destruct (negb (ok r) && (status r >=? 500)).
    + injection Hm as <-. reflexivity.
    + destruct (negb (ok r) && (status r >=? 400)).
      * destruct (body r); try discriminate. injection Hm as <-. reflexivity.
      * destruct (body r); try discriminate. injection Hm as <-. reflexivity.
  - discriminate.
  - injection Hm as <-. reflexivity.
Qed.

(** What a decisive attempt returns. *)
Lemma attempts_decisive fuel attempt last :
  attempt_le attempt (maxRetries svc) = true ->
  retried (env attempt) = None ->
  attempts (S fuel) svc env attempt last =
  match env attempt with
  | Responds r =>
      match body r with
      | Parsed data =>
          if negb (ok r) && (status r >=? 400)
          then Some (Object
                       {| response := "";
                          error := Some (ApiService.or_else (error data)
                                   ("Request failed with status " +:+ pretty (status r))) |},
                     [Fetch])
          else Some (Object data, [Fetch])
      | ParsedNull _ => Some (Null, [Fetch])
      | Unparseable _ =>
          Some (Object
                  {| response := "";
                     error := Some ("Request failed with status " +:+ pretty (status r)) |},
                [Fetch])
      end
  | Rejects _ => Some (Object timed_out, [Fetch])
  end.
Proof.
  intros Hle Hm.
  cbn [attempts]. rewrite Hle.
  unfold retried in Hm.
  destruct (env attempt) as [r|[|message]]; [| reflexivity | discriminate].
  destruct (negb (ok r) && (status r >=? 500)); [discriminate|].
  destruct (negb (ok r) && (status r >=? 400)).
  - destruct (body r); (reflexivity || discriminate).
  - destruct (body r); (reflexivity || discriminate).
Qed.

Lemma attempts_decisive_once attempt :
  attempt_le attempt (maxRetries svc) = true ->
  retried (env attempt) = None ->
  exists res, forall fuel last,
    attempts (S fuel) svc env attempt last = Some (res, [Fetch]).
Proof.
  intros Hle Hdec.
  pose proof (fun fuel last => attempts_decisive fuel attempt last Hle Hdec) as H.
  destruct (env attempt) as [r|e]; [|eexists; exact H].
  destruct (body r); [destruct (negb (ok r) && (status r >=? 400))| |];
    eexists; exact H.
Qed.

(** A decisive attempt below 400 whose body is [null]. *)
Lemma retried_null_status r complaint :
  retried (Responds r) = None -> body r = ParsedNull complaint -> status r < 400.
Proof.
  unfold retried. intros H Hb. rewrite Hb in H.
  destruct (negb (ok r) && (status r >=? 500)) eqn:H5; [discriminate|].
  destruct (negb (ok r) && (status r >=? 400)) eqn:H4; [discriminate|].
  unfold ok in *.
  destruct (Z.leb_spec 200 (status r)), (Z.leb_spec (status r) 299),
    (Z.geb_spec (status r) 400); cbn in H4; try discriminate; lia.
Qed.



Lemma sum_backoff from n :
  fold_right Z.add 0 (backoff svc from n) =
  retryDelay svc * 2 ^ Z.of_nat from * (2 ^ Z.of_nat n - 1).
Proof.
  revert from. induction n as [|n IH]; intros from.
  - cbn. lia.
  - cbn [backoff fold_right]. rewrite IH.
    rewrite !Nat2Z.inj_succ, !Z.pow_succ_r by lia. lia.
Qed.

Lemma attempts_exhaust q n k : forall attempt last,
  maxRetries svc = Finite q -> (q == inject_Z n)%Q ->
  Z.of_nat attempt + Z.of_nat k = n ->
  (forall i, Z.of_nat i <= n -> retried (env i) <> None) ->
  exists effects,
    (forall fuel, (k < fuel)%nat ->
       attempts fuel svc env attempt last =
         Some (Object (all_retries_failed (retried (env (attempt + k)%nat))), effects)) /\
    fetches effects = S k /\
    delays effects = backoff svc attempt k.
Proof.
  induction k as [|k IH]; intros attempt last Hm Hq Hsum Hall.
  - destruct (retried (env attempt)) as [m|] eqn:Hr;
      [|exfalso; apply (Hall attempt); [lia|exact Hr]].
    exists [Fetch]. split; [|auto].
    intros [|fuel] Hfuel; [lia|].
    rewrite (attempts_last fuel attempt last m).
    + rewrite Nat.add_0_r, Hr. reflexivity.
    + rewrite Hm, (attempt_eq_integer _ q n Hq). apply Z.eqb_eq. lia.
    + exact Hr.
  - destruct (retried (env attempt)) as [m|] eqn:Hr;
      [|exfalso; apply (Hall attempt); [lia|exact Hr]].
    destruct (IH (S attempt) (Some m)) as (effects & Hrun & Hf & Hd);
      [exact Hm | exact Hq | lia | exact Hall |].
    exists (Fetch :: Delay (retryDelay svc * 2 ^ Z.of_nat attempt) :: effects).
    split; [|split].
    + intros [|fuel] Hfuel; [lia|].
      rewrite (attempts_retry fuel attempt last m).
      * rewrite Hrun by lia.
        replace (attempt + S k)%nat with (S attempt + k)%nat by lia. reflexivity.
      * rewrite Hm, (attempt_le_integer _ q n Hq). apply Z.leb_le. lia.
      * rewrite Hm, (attempt_eq_integer _ q n Hq). apply Z.eqb_neq. lia.
      * exact Hr.
    + cbn; unfold fetches in Hf; cbn in Hf; rewrite Hf; reflexivity.
    + cbn. unfold delays in Hd. rewrite Hd. reflexivity.
Qed.

Lemma attempt_le_below attempt k m :
  attempt_le (attempt + S k) m = true ->
  attempt_le attempt m = true /\ attempt_eq attempt m = false.
Proof.
  destruct m as [q| | |]; try discriminate; [|auto].
  intros H. apply attempt_le_finite in H. split.
  - apply attempt_le_finite. lia.
  - apply not_true_is_false. intros He. apply attempt_eq_floor in He. lia.
Qed.

Lemma attempts_decide k : forall attempt last,
  attempt_le (attempt + k) (maxRetries svc) = true ->
  (forall i, (attempt <= i < attempt + k)%nat -> retried (env i) <> None) ->
  retried (env (attempt + k)%nat) = None ->
  exists res effects,
    (forall fuel, (k < fuel)%nat ->
       attempts fuel svc env attempt last = Some (res, effects)) /\
    attempts 1 svc env (attempt + k) None = Some (res, [Fetch]) /\
    fetches effects = S k /\
    delays effects = backoff svc attempt k.
Proof.
  induction k as [|k IH]; intros attempt last Hle Hpre Hdec.
  - rewrite Nat.add_0_r in *.
    destruct (attempts_decisive_once attempt Hle Hdec) as [res Hres].
    exists res, [Fetch]. split; [|auto].
    intros [|fuel] Hfuel; [lia|]. apply Hres.
  - destruct (retried (env attempt)) as [m|] eqn:Hm;
      [|exfalso; apply (Hpre attempt); [lia|exact Hm]].
    destruct (attempt_le_below attempt k _ Hle) as [Hle0 Heq0].
    destruct (IH (S attempt) (Some m)) as (res & effects & Hrun & Hone & Hf & Hd).
    + replace (S attempt + k)%nat with (attempt + S k)%nat by lia. exact Hle.
    + intros i Hi. apply Hpre. lia.
    + replace (S attempt + k)%nat with (attempt + S k)%nat by lia. exact Hdec.
    + exists res, (Fetch :: Delay (retryDelay svc * 2 ^ Z.of_nat attempt) :: effects).
      split; [|split; [|split]].
      * intros [|fuel] Hfuel; [lia|].
        rewrite (attempts_retry fuel attempt last m Hle0 Heq0 Hm).
        rewrite Hrun by lia. reflexivity.
      * replace (attempt + S k)%nat with (S attempt + k)%nat by lia. exact Hone.
      * cbn; unfold fetches in Hf; cbn in Hf; rewrite Hf; reflexivity.
      * cbn. unfold delays in Hd. rewrite Hd. reflexivity.
Qed.

(** With an infinite [maxRetries] and failures only, the loop goes on. *)
Lemma attempts_forever fuel : forall attempt last,
  maxRetries svc = Infinity ->
  (forall i, retried (env i) <> None) ->
  attempts fuel svc env attempt last = None.
Proof.
  induction fuel as [|fuel IH]; intros attempt last Hm Hall.
  - cbn [attempts]. rewrite Hm. reflexivity.
  - destruct (retried (env attempt)) as [m|] eqn:Hr; [|exfalso; exact (Hall attempt Hr)].
    rewrite (attempts_retry fuel attempt last m); [| rewrite Hm; reflexivity .. | exact Hr].
    rewrite IH by assumption. reflexivity.
Qed.

Lemma attempt_le_allowed attempt q :
  attempt_le attempt (Finite q) = true <->
  (attempt < attempts_allowed (Finite q))%nat.
Proof. rewrite attempt_le_finite. cbn [attempts_allowed]. lia. Qed.

(** Against failures only, a finite [maxRetries] allows as many fetches
    as there are whole numbers from 0 up to it. *)
Lemma attempts_all_retried q k : forall attempt last,
  maxRetries svc = Finite q ->
  (attempts_allowed (Finite q) - attempt = k)%nat ->
  (forall i, retried (env i) <> None) ->
  exists data effects,
    (forall fuel, (k < fuel)%nat ->
       attempts fuel svc env attempt last = Some (Object data, effects)) /\
    fetches effects = k /\
    (k = 0%nat -> data = all_retries_failed last /\ effects = []).
Proof.
  induction k as [|k IH]; intros attempt last Hm Hk Hall.
  - exists (all_retries_failed last), []. split; [|auto].
    intros fuel _. apply attempts_over. rewrite Hm.
    apply not_true_is_false. intros H. apply attempt_le_allowed in H. lia.
  - assert (Hle : attempt_le attempt (maxRetries svc) = true).
    { rewrite Hm. apply attempt_le_allowed. lia. }
    destruct (retried (env attempt)) as [m|] eqn:Hr; [|exfalso; exact (Hall attempt Hr)].
    destruct (attempt_eq attempt (maxRetries svc)) eqn:Heq.
    + exists (all_retries_failed (Some m)), [Fetch].
      split; [|split; [|discriminate]].
      * intros [|fuel] Hfuel; [lia|]. apply attempts_last; assumption.
      * rewrite Hm in Heq. apply attempt_eq_floor in Heq.
        cbn [attempts_allowed] in Hk. cbn. lia.
    + destruct (IH (S attempt) (Some m) Hm ltac:(lia) Hall)
        as (data & effects & Hrun & Hf & _).
      exists data, (Fetch :: Delay (retryDelay svc * 2 ^ Z.of_nat attempt) :: effects).
      split; [|split; [|discriminate]].
      * intros [|fuel] Hfuel; [lia|].
        rewrite (attempts_retry fuel attempt last m Hle Heq Hr).
        rewrite Hrun by lia. reflexivity.
      * cbn; unfold fetches in Hf; cbn in Hf; rewrite Hf; reflexivity.
Qed.



End UtilsApiServiceProperties.

Section UtilsApiServiceCoverage.

Import UtilsApiService.

(** When every attempt fails in a way the loop retries (a 5xx answer, a
    4xx answer whose body is [null], a body that does not parse, a
    rejected fetch other than an abort), the service with a whole number
    [maxRetries] makes [maxRetries + 1] fetches, sleeps [retryDelay * 2^i]
    before retry [i + 1] (in total [retryDelay * (2^maxRetries - 1)]), and
    returns the message built from the last failure. *)
Theorem sendChatMessage_exhausts_retries svc env q n :
  maxRetries svc = Finite q -> (q == inject_Z n)%Q ->
  0 <= n ->
  (forall i, Z.of_nat i <= n -> retried (env i) <> None) ->
  exists effects,
    (forall fuel, (Z.to_nat n < fuel)%nat ->
       sendChatMessage fuel svc env =
         Some (Object (all_retries_failed (retried (env (Z.to_nat n)))), effects)) /\
    Z.of_nat (fetches effects) = n + 1 /\
    delays effects = backoff svc 0 (Z.to_nat n) /\
    fold_right Z.add 0 (delays effects) = retryDelay svc * (2 ^ n - 1).
Proof.
  intros Hm Hq Hpos Hall.
  destruct (attempts_exhaust svc env q n (Z.to_nat n) 0 None Hm Hq)
    as (effects & Hrun & Hf & Hd); [lia | exact Hall |].
  exists effects. unfold sendChatMessage.
  split; [exact Hrun|]. split; [lia|]. split; [exact Hd|].
  rewrite Hd, sum_backoff. rewrite Z2Nat.id by lia.
  change (Z.of_nat 0) with 0. lia.
Qed.

Lemma sendChatMessage_exhausts_retries_witness :
  exists effects,
    (forall fuel, (Z.to_nat 3 < fuel)%nat ->
       sendChatMessage fuel apiService
         (fun _ => Responds {| status := 503; body := Unparseable "" |}) =
         Some (Object {| response := ""; error := Some "Server error: 503" |}, effects)) /\
    Z.of_nat (fetches effects) = 3 + 1 /\
    delays effects = [1000; 2000; 4000] /\
    fold_right Z.add 0 (delays effects) = 1000 * (2 ^ 3 - 1).
Proof.
  apply (sendChatMessage_exhausts_retries apiService
           (fun _ => Responds {| status := 503; body := Unparseable "" |}) 3 3).
  - reflexivity.
  - reflexivity.
  - lia.
  - intros i _. discriminate.
Defined.

(** The first attempt that does not fail in a retried way settles the
    call: a timeout is reported at once, a 4xx answer whose body is not
    [null] is reported with the error of its body (or a default naming
    the status), and any other answer whose body parses is returned as it
    is ([null] for the body [null]).  With [k] retried failures before
    it, [k + 1] fetches are made and the sleeps are [retryDelay * 2^i]
    for [i < k]. *)
Theorem first_decisive_attempt_settles svc env k :
  attempt_le k (maxRetries svc) = true ->
  (forall i, (i < k)%nat -> retried (env i) <> None) ->
  retried (env k) = None ->
  exists res effects,
    (forall fuel, (k < fuel)%nat ->
       sendChatMessage fuel svc env = Some (res, effects)) /\
    fetches effects = S k /\
    delays effects = backoff svc 0 k /\
    (env k = Rejects AbortError -> res = Object timed_out) /\
    (forall r d, env k = Responds r -> body r = Parsed d -> status r < 400 ->
       res = Object d) /\
    (forall r complaint, env k = Responds r -> body r = ParsedNull complaint ->
       status r < 400 /\ res = Null) /\
    (forall r, env k = Responds r -> 400 <= status r < 500 ->
       exists data,
         res = Object data /\
         response data = "" /\
         error data =
           Some (ApiService.or_else
                   match body r with Parsed d => error d | _ => None end
                   ("Request failed with status " +:+ pretty (status r)))).
Proof.
  intros Hle Hpre Hdec.
  destruct (attempts_decide svc env k 0 None)
    as (res & effects & Hrun & Hone & Hf & Hd);
    [exact Hle | intros i Hi; apply Hpre; lia | exact Hdec |].
  exists res, effects.
  split; [exact Hrun|]. split; [exact Hf|]. split; [exact Hd|].
  cbn [Nat.add] in Hone.
  rewrite (attempts_decisive svc env 0 k None Hle Hdec) in Hone.
  split; [|split; [|split]].
  - intros He. rewrite He in Hone. congruence.
  - intros r d He Hb Hs. rewrite He, Hb in Hone.
    destruct (Z.geb_spec (status r) 400) as [|_]; [lia|].
    rewrite andb_false_r in Hone. congruence.
  - intros r complaint He Hb. rewrite He in Hdec. split.
    + exact (retried_null_status r complaint Hdec Hb).
    + rewrite He, Hb in Hone. congruence.
  - intros r He Hs. rewrite He in Hone.
    assert (Hok : ok r = false).
    { unfold ok. destruct (Z.leb_spec (status r) 299); [lia|]. apply andb_false_r. }
    rewrite Hok in Hone. cbn [negb andb] in Hone.
    destruct (Z.geb_spec (status r) 400) as [_|]; [|lia].
    destruct (body r) as [d|complaint|m] eqn:Hb.
    + injection Hone as <-. eexists. repeat split.
    + exfalso. rewrite He in Hdec.
      pose proof (retried_null_status r complaint Hdec Hb). lia.
    + injection Hone as <-. eexists. repeat split.
Qed.

Lemma first_decisive_attempt_settles_witness :
  let env := fun i : nat =>
    match i with
    | O => Responds {| status := 400; body := ParsedNull "null has no properties" |}
    | _ => Responds {| status := 404; body := Unparseable "" |}
    end in
  exists res effects,
    (forall fuel, (1 < fuel)%nat ->
       sendChatMessage fuel apiService env = Some (res, effects)) /\
    fetches effects = 2%nat /\
    delays effects = [1000] /\
    (env 1%nat = Rejects AbortError -> res = Object timed_out) /\
    (forall r d, env 1%nat = Responds r -> body r = Parsed d -> status r < 400 ->
       res = Object d) /\
    (forall r complaint, env 1%nat = Responds r -> body r = ParsedNull complaint ->
       status r < 400 /\ res = Null) /\
    (forall r, env 1%nat = Responds r -> 400 <= status r < 500 ->
       exists data,
         res = Object data /\
         response data = "" /\
         error data =
           Some (ApiService.or_else
                   match body r with Parsed d => error d | _ => None end
                   ("Request failed with status " +:+ pretty (status r)))).
Proof.
  intros env.
  apply (first_decisive_attempt_settles apiService env 1).
  - reflexivity.
  - intros [|i] Hi; [discriminate | lia].
  - reflexivity.
Defined.



Lemma new_maxRetries options :
  match opt_maxRetries options with
  | Some (Finite q) =>
      if Qeq_bool q 0 then maxRetries (new options) = Finite 3
      else maxRetries (new options) = Finite q
  | Some NaN | None => maxRetries (new options) = Finite 3
  | Some m => maxRetries (new options) = m
  end.
Proof.
  unfold new. cbn [maxRetries]. destruct (opt_maxRetries options) as [[q| | |]|]; cbn;
    try reflexivity. destruct (Qeq_bool q 0); reflexivity.
Qed.

(** The number of fetches against a server that keeps failing follows
    [maxRetries].  Unset, 0 and [NaN] all mean 3, that is four fetches,
    so retrying cannot be switched off with a whole number; a positive
    [maxRetries] allows as many fetches as there are whole numbers from 0
    up to it, so that only a fraction between 0 and 1 gives exactly one
    fetch; a negative one gives no fetch at all; and with [Infinity] the
    call never returns. *)
Theorem fetches_follow_maxRetries options env :
  (forall i, retried (env i) <> None) ->
  (opt_maxRetries options = None \/ opt_maxRetries options = Some NaN \/
   (exists q, opt_maxRetries options = Some (Finite q) /\ (q == 0)%Q) ->
   maxRetries (new options) = Finite 3) /\
  (forall q, opt_maxRetries options = Some (Finite q) -> ~ (q == 0)%Q ->
     maxRetries (new options) = Finite q) /\
  (forall q, maxRetries (new options) = Finite q ->
     exists data effects,
       (forall fuel, (attempts_allowed (Finite q) < fuel)%nat ->
          sendChatMessage fuel (new options) env = Some (Object data, effects)) /\
       fetches effects = Z.to_nat (Qfloor q + 1) /\
       (fetches effects = 1%nat <-> (0 < q)%Q /\ (q < 1)%Q) /\
       ((q < 0)%Q ->
        effects = [] /\
        error data = Some "An unexpected error occurred. Please try again.")) /\
  (opt_maxRetries options = Some MinusInfinity ->
   forall fuel,
     sendChatMessage fuel (new options) env =
       Some (Object (all_retries_failed None), [])) /\
  (opt_maxRetries options = Some Infinity ->
   forall fuel, sendChatMessage fuel (new options) env = None).
Proof.
  intros Hall.
  pose proof (new_maxRetries options) as Hnew.
  split; [|split; [|split; [|split]]].
  - intros [Ho | [Ho | (q & Ho & Hq)]]; rewrite Ho in Hnew; try exact Hnew.
    apply Qeq_bool_iff in Hq. rewrite Hq in Hnew. exact Hnew.
  - intros q Ho Hq. rewrite Ho in Hnew.
    destruct (Qeq_bool q 0) eqn:E; [|exact Hnew].
    exfalso. apply Hq, Qeq_bool_iff, E.
  - intros q Hm.
    assert (Hnz : ~ (q == 0)%Q).
    { intros Hq. destruct (opt_maxRetries options) as [[q'| | |]|];
        try (rewrite Hm in Hnew; injection Hnew as ->; revert Hq; vm_compute; discriminate);
        try (rewrite Hm in Hnew; discriminate).
      destruct (Qeq_bool q' 0) eqn:E; rewrite Hm in Hnew; injection Hnew as ->.
      - revert Hq. vm_compute. discriminate.
      - apply Qeq_bool_iff in Hq. congruence. }
    destruct (attempts_all_retried (new options) env q (attempts_allowed (Finite q)) 0 None
                Hm ltac:(lia) Hall) as (data & effects & Hrun & Hf & Hzero).
    exists data, effects. split; [exact Hrun|].
    split; [exact Hf|]. rewrite Hf. cbn [attempts_allowed] in *.
    pose proof (Qfloor_le q) as Hlo. pose proof (Qlt_floor q) as Hhi.
    split; [split|].
    + intros H1. assert (Hfl : Qfloor q = 0) by lia. rewrite Hfl in Hlo, Hhi.
      change (inject_Z 0) with 0%Q in Hlo. change (inject_Z (0 + 1)) with 1%Q in Hhi.
      split; [|exact Hhi].
      apply Qle_lteq in Hlo. destruct Hlo as [Hlt|Heq]; [exact Hlt|].
      exfalso. apply Hnz. symmetry. exact Heq.
    + intros [H0 H1].
      assert (Hfl : Qfloor q = 0).
      { assert (0 <= Qfloor q).
        { change 0 with (Qfloor 0). apply Qfloor_resp_le. apply Qlt_le_weak, H0. }
        assert (Qfloor q < 1).
        { rewrite Zlt_Qlt. eapply Qle_lt_trans; [apply Qfloor_le|exact H1]. }
        lia. }
      rewrite Hfl. reflexivity.
    + intros Hneg.
      assert (Hfl : Qfloor q < 0).
      { rewrite Zlt_Qlt. eapply Qle_lt_trans; [apply Qfloor_le|exact Hneg]. }
      destruct Hzero as [-> ->]; [lia|]. split; reflexivity.
  - intros Ho fuel. rewrite Ho in Hnew. unfold sendChatMessage.
    apply attempts_over. rewrite Hnew. reflexivity.
  - intros Ho fuel. rewrite Ho in Hnew. apply attempts_forever; assumption.
Qed.

Lemma fetches_follow_maxRetries_witness :
  let options := mkOptions (Some (Finite (1 # 2))) None None in
  let env := fun _ : nat => Rejects (Failure "Failed to fetch") in
  maxRetries (new options) = Finite (1 # 2) /\
  exists data effects,
    (forall fuel, (1 < fuel)%nat ->
       sendChatMessage fuel (new options) env = Some (Object data, effects)) /\
    fetches effects = 1%nat.
Proof.
  intros options env.
  destruct (fetches_follow_maxRetries options env) as (_ & Hkeep & Hcount & _);
    [intros i; discriminate|].
  split; [apply Hkeep; [reflexivity | discriminate]|].
  destruct (Hcount (1 # 2)%Q eq_refl) as (data & effects & Hrun & Hf & _).
  exists data, effects. split; [exact Hrun | exact Hf].
Defined.

End UtilsApiServiceCoverage.

(* ===================================================================== *)
(** ** The chat component: properties *)
(* ===================================================================== *)

Section ChatInterfaceCoverage.

Import ChatInterface.



End ChatInterfaceCoverage.

(* ===================================================================== *)
(** ** The chat route: properties *)
(* ===================================================================== *)

Section ChatRouteProperties.

Import RateLimiter ChatRoute.

Lemma chat_key_inj ip1 ip2 : getKey ip1 "chat" = getKey ip2 "chat" -> ip1 = ip2.
Proof. unfold getKey. apply append_inj_r. Qed.

Lemma POST_store env store :
  snd (POST env store) =
  match parsed env with
  | None => store
  | Some _ =>
      snd (checkRateLimit (ClientAddress.getClientIP (forwarded env) (realIP env))
             "chat" RATE_LIMITS_chat (now_check env) store)
  end.
Proof.
  unfold POST. destruct (parsed env) as [body|]; [|reflexivity].
  destruct (checkRateLimit _ _ _ _ _) as [r store1]. cbn [snd].
  destruct (negb (allowed r)); [reflexivity|].
  destruct (message body) as [[|c m]|]; try reflexivity.
  destruct (primary env); [reflexivity|]. destruct (simplified env); reflexivity.
Qed.

Lemma POST_reply env store1 store2 :
  fst (checkRateLimit (ClientAddress.getClientIP (forwarded env) (realIP env))
         "chat" RATE_LIMITS_chat (now_check env) store1) =
  fst (checkRateLimit (ClientAddress.getClientIP (forwarded env) (realIP env))
         "chat" RATE_LIMITS_chat (now_check env) store2) ->
  fst (POST env store1) = fst (POST env store2).
Proof.
  unfold POST. destruct (parsed env) as [body|]; [|reflexivity].
  destruct (checkRateLimit _ _ _ _ store1) as [r1 s1].
  destruct (checkRateLimit _ _ _ _ store2) as [r2 s2].
  cbn [fst]. intros ->.
  destruct (negb (allowed r2)); [reflexivity|].
  destruct (message body) as [[|c m]|]; try reflexivity.
  destruct (primary env); [reflexivity|]. destruct (simplified env); reflexivity.
Qed.

Lemma POST_other_keys env store key :
  key <> getKey (ClientAddress.getClientIP (forwarded env) (realIP env)) "chat" ->
  snd (POST env store) !! key = store !! key.
Proof.
  intros Hkey. rewrite POST_store. destruct (parsed env); [|reflexivity].
  apply checkRateLimit_other_keys. exact Hkey.
Qed.

Lemma POST_fresh env store :
  store !! getKey (ClientAddress.getClientIP (forwarded env) (realIP env)) "chat" = None ->
  status (fst (POST env store)) <> 429.
Proof.
  intros Hfresh. unfold POST. destruct (parsed env) as [body|]; [|cbn; lia].
  unfold checkRateLimit. rewrite Hfresh.
  rewrite current_entry_fresh by (cbn; lia).
  cbn -[getKey insert]. 
  destruct (message body) as [[|c m]|]; cbn; try lia.
  destruct (primary env); [cbn; lia|]. destruct (simplified env); cbn; lia.
Qed.

Lemma POST_no_message env store body entry :
  parsed env = Some body ->
  message body = None \/ message body = Some "" ->
  current_entry RATE_LIMITS_chat (now_check env)
    (store !! getKey (ClientAddress.getClientIP (forwarded env) (realIP env)) "chat")
    = entry ->
  burstCount entry < 5 -> count entry < 30 ->
  POST env store =
    (refusal 400 "Message is required",
     <[getKey (ClientAddress.getClientIP (forwarded env) (realIP env)) "chat"
       := increment entry]> store).
Proof.
  intros Hbody Hmsg Hentry Hb Hc.
  unfold POST, checkRateLimit. rewrite Hbody, Hentry.
  change (burstLimit RATE_LIMITS_chat) with 5.
  change (perMinute RATE_LIMITS_chat) with 30.
  destruct (Z.geb_spec (burstCount entry) 5); [lia|].
  destruct (Z.geb_spec (count entry) 30); [lia|].
  cbn [allowed negb].
  destruct Hmsg as [-> | ->]; reflexivity.
Qed.

Lemma POST_burst env store entry :
  parsed env <> None ->
  current_entry RATE_LIMITS_chat (now_check env)
    (store !! getKey (ClientAddress.getClientIP (forwarded env) (realIP env)) "chat")
    = entry ->
  5 <= burstCount entry ->
  fst (POST env store) =
    too_many {| allowed := false; RateLimiter.error := Some burst_message;
                res_resetTime := Some (burstResetTime entry);
                remaining := Some 0 |} env.
Proof.
  intros Hbody Hentry Hb.
  unfold POST, checkRateLimit. destruct (parsed env) as [body|]; [|congruence].
  rewrite Hentry. change (burstLimit RATE_LIMITS_chat) with 5.
  destruct (Z.geb_spec (burstCount entry) 5); [|lia].
  reflexivity.
Qed.

Lemma serve_cons env envs store :
  serve (env :: envs) store =
  (fst (POST env store) :: fst (serve envs (snd (POST env store))),
   snd (serve envs (snd (POST env store)))).
Proof.
  cbn [serve]. destruct (POST env store) as [reply s1]. cbn [fst snd].
  destruct (serve envs s1). reflexivity.
Qed.

Lemma serve_lock_out ip last : forall rest store entry,
  store !! getKey ip "chat" = Some entry ->
  burstCount entry + Z.of_nat (length rest) = 5 ->
  count entry <= burstCount entry ->
  Forall (fun e =>
            ClientAddress.getClientIP (forwarded e) (realIP e) = ip /\
            exists body, parsed e = Some body /\
                         (message body = None \/ message body = Some ""))
         rest ->
  ClientAddress.getClientIP (forwarded last) (realIP last) = ip ->
  Forall (fun e => now_check e < resetTime entry /\ now_check e < burstResetTime entry)
         ((rest ++ [last])%list) ->
  exists replies reply,
    fst (serve ((rest ++ [last])%list) store) = (replies ++ [reply])%list /\
    Forall (fun r => status r = 400 /\ error r = Some "Message is required") replies /\
    length replies = length rest /\
    match parsed last with
    | Some _ =>
        status reply = 429 /\
        error reply = Some burst_message /\
        retry_after reply =
          Some (pretty (ceil_seconds (burstResetTime entry - now_header last)))
    | None => reply = refusal 400 "Invalid request format"
    end.
Proof.
  induction rest as [|e rest IH]; intros store entry Hstore Hsum Hcount Hrest Hip Hlive.
  - exists [], (fst (POST last store)).
    cbn [app] in *. rewrite serve_cons. cbn [serve fst].
    apply Forall_inv in Hlive. destruct Hlive as [Hl1 Hl2].
    split; [reflexivity|]. split; [constructor|]. split; [reflexivity|].
    destruct (parsed last) as [body|] eqn:Hparsed.
    + rewrite (POST_burst last store entry).
      * cbn. repeat split; auto.
      * congruence.
      * rewrite Hip, Hstore. apply current_entry_live; assumption.
      * cbn [length] in Hsum. lia.
    + unfold POST. rewrite Hparsed. reflexivity.
  - cbn [app] in *. rewrite serve_cons.
    pose proof (Forall_inv Hrest) as (Hipe & body & Hbody & Hmsg).
    pose proof (Forall_inv Hlive) as [Hl1 Hl2].
    cbn [length] in Hsum.
    rewrite (POST_no_message e store body entry Hbody Hmsg); cycle 1.
    { rewrite Hipe, Hstore. apply current_entry_live; assumption. }
    { lia. }
    { lia. }
    cbn [fst snd]. rewrite Hipe.
    destruct (IH (<[getKey ip "chat" := increment entry]> store) (increment entry))
      as (replies & reply & Hrun & Hreplies & Hlen & Hlast).
    + apply lookup_insert_eq.
    + cbn. lia.
    + cbn. lia.
    + exact (Forall_inv_tail Hrest).
    + exact Hip.
    + exact (Forall_inv_tail Hlive).
    + exists (refusal 400 "Message is required" :: replies), reply.
      rewrite Hrun. split; [reflexivity|].
      split; [constructor; [split; reflexivity | exact Hreplies]|].
      split; [cbn; lia|]. exact Hlast.
Qed.

Lemma current_entry_ahead config now found :
  0 < burstWindow config ->
  now < resetTime (current_entry config now found) /\
  now < burstResetTime (current_entry config now found).
Proof.
  intros Hw. unfold current_entry, reset_burst, reset_window.
  destruct found as [e|]; cbn [fresh_entry resetTime burstResetTime];
    repeat match goal with
           | |- context [?a >=? ?b] => destruct (Z.geb_spec a b)
           end; cbn [resetTime burstResetTime fresh_entry] in *; lia.
Qed.

Lemma ceil_seconds_thousands n : ceil_seconds (n * 1000) = n.
Proof.
  unfold ceil_seconds. replace (- (n * 1000)) with ((- n) * 1000) by lia.
  rewrite Z.div_mul by lia. lia.
Qed.

Lemma ceil_seconds_covers ms : ms <= ceil_seconds ms * 1000.
Proof.
  unfold ceil_seconds.
  pose proof (Z.mul_div_le (- ms) 1000 ltac:(lia)). lia.
Qed.

Lemma POST_rejected env store :
  status (fst (POST env store)) = 429 ->
  exists r,
    fst (checkRateLimit (ClientAddress.getClientIP (forwarded env) (realIP env))
           "chat" RATE_LIMITS_chat (now_check env) store) = r /\
    allowed r = false /\
    fst (POST env store) = too_many r env /\
    exists resetTime, res_resetTime r = Some resetTime /\ now_check env < resetTime.
Proof.
  intros Hst. unfold POST in *.
  destruct (parsed env) as [body|]; [|cbn in Hst; lia].
  pose proof (current_entry_ahead RATE_LIMITS_chat (now_check env)
    (store !! getKey (ClientAddress.getClientIP (forwarded env) (realIP env)) "chat")
    ltac:(cbn; lia)) as [Hw Hb].
  unfold checkRateLimit in *.
  set (entry := current_entry _ _ _) in *. clearbody entry.
  destruct (burstCount entry >=? burstLimit RATE_LIMITS_chat).
  { cbn [fst allowed negb] in *. eexists. split; [reflexivity|].
    split; [reflexivity|]. split; [reflexivity|]. eexists. split; [reflexivity|exact Hb]. }
  destruct (count entry >=? perMinute RATE_LIMITS_chat).
  { cbn [fst allowed negb] in *. eexists. split; [reflexivity|].
    split; [reflexivity|]. split; [reflexivity|]. eexists. split; [reflexivity|exact Hw]. }
  exfalso. cbn [fst allowed negb] in Hst.
  destruct (message body) as [[|c m]|]; cbn in Hst; try lia.
  destruct (primary env); [cbn in Hst; lia|].
  destruct (simplified env); cbn in Hst; lia.
Qed.






End ChatRouteProperties.

Section ChatRouteCoverage.

Import RateLimiter ChatRoute.

(** The limiter trusts the address header: requests that each carry an
    address the limiter has not seen are never answered 429, however many
    there are and however fast they come. *)
Theorem fresh_addresses_never_limited envs store :
  List.NoDup (map (fun e => ClientAddress.getClientIP (forwarded e) (realIP e)) envs) ->
  Forall (fun e =>
            store !! getKey (ClientAddress.getClientIP (forwarded e) (realIP e)) "chat"
            = None) envs ->
  Forall (fun reply => status reply <> 429) (fst (serve envs store)).
Proof.
  revert store. induction envs as [|e envs IH]; intros store Hdup Hfresh.
  - constructor.
  - rewrite serve_cons. cbn [fst].
    cbn [map] in Hdup. apply List.NoDup_cons_iff in Hdup. destruct Hdup as [Hnotin Hdup].
    constructor.
    + apply POST_fresh. exact (Forall_inv Hfresh).
    + apply IH; [exact Hdup|].
      apply List.Forall_forall. intros e' He'.
      rewrite POST_other_keys.
      * exact (proj1 (List.Forall_forall _ _) (Forall_inv_tail Hfresh) e' He').
      * intros Hkey. apply chat_key_inj in Hkey. apply Hnotin.
        rewrite <- Hkey. apply List.in_map_iff. exists e'. split; [reflexivity|exact He'].
Qed.

Lemma fresh_addresses_never_limited_witness :
  let request := fun address : string =>
    mkEnvironment (Some address) None
      (Some (mkChatBody (Some "hello") (Some "wise") None None []))
      0 0 0 0 (Some "hi") None 0 in
  Forall (fun reply => status reply <> 429)
    (fst (serve (map request
                   ["10.0.0.1"; "10.0.0.2"; "10.0.0.3"; "10.0.0.4"; "10.0.0.5";
                    "10.0.0.6"; "10.0.0.7"])
                ∅)).
Proof.
  intros request.
  apply (fresh_addresses_never_limited
           (map request
              ["10.0.0.1"; "10.0.0.2"; "10.0.0.3"; "10.0.0.4"; "10.0.0.5";
               "10.0.0.6"; "10.0.0.7"]) ∅).
  - cbn. repeat (constructor; [cbn; intuition discriminate|]). constructor.
  - repeat constructor.
Defined.

(** Requests without a message are answered 400 but are counted by the
    limiter: after five of them from one address within the burst window,
    the next request of that address whose body parses is answered 429
    with the burst message, whatever it carries, and told to wait until
    the window that the first request opened is over.  A request whose
    body does not parse is answered 400 before the limiter is asked. *)
Theorem empty_messages_lock_out ip first rest last store :
  store !! getKey ip "chat" = None ->
  length rest = 4%nat ->
  Forall (fun e =>
            ClientAddress.getClientIP (forwarded e) (realIP e) = ip /\
            exists body, parsed e = Some body /\
                         (message body = None \/ message body = Some ""))
         (first :: rest) ->
  ClientAddress.getClientIP (forwarded last) (realIP last) = ip ->
  Forall (fun e => now_check e < now_check first + 10000) ((rest ++ [last])%list) ->
  exists replies reply,
    fst (serve (first :: rest ++ [last]) store) = (replies ++ [reply])%list /\
    Forall (fun r => status r = 400 /\ error r = Some "Message is required") replies /\
    length replies = 5%nat /\
    match parsed last with
    | Some _ =>
        status reply = 429 /\
        error reply = Some burst_message /\
        retry_after reply =
          Some (pretty (ceil_seconds (now_check first + 10000 - now_header last)))
    | None => reply = refusal 400 "Invalid request format"
    end.
Proof.
  intros Hfresh Hlen Hall Hip Htimes.
  pose proof (Forall_inv Hall) as (Hip1 & body & Hbody & Hmsg).
  rewrite serve_cons.
  rewrite (POST_no_message first store body (fresh_entry RATE_LIMITS_chat (now_check first))
             Hbody Hmsg); cycle 1.
  { rewrite Hip1, Hfresh. apply current_entry_fresh. cbn. lia. }
  { cbn. lia. }
  { cbn. lia. }
  cbn [fst snd]. rewrite Hip1.
  destruct (serve_lock_out ip last rest
              (<[getKey ip "chat" := increment (fresh_entry RATE_LIMITS_chat (now_check first))]> store)
              (increment (fresh_entry RATE_LIMITS_chat (now_check first))))
    as (replies & reply & Hrun & Hreplies & Hl & Hlast).
  - apply lookup_insert_eq.
  - cbn. lia.
  - cbn. lia.
  - exact (Forall_inv_tail Hall).
  - exact Hip.
  - revert Htimes. apply List.Forall_impl. cbn. intros e He. lia.
  - exists (refusal 400 "Message is required" :: replies), reply.
    rewrite Hrun. split; [reflexivity|].
    split; [constructor; [split; reflexivity | exact Hreplies]|].
    split; [cbn; lia|]. exact Hlast.
Qed.

Lemma empty_messages_lock_out_witness :
  let request := fun (body : option ChatBody) (now : Z) =>
    mkEnvironment (Some "10.0.0.1") None body
      now now now now (Some "hi") None 0 in
  let body := fun text => Some (mkChatBody text (Some "wise") None None []) in
  let empty := [request (body (Some "")) 100; request (body None) 200;
                request (body None) 300; request (body (Some "")) 400] in
  (exists replies reply,
     fst (serve (request (body None) 0 :: empty ++ [request (body (Some "hello")) 500]) ∅)
       = (replies ++ [reply])%list /\
     Forall (fun r => status r = 400 /\ error r = Some "Message is required") replies /\
     length replies = 5%nat /\
     status reply = 429 /\
     error reply = Some burst_message /\
     retry_after reply = Some (pretty (ceil_seconds (0 + 10000 - 500)))) /\
  (exists replies reply,
     fst (serve (request (body None) 0 :: empty ++ [request None 500]) ∅)
       = (replies ++ [reply])%list /\
     length replies = 5%nat /\
     reply = refusal 400 "Invalid request format").
Proof.
  intros request body empty. split.
  - destruct (empty_messages_lock_out "10.0.0.1" (request (body None) 0) empty
                (request (body (Some "hello")) 500) ∅)
      as (replies & reply & Hrun & Hreplies & Hlen & Hlast).
    + reflexivity.
    + reflexivity.
    + repeat constructor; cbn; eauto.
    + reflexivity.
    + repeat constructor; cbn; lia.
    + exists replies, reply. auto.
  - destruct (empty_messages_lock_out "10.0.0.1" (request (body None) 0) empty
                (request None 500) ∅)
      as (replies & reply & Hrun & Hreplies & Hlen & Hlast).
    + reflexivity.
    + reflexivity.
    + repeat constructor; cbn; eauto.
    + reflexivity.
    + repeat constructor; cbn; lia.
    + exists replies, reply. auto.
Defined.

(** The wait announced with a 429 reaches the client.  When the header
    [Retry-After] of the reply is [n >= 1], the client classifies the
    answer as a retryable rate-limit error with [retryAfter] [n] seconds,
    the hook tells the user to wait [n] seconds, its [retry] waits that
    long before sending the request again, and that wait ends at or after
    the reset time of the limit that was hit. *)
Theorem retry_after_reaches_client env store statusText :
  status (fst (POST env store)) = 429 ->
  exists resetTime,
    now_check env < resetTime /\
    retry_after (fst (POST env store)) =
      Some (pretty (ceil_seconds (resetTime - now_header env))) /\
    forall n, n = ceil_seconds (resetTime - now_header env) -> 1 <= n ->
      let e := ApiService.handleHttpError (received statusText (fst (POST env store))) in
      e = ApiService.createApiError ApiService.rate_limit "Too many requests"
            (Some 429) true (Some (ApiService.Num (n * 1000))) /\
      resetTime <= now_header env + n * 1000 /\
      forall h request outcome,
        UseApiCall.error (UseApiCall.state h) = Some e ->
        UseApiCall.lastRequest h = Some request ->
        UseApiCall.getErrorMessage h =
          "Too many requests Please wait " +:+ pretty n
            +:+ " seconds before trying again." /\
        snd (UseApiCall.retry outcome h) =
          [UseApiCall.Wait (n * 1000); UseApiCall.Send request].
Proof.
  intros Hst.
  destruct (POST_rejected env store Hst) as (r & _ & _ & Hreply & R & HR & Hlt).
  exists R. split; [exact Hlt|].
  rewrite Hreply. unfold too_many at 1. cbn [retry_after]. rewrite HR.
  split; [reflexivity|].
  intros n Hn Hpos.
  assert (He : ApiService.handleHttpError (received statusText (too_many r env)) =
               ApiService.createApiError ApiService.rate_limit "Too many requests"
                 (Some 429) true (Some (ApiService.Num (n * 1000)))).
  { unfold ApiService.handleHttpError, received, too_many.
    cbn [ApiService.status status ApiService.retry_after_header retry_after].
    rewrite HR, <- Hn.
    change (429 >=? 500) with false. change (429 =? 429) with true. cbn iota.
    destruct (pretty_nonempty n) as (c & rest & Hp). rewrite Hp.
    cbn [ApiService.or_else]. rewrite <- Hp, parseInt_pretty. reflexivity. }
  cbv zeta. rewrite He. split; [reflexivity|].
  split.
  { pose proof (ceil_seconds_covers (R - now_header env)). lia. }
  intros h request outcome Herr Hreq.
  assert (Htruthy : UseApiCall.truthy (Some (ApiService.Num (n * 1000))) = Some (n * 1000)).
  { unfold UseApiCall.truthy. destruct (n * 1000) eqn:E; [lia|reflexivity|reflexivity]. }
  split.
  - unfold UseApiCall.getErrorMessage. rewrite Herr.
    cbn [ApiService.createApiError ApiService.type ApiService.message ApiService.retryAfter].
    rewrite Htruthy, ceil_seconds_thousands. reflexivity.
  - unfold UseApiCall.retry. rewrite Herr, Hreq.
    cbn [ApiService.createApiError ApiService.type ApiService.retryable ApiService.retryAfter].
    rewrite Htruthy. destruct outcome; reflexivity.
Qed.

Lemma retry_after_reaches_client_witness :
  let env :=
    mkEnvironment (Some "10.0.0.1") None
      (Some (mkChatBody (Some "hello") (Some "wise") None None []))
      500 600 600 600 (Some "hi") None 0 in
  let store : Store := {[ getKey "10.0.0.1" "chat" := mkEntry 5 60000 5 10000 ]} in
  exists resetTime,
    now_check env < resetTime /\
    retry_after (fst (POST env store)) =
      Some (pretty (ceil_seconds (resetTime - now_header env))) /\
    forall n, n = ceil_seconds (resetTime - now_header env) -> 1 <= n ->
      let e := ApiService.handleHttpError (received "" (fst (POST env store))) in
      e = ApiService.createApiError ApiService.rate_limit "Too many requests"
            (Some 429) true (Some (ApiService.Num (n * 1000))) /\
      resetTime <= now_header env + n * 1000 /\
      forall h request outcome,
        UseApiCall.error (UseApiCall.state h) = Some e ->
        UseApiCall.lastRequest h = Some request ->
        UseApiCall.getErrorMessage h =
          "Too many requests Please wait " +:+ pretty n
            +:+ " seconds before trying again." /\
        snd (UseApiCall.retry outcome h) =
          [UseApiCall.Wait (n * 1000); UseApiCall.Send request].
Proof.
  intros env store.
  apply (retry_after_reaches_client env store "").
  vm_compute. reflexivity.
Defined.



End ChatRouteCoverage.

(* ===================================================================== *)
(** ** The hook: properties *)
(* ===================================================================== *)

Section UseApiCallProperties.

Import ApiService UseApiCall.

Lemma last_cons {A} (l : list A) : forall x d, List.last (x :: l) d = List.last l x.
Proof.
  induction l as [|y l IH]; intros x d; [reflexivity|].
  change (List.last (x :: y :: l) d) with (List.last (y :: l) d).
  rewrite !IH. reflexivity.
Qed.

Lemma retry_rejected request e e' h :
  lastRequest h = Some request ->
  error (state h) = Some e ->
  retryable e = true ->
  exists waits,
    retry (Rejected e') h =
      (None,
       {| state := {| isLoading := isLoading (state h); error := Some e';
                      retryCount := retryCount (state h) + 1;
                      isRetrying := false |};
          lastRequest := Some request |},
       (waits ++ [Send request])%list) /\
    (waits = [] \/ exists ms, waits = [Wait ms]).
Proof.
  intros Hreq Herr Hre. unfold retry. rewrite Hreq, Herr, Hre.
  eexists. split; [reflexivity|].
  destruct (type e); auto. destruct (truthy (retryAfter e)); eauto.
Qed.

Lemma retries_count request : forall errors e h,
  lastRequest h = Some request ->
  error (state h) = Some e ->
  Forall (fun e => retryable e = true) (removelast (e :: errors)) ->
  let h' := fst (retries errors h) in
  retryCount (state h') = retryCount (state h) + Z.of_nat (length errors) /\
  lastRequest h' = Some request /\
  error (state h') = Some (List.last errors e) /\
  length (List.filter (fun x => match x with Send _ => true | Wait _ => false end)
            (snd (retries errors h))) = length errors.
Proof.
  induction errors as [|e' errors IH]; intros e h Hreq Herr Hall.
  - cbn. repeat split; auto. lia.
  - cbn [removelast] in Hall.
    pose proof (Forall_inv Hall) as Hre.
    destruct (retry_rejected request e e' h Hreq Herr Hre) as (waits & Hretry & Hwaits).
    cbn [retries]. rewrite Hretry.
    set (h1 := {| state := _; lastRequest := Some request |}).
    specialize (IH e' h1 eq_refl eq_refl (Forall_inv_tail Hall)).
    destruct (retries errors h1) as [h2 effects'] eqn:Hrest.
    cbn [fst snd] in *. destruct IH as (Hc & Hl & He & Hs).
    split; [rewrite Hc; cbn; lia|]. split; [exact Hl|].
    split.
    + rewrite He, last_cons. reflexivity.
    + rewrite !List.filter_app, !length_app, Hs.
      destruct Hwaits as [-> | [ms ->]]; cbn; lia.
Qed.

End UseApiCallProperties.

Section UseApiCallCoverage.

Import ApiService UseApiCall.

(** The hook counts attempts, not retries: a failed [sendMessage] leaves
    [retryCount] at 1 and every failed [retry] adds one, so [canRetry]
    offers two retries, not three.  [retry] itself does not look at the
    count: as long as the last error is retryable it sends the last
    request again, once per call. *)
Theorem retry_budget request e0 errors h :
  Forall (fun e => retryable e = true) (e0 :: errors) ->
  let h' := fst (retries errors (snd (sendMessage request (Rejected e0) h))) in
  retryCount (state h') = 1 + Z.of_nat (length errors) /\
  canRetry h' = (length errors <? 2)%nat /\
  length (List.filter (fun x => match x with Send _ => true | Wait _ => false end)
            (snd (retries errors (snd (sendMessage request (Rejected e0) h)))))
    = length errors /\
  forall outcome, exists waits,
    snd (retry outcome h') = (waits ++ [Send request])%list.
Proof.
  intros Hall. cbn [sendMessage snd].
  set (h1 := {| state := _; lastRequest := Some request |}).
  assert (Hpre : Forall (fun e => retryable e = true) (removelast (e0 :: errors))).
  { clear - Hall. revert e0 Hall. induction errors as [|e errors IH]; intros e0 Hall.
    - constructor.
    - cbn [removelast]. constructor; [exact (Forall_inv Hall)|].
      apply IH. exact (Forall_inv_tail Hall). }
  destruct (retries_count request errors e0 h1 eq_refl eq_refl Hpre)
    as (Hc & Hl & He & Hs).
  assert (Hlast : retryable (List.last errors e0) = true).
  { clear - Hall. revert e0 Hall. induction errors as [|e errors IH]; intros e0 Hall.
    - exact (Forall_inv Hall).
    - rewrite last_cons. apply IH. exact (Forall_inv_tail Hall). }
  cbv zeta. split; [rewrite Hc; cbn; lia|].
  split.
  { unfold canRetry. rewrite He, Hl, Hlast, Hc. cbn [retryCount state h1 andb].
    destruct (Nat.ltb_spec (length errors) 2), (Z.ltb_spec (0 + 1 + Z.of_nat (length errors)) 3);
      (reflexivity || lia). }
  split; [exact Hs|].
  intros outcome. unfold retry. rewrite Hl, He, Hlast.
  destruct outcome; eexists; reflexivity.
Qed.

Lemma retry_budget_witness :
  let request := mkChatRequest "hello" "wise" "female" "auto" in
  let e := createApiError server "HTTP 500" (Some 500) true None in
  let h' := fst (retries [e; e] (snd (sendMessage request (Rejected e) initial))) in
  retryCount (state h') = 1 + Z.of_nat (length [e; e]) /\
  canRetry h' = (length [e; e] <? 2)%nat /\
  length (List.filter (fun x => match x with Send _ => true | Wait _ => false end)
            (snd (retries [e; e] (snd (sendMessage request (Rejected e) initial)))))
    = length [e; e] /\
  forall outcome, exists waits,
    snd (retry outcome h') = (waits ++ [Send request])%list.
Proof.
  intros request e.
  apply (retry_budget request e [e; e] initial).
  repeat constructor.
Defined.

(** A 429 answer without a [Retry-After] header makes the hook announce
    and observe a wait of 60 seconds.  With a header that [parseInt]
    cannot read, or that reads as 0 (a header of ASCII characters, where
    [parseInt] is modelled in full), the hook still announces 60 seconds,
    but [retry] sends the request again at once. *)
Theorem unreadable_retry_after r h request outcome :
  status r = 429 ->
  error (state h) = Some (handleHttpError r) ->
  lastRequest h = Some request ->
  (retry_after_header r = None \/ retry_after_header r = Some "" ->
   getErrorMessage h =
     "Too many requests Please wait 60 seconds before trying again." /\
   snd (retry outcome h) = [Wait 60000; Send request]) /\
  (forall header,
     retry_after_header r = Some header -> header <> "" ->
     forallb (fun c => (nat_of_ascii c <? 128)%nat) (list_ascii_of_string header)
       = true ->
     parseInt header = NaN \/ parseInt header = Num 0 ->
     getErrorMessage h =
       "Too many requests Please wait 60 seconds before trying again." /\
     snd (retry outcome h) = [Send request]).
Proof.
  intros Hst Herr Hreq.
  assert (He : handleHttpError r =
               createApiError rate_limit "Too many requests" (Some 429) true
                 (Some (js_mul (parseInt (or_else (retry_after_header r) "60")) 1000))).
  { unfold handleHttpError. rewrite Hst. reflexivity. }
  rewrite He in Herr.
  assert (Hshape : forall after,
            error (state h) =
              Some (createApiError rate_limit "Too many requests" (Some 429) true after) ->
            getErrorMessage h =
              "Too many requests Please wait " +:+
              pretty (match truthy after with
                      | Some ms => ChatRoute.ceil_seconds ms
                      | None => 60
                      end) +:+ " seconds before trying again." /\
            snd (retry outcome h) =
              (match truthy after with Some ms => [Wait ms] | None => [] end
               ++ [Send request])%list).
  { intros after H. unfold getErrorMessage, retry. rewrite H, Hreq.
    cbn [createApiError type message retryable retryAfter].
    split; [reflexivity|]. destruct outcome; reflexivity. }
  split.
  - intros Hnone.
    assert (Hp : parseInt (or_else (retry_after_header r) "60") = Num 60).
    { destruct Hnone as [-> | ->]; vm_compute; reflexivity. }
    rewrite Hp in Herr. destruct (Hshape _ Herr) as [Hm Hr].
    rewrite Hm, Hr. split; reflexivity.
  - intros header Hh Hne _ Hparse.
    rewrite Hh in Herr.
    assert (Ho : or_else (Some header) "60" = header).
    { destruct header; [congruence|reflexivity]. }
    rewrite Ho in Herr.
    destruct (Hshape _ Herr) as [Hm Hr]. rewrite Hm, Hr.
    destruct Hparse as [-> | ->]; split; reflexivity.
Qed.

Lemma unreadable_retry_after_witness :
  let r := {| status := 429; statusText := "";
              retry_after_header := Some "Wed, 21 Oct 2026 07:28:00 GMT";
              body := None |} in
  let request := mkChatRequest "hello" "wise" "female" "auto" in
  let h := snd (sendMessage request (Rejected (handleHttpError r)) initial) in
  (retry_after_header r = None \/ retry_after_header r = Some "" ->
   getErrorMessage h =
     "Too many requests Please wait 60 seconds before trying again." /\
   snd (retry (Rejected (handleHttpError r)) h) = [Wait 60000; Send request]) /\
  (forall header,
     retry_after_header r = Some header -> header <> "" ->
     forallb (fun c => (nat_of_ascii c <? 128)%nat) (list_ascii_of_string header)
       = true ->
     parseInt header = NaN \/ parseInt header = Num 0 ->
     getErrorMessage h =
       "Too many requests Please wait 60 seconds before trying again." /\
     snd (retry (Rejected (handleHttpError r)) h) = [Send request]).
Proof.
  intros r request h.
  apply (unreadable_retry_after r h request (Rejected (handleHttpError r)));
    reflexivity.
Defined.

End UseApiCallCoverage.

(* ===================================================================== *)
(** ** The request pipeline: bounds and health checks *)
(* ===================================================================== *)

Section PipelineCoverageLemmas.

Import ApiService.


Lemma calculateRetryDelay_bound random retryCount :
  (0 <= random)%Q -> (random < 1)%Q -> (retryCount < 3)%nat ->
  (0 <= calculateRetryDelay random retryCount)%Q /\
  (calculateRetryDelay random retryCount <=
   match retryCount with
   | 0%nat => 1100 | 1%nat => 2200 | _ => 4400
   end)%Q.
Proof.
  intros H0 H1 Hrc. unfold calculateRetryDelay. cbv zeta.
  set (b := (inject_Z retryDelay * inject_Z (2 ^ Z.of_nat retryCount))%Q).
  change (inject_Z 30000) with (30000 # 1)%Q.
  destruct retryCount as [|[|[|n]]]; [| | |lia].
  - assert (Hb : (b == 1000)%Q) by (vm_compute; reflexivity). clearbody b.
    destruct (Q.min_spec (b + random * (1 # 10) * b) (30000 # 1)) as [[Hm ->]|[Hm ->]];
      split; nra.
  - assert (Hb : (b == 2000)%Q) by (vm_compute; reflexivity). clearbody b.
    destruct (Q.min_spec (b + random * (1 # 10) * b) (30000 # 1)) as [[Hm ->]|[Hm ->]];
      split; nra.
  - assert (Hb : (b == 4000)%Q) by (vm_compute; reflexivity). clearbody b.
    destruct (Q.min_spec (b + random * (1 # 10) * b) (30000 # 1)) as [[Hm ->]|[Hm ->]];
      split; nra.
Qed.

Lemma makeRequest_bounds env :
  (forall i, (0 <= random (env i))%Q /\ (random (env i) < 1)%Q) ->
  forall fuel retryCount s out s' effects,
    makeRequest fuel env retryCount s = Some (out, s', effects) ->
    (retryCount <= 3)%nat ->
    (fetches effects <= 4 - retryCount)%nat /\
    (sleeps effects <= 3 - retryCount)%nat /\
    (sleeps effects <= fetches effects)%nat /\
    (0 <= total_sleep effects)%Q /\
    (total_sleep effects <=
     match retryCount with
     | 0%nat => 7700 | 1%nat => 6600 | 2%nat => 4400 | _ => 0
     end)%Q /\
    (forall data, out = Resolved data -> fetches effects = S (sleeps effects)).
Proof.
  intros Hrand.
  assert (Hzero : forall rc : nat,
            (0 <= match rc with
                  | 0%nat => 7700 | 1%nat => 6600 | 2%nat => 4400 | _ => 0
                  end)%Q).
  { intros [|[|[|n]]]; vm_compute; discriminate. }
  assert (Hone : forall (rc : nat) (t : Z) (out : Outcome), (rc <= 3)%nat ->
            (fetches [Fetch t] <= 4 - rc)%nat /\
            (sleeps [Fetch t] <= 3 - rc)%nat /\
            (sleeps [Fetch t] <= fetches [Fetch t])%nat /\
            (0 <= total_sleep [Fetch t])%Q /\
            (total_sleep [Fetch t] <=
             match rc with
             | 0%nat => 7700 | 1%nat => 6600 | 2%nat => 4400 | _ => 0
             end)%Q /\
            (forall data, out = Resolved data -> fetches [Fetch t] = S (sleeps [Fetch t]))).
  { intros rc t out Hrc. cbn [fetches sleeps List.filter is_fetch negb length total_sleep].
    repeat split; try lia; try apply Hzero; try (vm_compute; discriminate). }
  assert (Hnone : forall (rc : nat) (e : ApiError), (rc <= 3)%nat ->
            (fetches [] <= 4 - rc)%nat /\
            (sleeps [] <= 3 - rc)%nat /\
            (sleeps [] <= fetches [])%nat /\
            (0 <= total_sleep [])%Q /\
            (total_sleep [] <=
             match rc with
             | 0%nat => 7700 | 1%nat => 6600 | 2%nat => 4400 | _ => 0
             end)%Q /\
            (forall data, Rejected e = Resolved data -> fetches [] = S (sleeps []))).
  { intros rc e Hrc. cbn [fetches sleeps List.filter length total_sleep].
    repeat split; try lia; try apply Hzero; try discriminate; try (vm_compute; discriminate). }
  induction fuel as [|fuel IH]; intros retryCount s out s' effects Hrun Hrc;
    [discriminate|].
  cbn [makeRequest] in Hrun.
  destruct (isCircuitBreakerOpen _ _) as [isOpen s1].
  destruct isOpen.
  { injection Hrun as <- <- <-. apply Hnone. exact Hrc. }
  destruct (negb (isOnline (connectionStatus s1))).
  { injection Hrun as <- <- <-. apply Hnone. exact Hrc. }
  destruct (result (env retryCount)) as [r| |msg|].
  - destruct (ok r).
    + destruct (body r); injection Hrun as <- <- <-; apply Hone; exact Hrc.
    + destruct (retryable (handleHttpError r) && (retryCount <? maxRetries)%nat) eqn:Hretry.
      * apply andb_prop in Hretry. destruct Hretry as [_ Hlt].
        apply Nat.ltb_lt in Hlt. unfold maxRetries in Hlt.
        destruct (makeRequest fuel env (S retryCount) _) as [[[out1 s2] effects1]|] eqn:Hrec;
          [|discriminate].
        injection Hrun as <- <- <-.
        destruct (IH _ _ _ _ _ Hrec ltac:(lia)) as (Hf & Hs & Hsf & H0 & Ht & Hres).
        destruct (Hrand retryCount) as [Hr0 Hr1].
        destruct (calculateRetryDelay_bound _ retryCount Hr0 Hr1 Hlt) as [Hd0 Hd].
        change (fetches (Fetch (started (env retryCount))
                  :: Sleep (calculateRetryDelay (random (env retryCount)) retryCount)
                  :: effects1)) with (S (fetches effects1)).
        change (sleeps (Fetch (started (env retryCount))
                  :: Sleep (calculateRetryDelay (random (env retryCount)) retryCount)
                  :: effects1)) with (S (sleeps effects1)).
        cbn [total_sleep].
        split; [lia|]. split; [lia|]. split; [lia|].
        split; [lra|].
        split.
        { destruct retryCount as [|[|[|n]]]; [| | |lia]; cbn in Ht; lra. }
        intros data Hdata. rewrite (Hres data Hdata). reflexivity.
      * injection Hrun as <- <- <-. apply Hone. exact Hrc.
  - injection Hrun as <- <- <-. apply Hone. exact Hrc.
  - destruct (includes msg "fetch"); injection Hrun as <- <- <-; apply Hone; exact Hrc.
  - injection Hrun as <- <- <-. apply Hone. exact Hrc.
Qed.

End PipelineCoverageLemmas.

Section PipelineCoverage.

Import ApiService.

(** The effort of one request is bounded: at most four fetches and three
    backoff sleeps, never more sleeps than fetches, and less than 7.7 s
    of sleeping in all.  A request that resolves ended with a fetch. *)
Theorem request_effort_bounded env s :
  (forall i, (0 <= random (env i))%Q /\ (random (env i) < 1)%Q) ->
  exists out s' effects,
    request env s = Some (out, s', effects) /\
    (fetches effects <= 4)%nat /\
    (sleeps effects <= 3)%nat /\
    (sleeps effects <= fetches effects)%nat /\
    (total_sleep effects <= 7700)%Q /\
    (forall data, out = Resolved data -> fetches effects = S (sleeps effects)).
Proof.
  intros Hrand.
  destruct (request_total env s) as [[[out s'] effects] Hrun].
  exists out, s', effects. split; [exact Hrun|].
  destruct (makeRequest_bounds env Hrand _ _ _ _ _ _ Hrun ltac:(lia))
    as (Hf & Hs & Hsf & _ & Ht & Hres).
  repeat split; try lia; assumption.
Qed.

Lemma request_effort_bounded_witness :
  exists out s' effects,
    request (steady 0 (http 503)) (initial true 0) = Some (out, s', effects) /\
    (fetches effects <= 4)%nat /\
    (sleeps effects <= 3)%nat /\
    (sleeps effects <= fetches effects)%nat /\
    (total_sleep effects <= 7700)%Q /\
    (forall data, out = Resolved data -> fetches effects = S (sleeps effects)).
Proof.
  apply (request_effort_bounded (steady 0 (http 503)) (initial true 0)).
  intros i. split; [discriminate | reflexivity].
Defined.



End PipelineCoverage.

(* ===================================================================== *)
(** ** Request keys and the request queue *)
(* ===================================================================== *)

Section RequestKeyLemmas.

Import ApiService.

Lemma unquote_head_quote c rest :
  unquote_head (quote_char c +:+ rest) = Some (c, rest).
Proof.
  destruct c as [[] [] [] [] [] [] [] []]; reflexivity.
Qed.

Lemma unquote_head_dquote rest : unquote_head (dquote +:+ rest) = None.
Proof. reflexivity. Qed.

Lemma quote_chars_inj s1 : forall s2 t1 t2,
  quote_chars s1 +:+ dquote +:+ t1 = quote_chars s2 +:+ dquote +:+ t2 ->
  s1 = s2 /\ t1 = t2.
Proof.
  induction s1 as [|c1 s1 IH]; intros [|c2 s2] t1 t2 H; cbn [quote_chars] in H.
  - split; [reflexivity|]. exact (append_inj_l dquote t1 t2 H).
  - exfalso. apply (f_equal unquote_head) in H.
    rewrite append_assoc, unquote_head_quote in H.
    change ("" +:+ dquote +:+ t1) with (dquote +:+ t1) in H.
    rewrite unquote_head_dquote in H. discriminate.
  - exfalso. apply (f_equal unquote_head) in H.
    rewrite append_assoc, unquote_head_quote in H.
    change ("" +:+ dquote +:+ t2) with (dquote +:+ t2) in H.
    rewrite unquote_head_dquote in H. discriminate.
  - apply (f_equal unquote_head) in H.
    rewrite !append_assoc, !unquote_head_quote in H.
    injection H as -> H. destruct (IH s2 t1 t2 H) as [-> ->]. auto.
Qed.

Lemma JSON_stringify_string_inj s1 s2 t1 t2 :
  JSON_stringify_string s1 +:+ t1 = JSON_stringify_string s2 +:+ t2 ->
  s1 = s2 /\ t1 = t2.
Proof.
  unfold JSON_stringify_string. rewrite !append_assoc. intros H.
  apply append_inj_l in H.
  exact (quote_chars_inj s1 s2 t1 t2 H).
Qed.

Lemma json_property_inj name v1 v2 t1 t2 :
  json_property name v1 +:+ t1 = json_property name v2 +:+ t2 ->
  v1 = v2 /\ t1 = t2.
Proof.
  unfold json_property. rewrite !append_assoc. intros H.
  do 4 apply append_inj_l in H.
  exact (JSON_stringify_string_inj v1 v2 t1 t2 H).
Qed.

Lemma JSON_stringify_request_inj r1 r2 :
  JSON_stringify_request r1 = JSON_stringify_request r2 -> r1 = r2.
Proof.
  unfold JSON_stringify_request. intros H.
  apply append_inj_l in H.
  apply json_property_inj in H. destruct H as [Hm H].
  apply append_inj_l in H.
  apply json_property_inj in H. destruct H as [Hp H].
  apply append_inj_l in H.
  apply json_property_inj in H. destruct H as [Hg H].
  apply append_inj_l in H.
  apply json_property_inj in H. destruct H as [Hl _].
  destruct r1, r2. cbn in *. congruence.
Qed.

End RequestKeyLemmas.

Section RequestKeyCoverage.

Import ApiService.

Lemma requestKey_unfold r :
  requestKey r = "/api/chat_" +:+ JSON_stringify_string (JSON_stringify_request r) +:+ "".
Proof.
  rewrite append_empty_r. reflexivity.
Qed.

Lemma requestKey_inj r1 r2 : requestKey r1 = requestKey r2 -> r1 = r2.
Proof.
  rewrite !requestKey_unfold. intros H.
  apply append_inj_l in H.
  apply JSON_stringify_string_inj in H. destruct H as [H _].
  apply JSON_stringify_request_inj. exact H.
Qed.

(** Deduplication never merges different requests: the key determines
    the request, so two calls with requests that differ in any field each
    get a request of their own, also while the other is in flight. *)
Theorem different_requests_not_merged s c1 c2 r1 r2 :
  c1 <> c2 -> r1 <> r2 ->
  requestKey r1 <> requestKey r2 /\
  exists w,
    run [Call c1 r1; Call c2 r2] (new_world s) = Some w /\
    promises w = [(requestKey r1, None); (requestKey r2, None)] /\
    invocations w !! c1 = Some (mkInvocation 0 true Waiting) /\
    invocations w !! c2 = Some (mkInvocation 1 true Waiting).
Proof.
  intros Hc Hr.
  assert (Hk : requestKey r1 <> requestKey r2).
  { intros H. apply Hr, requestKey_inj, H. }
  split; [exact Hk|].
  unfold run, step, call, new_world.
  cbn [invocations service promises requestQueue set_requestQueue length app].
  rewrite !lookup_empty.
  cbn [invocations service promises requestQueue set_requestQueue length app].
  rewrite lookup_insert_ne by exact Hc.
  rewrite lookup_insert_ne by exact Hk.
  rewrite !lookup_empty.
  eexists. split; [reflexivity|].
  cbn [invocations service promises requestQueue set_requestQueue length app].
  split; [reflexivity|].
  split.
  - rewrite lookup_insert_ne by (intros E; apply Hc; symmetry; exact E).
    apply lookup_insert_eq.
  - apply lookup_insert_eq.
Qed.

Lemma different_requests_not_merged_witness :
  let r1 := mkChatRequest "hello" "wise" "female" "auto" in
  let r2 := mkChatRequest "hello" "wise" "female" "en" in
  requestKey r1 <> requestKey r2 /\
  exists w,
    run [Call 1%nat r1; Call 2%nat r2] (new_world (initial true 0)) = Some w /\
    promises w = [(requestKey r1, None); (requestKey r2, None)] /\
    invocations w !! 1%nat = Some (mkInvocation 0 true Waiting) /\
    invocations w !! 2%nat = Some (mkInvocation 1 true Waiting).
Proof.
  intros r1 r2.
  apply (different_requests_not_merged (initial true 0) 1%nat 2%nat r1 r2);
    discriminate.
Defined.

End RequestKeyCoverage.

Section QueueResetCoverage.

Import ApiService.

(** [clearRequestQueue] defeats deduplication.  Called while a request is
    in flight, it lets an identical call start a second request; and when
    the first call finishes, its clean-up removes the second request from
    the queue, so that a third identical call starts a third request
    while the second is still pending. *)
Theorem clearRequestQueue_defeats_deduplication s c1 c2 c3 r o :
  c1 <> c2 -> c1 <> c3 -> c2 <> c3 ->
  exists w1 w,
    run [Call c1 r] (new_world s) = Some w1 /\
    run [Call c2 r; Settle 0 o; Resume c1; Call c3 r] (clear_world w1) = Some w /\
    promises w =
      [(requestKey r, Some o); (requestKey r, None); (requestKey r, None)] /\
    requests_for (requestKey r) w = 3%nat /\
    invocations w !! c2 = Some (mkInvocation 1 true Waiting) /\
    invocations w !! c3 = Some (mkInvocation 2 true Waiting).
Proof.
  intros H12 H13 H23.
  eexists _, _. split.
  { unfold run, step, call, new_world.
    cbn [invocations service promises requestQueue set_requestQueue length app].
    rewrite !lookup_empty. reflexivity. }
  unfold clear_world, clearRequestQueue.
  cbn [invocations service promises requestQueue set_requestQueue length app].
  unfold run, step.
  (* the second call *)
  unfold call at 1.
  cbn [invocations service promises requestQueue set_requestQueue length app].
  rewrite lookup_insert_ne by exact H12. rewrite !lookup_empty.
  cbn [invocations service promises requestQueue set_requestQueue length app].
  (* the first request settles *)
  unfold settle.
  cbn [invocations service promises requestQueue set_requestQueue length app
       lookup list_lookup insert list_insert].
  (* the first call resumes *)
  unfold resume.
  cbn [invocations service promises requestQueue set_requestQueue length app
       lookup list_lookup insert list_insert].
  rewrite lookup_insert_ne by (intros E; apply H12; symmetry; exact E).
  rewrite lookup_insert_eq.
  cbn [invocations service promises requestQueue set_requestQueue length app
       lookup list_lookup insert list_insert awaited owner progress].
  rewrite delete_insert_eq, delete_empty.
  (* the third call *)
  unfold call.
  cbn [invocations service promises requestQueue set_requestQueue length app].
  rewrite lookup_insert_ne by exact H13.
  rewrite lookup_insert_ne by exact H23.
  rewrite lookup_insert_ne by exact H13.
  rewrite !lookup_empty.
  split; [reflexivity|].
  cbn [invocations service promises requestQueue set_requestQueue length app].
  split; [reflexivity|].
  split.
  { unfold requests_for. cbn [promises List.filter fst length].
    rewrite String.eqb_refl. reflexivity. }
  split.
  - rewrite lookup_insert_ne by (intros E; apply H23; symmetry; exact E).
    rewrite lookup_insert_ne by exact H12.
    apply lookup_insert_eq.
  - apply lookup_insert_eq.
Qed.

Lemma clearRequestQueue_defeats_deduplication_witness :
  let r := mkChatRequest "hello" "wise" "female" "auto" in
  let o := Resolved (mkJson None None (Some "hi") None) in
  exists w1 w,
    run [Call 1%nat r] (new_world (initial true 0)) = Some w1 /\
    run [Call 2%nat r; Settle 0 o; Resume 1%nat; Call 3%nat r] (clear_world w1)
      = Some w /\
    promises w =
      [(requestKey r, Some o); (requestKey r, None); (requestKey r, None)] /\
    requests_for (requestKey r) w = 3%nat /\
    invocations w !! 2%nat = Some (mkInvocation 1 true Waiting) /\
    invocations w !! 3%nat = Some (mkInvocation 2 true Waiting).
Proof.
  intros r o.
  apply (clearRequestQueue_defeats_deduplication (initial true 0) 1%nat 2%nat 3%nat r o);
    discriminate.
Defined.

End QueueResetCoverage.
